(** * ResumeRAG: the document-matching and retrieval engine

    A shallow embedding of the Python services under [backend/services]
    (text normaliser, cosine scorer, evidence engine, ranking pipelines,
    PII redaction, snippet extraction, resume upload) together with the
    properties of the specification that were checked against them.

    Modelling conventions.
    - A Python [str] is a list of 8-bit characters ([str := list ascii]).
      Only 7-bit ASCII carries a class: letters have case, [0-9] are the
      digits, and the white space of [str.isspace], [str.split] and the
      regular expression class [\s] is the set of codes 9-13, 28-31, 32.
      Codes above 127 are caseless symbols that are neither word
      characters nor white space.
    - A Python [float] is a real number ([R]); NaN and infinities are not
      part of that model.  The scorer and the document ranking are given
      a second time over IEEE binary64 ([Binary64]), to evaluate them
      where the arithmetic overflows.
    - A raised exception is the [Err] branch of [result].
    - [list.sort(key, reverse=True)] and the slice [l[:n]] are modelled
      from the CPython definitions ([PyList]); the four [re] functions
      used by the services are modelled by a backtracking matcher ([Re]). *)

From Stdlib Require Import Ascii String DecimalString.
From Stdlib Require Import Bool Arith ZArith QArith Reals Lia Lra List Sorted.
From Stdlib Require Import Permutation.
From Stdlib Require PrimFloat.
Import ListNotations.

Close Scope Q_scope.
Close Scope R_scope.
Open Scope nat_scope.
Open Scope list_scope.

Set Implicit Arguments.

(** ** Exceptions *)

Inductive exn : Type :=
| ValueError (msg : string)
| ZeroDivisionError.

Inductive result (A : Type) : Type :=
| Ok (a : A)
| Err (e : exn).

Arguments Ok {A} a.
Arguments Err {A} e.

Definition bind {A B : Type} (r : result A) (f : A -> result B) : result B :=
  match r with
  | Ok a => f a
  | Err e => Err e
  end.

Notation "x <- r ;; k" := (bind r (fun x => k))
  (at level 61, r at next level, right associativity).

Definition is_ok {A : Type} (r : result A) : bool :=
  match r with
  | Ok _ => true
  | Err _ => false
  end.

(** ** Python strings *)

Module PyStr.

Definition str : Type := list ascii.

Definition py (s : string) : str := list_ascii_of_string s.

Definition code (c : ascii) : nat := nat_of_ascii c.

Definition between (lo hi : nat) (c : ascii) : bool :=
  (lo <=? code c) && (code c <=? hi).

Definition is_upper (c : ascii) : bool := between 65 90 c.
Definition is_lower (c : ascii) : bool := between 97 122 c.
Definition is_digit (c : ascii) : bool := between 48 57 c.
Definition is_alpha (c : ascii) : bool := is_upper c || is_lower c.
Definition is_alnum (c : ascii) : bool := is_alpha c || is_digit c.

(** [str.isspace] on one character; also the class [\s]. *)
Definition is_space (c : ascii) : bool :=
  between 9 13 c || between 28 32 c.

(** The class [\w]: alphanumeric or underscore. *)
Definition is_word (c : ascii) : bool :=
  is_alnum c || (code c =? 95).

Definition lower_char (c : ascii) : ascii :=
  if is_upper c then ascii_of_nat (code c + 32) else c.

Definition upper_char (c : ascii) : ascii :=
  if is_lower c then ascii_of_nat (code c - 32) else c.

(** [s.lower()], [s.upper()] *)
Definition lower (s : str) : str := map lower_char s.
Definition upper (s : str) : str := map upper_char s.

Definition ascii_eqb (a b : ascii) : bool := Ascii.eqb a b.

Fixpoint str_eqb (a b : str) : bool :=
  match a, b with
  | [], [] => true
  | x :: a', y :: b' => ascii_eqb x y && str_eqb a' b'
  | _, _ => false
  end.

(** [s.startswith(p)] *)
Fixpoint startswith (p s : str) : bool :=
  match p, s with
  | [], _ => true
  | _ :: _, [] => false
  | x :: p', y :: s' => ascii_eqb x y && startswith p' s'
  end.

(** [needle in hay] *)
Fixpoint str_in (needle hay : str) : bool :=
  startswith needle hay ||
  match hay with
  | [] => false
  | _ :: hay' => str_in needle hay'
  end.

(** [hay.find(needle)]; [None] stands for -1. *)
Fixpoint find (needle hay : str) : option nat :=
  if startswith needle hay then Some 0
  else match hay with
       | [] => None
       | _ :: hay' => option_map S (find needle hay')
       end.

(** [s.split()]: maximal runs of non-space characters. *)
Fixpoint split_go (word : str) (s : str) : list str :=
  match s with
  | [] => match word with [] => [] | _ => [word] end
  | c :: s' =>
      if is_space c then
        match word with
        | [] => split_go [] s'
        | _ => word :: split_go [] s'
        end
      else split_go (word ++ [c]) s'
  end.

Definition split (s : str) : list str := split_go [] s.

Fixpoint lstrip (s : str) : str :=
  match s with
  | [] => []
  | c :: s' => if is_space c then lstrip s' else s
  end.

Definition rstrip (s : str) : str := rev (lstrip (rev s)).

(** [s.strip()] *)
Definition strip (s : str) : str := rstrip (lstrip s).

(** [sep.join(parts)] *)
Fixpoint join (sep : str) (parts : list str) : str :=
  match parts with
  | [] => []
  | [p] => p
  | p :: rest => p ++ sep ++ join sep rest
  end.

(** [s[a:b]] for 0 <= a and 0 <= b *)
Definition slice (a b : nat) (s : str) : str := firstn (b - a) (skipn a s).

(** [int(s)] on a run of decimal digits *)
Definition int_of_digits (s : str) : nat :=
  fold_left (fun acc c => 10 * acc + (code c - 48)) s 0.

(** [str(n)] for a natural number *)
Definition str_of_nat (n : nat) : str :=
  py (NilEmpty.string_of_uint (Nat.to_uint n)).

End PyStr.
Import PyStr.

(** ** Python lists: slicing and sorting *)

Module PyList.

(** [l[:n]] for an arbitrary integer [n]: a non-negative bound keeps the
    first [n] items, a negative one drops the last [-n]. *)
Definition slice_to {A : Type} (n : Z) (l : list A) : list A :=
  if (0 <=? n)%Z then firstn (Z.to_nat n) l
  else firstn (length l - Z.to_nat (- n)) l.

Section Sort.
Variables (A K : Type).
Variable key : A -> K.
Variable leb : K -> K -> bool.

(** Stable insertion: [x] goes after every item whose key is not larger. *)
Fixpoint insert_after (x : A) (l : list A) : list A :=
  match l with
  | [] => [x]
  | y :: l' =>
      if leb (key y) (key x) then y :: insert_after x l'
      else x :: l
  end.

(** Stable ascending sort, written as an insertion sort: items are
    inserted from left to right. *)
Definition sort_asc (l : list A) : list A :=
  fold_left (fun acc x => insert_after x acc) l [].

(** [l.sort(key=key, reverse=reverse)].  CPython keeps the sort stable
    under [reverse=True] by reversing the list, sorting it in ascending
    order, and reversing the outcome. *)
Definition sort (reverse : bool) (l : list A) : list A :=
  if reverse then rev (sort_asc (rev l)) else sort_asc l.

(** The key of [x] compares equal to [v]. *)
Definition same_key (v : K) (x : A) : bool :=
  leb (key x) v && leb v (key x).
End Sort.

End PyList.

(** ** Regular expressions: the fragment of [re] the services use *)

Module Re.

Inductive regex : Type :=
| Eps
| Cls (p : ascii -> bool)
| Cat (a b : regex)
| Alt (a b : regex)
| Rep (lo : nat) (hi : option nat) (a : regex)
| WordB.

Definition chr (c : string) : regex :=
  Cls (fun x => existsb (ascii_eqb x) (py c)).

Definition not_cls (p : ascii -> bool) : regex := Cls (fun x => negb (p x)).

Fixpoint lit_go (s : str) : regex :=
  match s with
  | [] => Eps
  | [c] => Cls (ascii_eqb c)
  | c :: s' => Cat (Cls (ascii_eqb c)) (lit_go s')
  end.

Definition lit (s : string) : regex := lit_go (py s).

Fixpoint seq (rs : list regex) : regex :=
  match rs with
  | [] => Eps
  | [r] => r
  | r :: rs' => Cat r (seq rs')
  end.

Fixpoint alt (rs : list regex) : regex :=
  match rs with
  | [] => Cls (fun _ => false)
  | [r] => r
  | r :: rs' => Alt r (alt rs')
  end.

Definition opt (r : regex) : regex := Rep 0 (Some 1) r.
Definition star (r : regex) : regex := Rep 0 None r.
Definition plus (r : regex) : regex := Rep 1 None r.
Definition times (n : nat) (r : regex) : regex := Rep n (Some n) r.
Definition at_least (n : nat) (r : regex) : regex := Rep n None r.

Definition is_word_opt (c : option ascii) : bool :=
  match c with
  | Some x => is_word x
  | None => false
  end.

(** [\b] holds between a word character and a non-word character or an
    end of the string. *)
Definition boundary (prev : option ascii) (s : str) : bool :=
  xorb (is_word_opt prev) (is_word_opt (hd_error s)).

Section Matcher.
Variable icase : bool.
Variable A : Type.

Definition cont : Type := option ascii -> str -> option A.
Definition matcher : Type := option ascii -> str -> cont -> option A.

Definition cls_test (p : ascii -> bool) (c : ascii) : bool :=
  if icase then p c || p (lower_char c) || p (upper_char c) else p c.

(** The optional, greedy iterations of a repetition: one more iteration
    is tried first, and it has to consume at least one character.  [n]
    bounds the number of further iterations; it starts at the length of
    the remaining text, which every iteration shortens. *)
Fixpoint rep_opt (m : matcher) (extra : option nat) (n : nat)
    (prev : option ascii) (s : str) (k : cont) : option A :=
  match n with
  | O => k prev s
  | S n' =>
      match extra with
      | Some O => k prev s
      | _ =>
          match m prev s (fun p' s' =>
                  if length s' <? length s
                  then rep_opt m (option_map pred extra) n' p' s' k
                  else None) with
          | Some x => Some x
          | None => k prev s
          end
      end
  end.

(** The mandatory iterations of a repetition. *)
Fixpoint rep_req (m : matcher) (lo : nat) (after : matcher)
    (prev : option ascii) (s : str) (k : cont) : option A :=
  match lo with
  | O => after prev s k
  | S lo' => m prev s (fun p' s' => rep_req m lo' after p' s' k)
  end.

(** Backtracking match of [r] at the head of [s]; [prev] is the
    character before it.  The continuation [k] receives the rest of the
    string; alternatives are tried in the order of [re]. *)
Fixpoint rmatch (r : regex) (prev : option ascii) (s : str) (k : cont)
    : option A :=
  match r with
  | Eps => k prev s
  | Cls p =>
      match s with
      | c :: s' => if cls_test p c then k (Some c) s' else None
      | [] => None
      end
  | Cat a b => rmatch a prev s (fun p' s' => rmatch b p' s' k)
  | Alt a b =>
      match rmatch a prev s k with
      | Some x => Some x
      | None => rmatch b prev s k
      end
  | Rep lo hi a =>
      rep_req (rmatch a) lo
        (fun p' s' k' =>
           rep_opt (rmatch a) (option_map (fun h => h - lo) hi)
             (length s') p' s' k')
        prev s k
  | WordB => if boundary prev s then k prev s else None
  end.
End Matcher.

(** [re.match] at one position: the rest of the string after the match. *)
Definition match_at (icase : bool) (r : regex) (prev : option ascii)
    (s : str) : option str :=
  rmatch icase r prev s (fun _ rest => Some rest).

(** [re.search]: does [r] match at some position of [s]? *)
Fixpoint search_from (icase : bool) (r : regex) (prev : option ascii)
    (s : str) : bool :=
  match match_at icase r prev s with
  | Some _ => true
  | None =>
      match s with
      | [] => false
      | c :: s' => search_from icase r (Some c) s'
      end
  end.

Definition search (icase : bool) (r : regex) (s : str) : bool :=
  search_from icase r None s.

(** [re.sub(r, repl, s)] for a replacement without group references:
    leftmost non-overlapping matches are replaced from left to right.
    [skip] counts the characters of the current match still to be
    dropped. *)
Fixpoint sub_go (icase : bool) (r : regex) (repl : str)
    (prev : option ascii) (s : str) (skip : nat) : str :=
  match skip with
  | S j =>
      match s with
      | c :: s' => sub_go icase r repl (Some c) s' j
      | [] => []
      end
  | O =>
      match match_at icase r prev s with
      | Some rest =>
          repl ++
          match s with
          | [] => []
          | c :: s' =>
              match length s - length rest with
              | O => c :: sub_go icase r repl (Some c) s' 0
              | S j => sub_go icase r repl (Some c) s' j
              end
          end
      | None =>
          match s with
          | [] => []
          | c :: s' => c :: sub_go icase r repl (Some c) s' 0
          end
      end
  end.

Definition sub (icase : bool) (r : regex) (repl : str) (s : str) : str :=
  sub_go icase r repl None s 0.

(** [re.split(r, s)] for a pattern without groups that matches no empty
    string: the pieces between the matches, empty pieces included. *)
Fixpoint split_go (icase : bool) (r : regex) (piece : str)
    (prev : option ascii) (s : str) (skip : nat) : list str :=
  match skip with
  | S j =>
      match s with
      | c :: s' => split_go icase r piece (Some c) s' j
      | [] => [piece]
      end
  | O =>
      match s with
      | [] => [piece]
      | c :: s' =>
          match match_at icase r prev s with
          | Some rest =>
              match length s - length rest with
              | O => split_go icase r (piece ++ [c]) (Some c) s' 0
              | S j => piece :: split_go icase r [] (Some c) s' j
              end
          | None => split_go icase r (piece ++ [c]) (Some c) s' 0
          end
      end
  end.

Definition split (icase : bool) (r : regex) (s : str) : list str :=
  split_go icase r [] None s 0.

End Re.

(** ** models.py *)

Record User : Type := mkUser {
  user_id : nat;
  is_recruiter : bool
}.

(** ** services/pii_service.py *)

Module PIIService.
Import Re.

Definition digit : regex := Cls is_digit.
Definition space : regex := Cls is_space.

(** [[A-Za-z0-9._%+-]] *)
Definition email_local (c : ascii) : bool :=
  is_alnum c || existsb (ascii_eqb c) (py "._%+-").
(** [[A-Za-z0-9.-]] *)
Definition email_domain (c : ascii) : bool :=
  is_alnum c || existsb (ascii_eqb c) (py ".-").
(** [[A-Z|a-z]] *)
Definition email_tld (c : ascii) : bool :=
  is_alpha c || existsb (ascii_eqb c) (py "|").
(** [[a-zA-Z0-9-]] *)
Definition slug (c : ascii) : bool :=
  is_alnum c || existsb (ascii_eqb c) (py "-").
(** [[A-Za-z\s]] *)
Definition street_name (c : ascii) : bool := is_alpha c || is_space c.
(** [[-.\s]] and [[-\s]] *)
Definition phone_sep (c : ascii) : bool :=
  existsb (ascii_eqb c) (py "-.") || is_space c.
Definition card_sep (c : ascii) : bool :=
  existsb (ascii_eqb c) (py "-") || is_space c.

(** [\b[A-Za-z0-9._%+-]+@[A-Za-z0-9.-]+\.[A-Z|a-z]{2,}\b] *)
Definition email_re : regex :=
  seq [WordB; plus (Cls email_local); chr "@"; plus (Cls email_domain);
       chr "."; at_least 2 (Cls email_tld); WordB].

(** [(\+?1[-.\s]?)?\(?([0-9]{3})\)?[-.\s]?([0-9]{3})[-.\s]?([0-9]{4})] *)
Definition phone_re : regex :=
  seq [opt (seq [opt (chr "+"); chr "1"; opt (Cls phone_sep)]);
       opt (chr "("); times 3 digit; opt (chr ")"); opt (Cls phone_sep);
       times 3 digit; opt (Cls phone_sep); times 4 digit].

(** [\b\d{3}-?\d{2}-?\d{4}\b] *)
Definition ssn_re : regex :=
  seq [WordB; times 3 digit; opt (chr "-"); times 2 digit; opt (chr "-");
       times 4 digit; WordB].

(** [\b\d{4}[-\s]?\d{4}[-\s]?\d{4}[-\s]?\d{4}\b] *)
Definition credit_card_re : regex :=
  seq [WordB; times 4 digit; opt (Cls card_sep); times 4 digit;
       opt (Cls card_sep); times 4 digit; opt (Cls card_sep);
       times 4 digit; WordB].

(** [\d+\s+[A-Za-z\s]+(?:Street|St|Avenue|Ave|Road|Rd|Boulevard|Blvd|Lane|Ln|Drive|Dr)] *)
Definition address_re : regex :=
  seq [plus digit; plus space; plus (Cls street_name);
       alt [lit "Street"; lit "St"; lit "Avenue"; lit "Ave"; lit "Road";
            lit "Rd"; lit "Boulevard"; lit "Blvd"; lit "Lane"; lit "Ln";
            lit "Drive"; lit "Dr"]].

(** [linkedin\.com/in/[a-zA-Z0-9-]+] *)
Definition linkedin_re : regex :=
  seq [lit "linkedin.com/in/"; plus (Cls slug)].

(** [github\.com/[a-zA-Z0-9-]+] *)
Definition github_re : regex :=
  seq [lit "github.com/"; plus (Cls slug)].

(** [https?://(?:www\.)?[a-zA-Z0-9-]+\.[a-zA-Z]{2,}(?:/[^\s]* )?], written
    here with a blank before the last parenthesis that the source does
    not have. *)
Definition personal_website_re : regex :=
  seq [lit "http"; opt (chr "s"); lit "://"; opt (lit "www.");
       plus (Cls slug); chr "."; at_least 2 (Cls is_alpha);
       opt (seq [chr "/"; star (not_cls is_space)])].

(** [self.pii_patterns]: a dict, iterated in insertion order. *)
Definition pii_patterns : list (string * regex) :=
  [ ("email", email_re);
    ("phone", phone_re);
    ("ssn", ssn_re);
    ("credit_card", credit_card_re);
    ("address", address_re);
    ("linkedin", linkedin_re);
    ("github", github_re);
    ("personal_website", personal_website_re) ]%string.

(** [self.replacements] *)
Definition replacements : list (string * string) :=
  [ ("email", "[EMAIL_REDACTED]");
    ("phone", "[PHONE_REDACTED]");
    ("ssn", "[SSN_REDACTED]");
    ("credit_card", "[CARD_REDACTED]");
    ("address", "[ADDRESS_REDACTED]");
    ("linkedin", "[LINKEDIN_REDACTED]");
    ("github", "[GITHUB_REDACTED]");
    ("personal_website", "[WEBSITE_REDACTED]") ]%string.

(** [d.get(key, default)] *)
Fixpoint dict_get (d : list (string * string)) (k : string) (default : str)
    : str :=
  match d with
  | [] => default
  | (k', v) :: d' => if String.eqb k k' then py v else dict_get d' k default
  end.

Definition replacement_for (pii_type : string) : str :=
  dict_get replacements pii_type
    (py "[" ++ upper (py pii_type) ++ py "_REDACTED]").

(** The body of the loop of [redact_pii], run over [patterns]. *)
Fixpoint redact_loop (patterns : list (string * regex)) (redacted_text : str)
    : str :=
  match patterns with
  | [] => redacted_text
  | (pii_type, pattern) :: rest =>
      let replacement := replacement_for pii_type in
      redact_loop rest (sub true pattern replacement redacted_text)
  end.

Definition redact_pii (text : str) (user : User) : str :=
  if is_recruiter user then text
  else redact_loop pii_patterns text.

(** None of the patterns matches anywhere in the text. *)
Definition no_match_left (text : str) : bool :=
  forallb (fun entry => negb (search true (snd entry) text)) pii_patterns.

End PIIService.

(** The metadata dictionary built by [_extract_metadata]. *)
Record Metadata : Type := mkMetadata {
  skills : list str;
  experience : list str;
  education : list str;
  contact_info : list (string * str)
}.

(** A row of [resumes].  [embeddings] is a nullable JSON column holding a
    list of floats. *)
Record Resume : Type := mkResume {
  resume_id : nat;
  filename : str;
  original_filename : str;
  file_path : str;
  file_size : nat;
  content : str;
  embeddings : option (list R);
  metadata : option Metadata;
  idempotency_key : option str;
  owner_id : nat
}.

(** A row of [jobs]. *)
Record Job : Type := mkJob {
  job_id : nat;
  title : str;
  description : str;
  requirements : list str;
  company : str;
  job_owner_id : nat
}.

(** The tables a [Session] gives access to, rows in insertion order. *)
Record Db : Type := mkDb {
  resumes_table : list Resume;
  jobs_table : list Job
}.

(** Truth value of a list of floats that may be [None]. *)
Definition truthy (e : option (list R)) : bool :=
  match e with
  | Some (_ :: _) => true
  | _ => false
  end.

Definition Rleb (x y : R) : bool := if Rle_dec x y then true else false.
Definition Reqb (x y : R) : bool := if Req_dec_T x y then true else false.

(** ** services/embedding_service.py *)

Module EmbeddingService.

Definition punctuation : str := py ".,!?;:-".

(** The characters kept by [[^\w\s.,!?;:-]]. *)
Definition kept (c : ascii) : bool :=
  is_word c || is_space c || existsb (ascii_eqb c) punctuation.

Definition _clean_text (text : str) : str :=
  let text := Re.sub false (Re.plus (Re.Cls is_space)) (py " ") text in
  let text := Re.sub false (Re.not_cls kept) [] text in
  let text := lower text in
  let words := PyStr.split text in
  let words := filter (fun word => 2 <? length word) words in
  join (py " ") words.

Section Encoder.
(** [SentenceTransformer.encode] followed by [tolist]. *)
Variable encode : str -> list R.

Definition generate_embeddings (text : str) : list R :=
  let cleaned_text := _clean_text text in
  encode cleaned_text.
End Encoder.

(** [np.dot] of two one-dimensional arrays of the same length. *)
Fixpoint dot (a b : list R) : R :=
  match a, b with
  | x :: a', y :: b' => (x * y + dot a' b')%R
  | _, _ => 0%R
  end.

(** [np.linalg.norm] *)
Definition norm (a : list R) : R := sqrt (dot a a).

Definition calculate_similarity (embedding1 embedding2 : list R) : result R :=
  if length embedding1 =? length embedding2 then
    let dot_product := dot embedding1 embedding2 in
    let norm1 := norm embedding1 in
    let norm2 := norm embedding2 in
    if Reqb norm1 0 || Reqb norm2 0 then Ok 0%R
    else
      let similarity := (dot_product / (norm1 * norm2))%R in
      Ok similarity
  else Err (ValueError "shapes not aligned").

(** An entry of [document_embeddings]; [doc_embeddings = None] covers both
    a missing key and a [None] value. *)
Record Document : Type := mkDocument {
  doc_id : nat;
  doc_content : str;
  doc_filename : str;
  doc_embeddings : option (list R)
}.

Record Similar : Type := mkSimilar {
  document : Document;
  similarity : R
}.

Fixpoint similarities_loop (query_embedding : list R)
    (document_embeddings : list Document) (similarities : list Similar)
    : result (list Similar) :=
  match document_embeddings with
  | [] => Ok similarities
  | doc :: rest =>
      match doc_embeddings doc with
      | Some (x :: e) =>
          sim <- calculate_similarity query_embedding (x :: e) ;;
          similarities_loop query_embedding rest
            (similarities ++ [mkSimilar doc sim])
      | _ => similarities_loop query_embedding rest similarities
      end
  end.

(** What the loop appends for a document that has embeddings. *)
Definition similar_of (query_embedding : list R) (s : Similar)
    (doc : Document) : Prop :=
  document s = doc /\
  exists e, doc_embeddings doc = Some e /\
            calculate_similarity query_embedding e = Ok (similarity s).

Definition find_similar_documents (query_embedding : list R)
    (document_embeddings : list Document) (top_k : Z)
    : result (list Similar) :=
  similarities <- similarities_loop query_embedding document_embeddings [] ;;
  let similarities := PyList.sort similarity Rleb true similarities in
  Ok (PyList.slice_to top_k similarities).

End EmbeddingService.

(** ** services/matching_service.py *)

Module MatchingService.
Import Re.

Inductive EvidenceType : Type :=
| skill_match
| experience_match
| education_match.

Definition EvidenceType_eqb (a b : EvidenceType) : bool :=
  match a, b with
  | skill_match, skill_match => true
  | experience_match, experience_match => true
  | education_match, education_match => true
  | _, _ => false
  end.

Record Evidence : Type := mkEvidence {
  ev_requirement : str;
  ev_evidence : str;
  ev_type : EvidenceType
}.

Record MatchResult : Type := mkMatch {
  m_resume_id : nat;
  m_filename : str;
  score : R;
  evidence : list Evidence;
  missing_requirements : list str
}.

Definition _find_context (term : str) (content : str) : str :=
  match find term (lower content) with
  | None => []
  | Some pos =>
      let start := pos - 100 in
      let end_ := Nat.min (length content) (pos + length term + 100) in
      let context := slice start end_ content in
      strip (sub false (plus (Cls is_space)) (py " ") context)
  end.

Fixpoint has_similar_loop (requirement_words : list str) (content : str)
    : bool :=
  match requirement_words with
  | [] => false
  | word :: rest =>
      if 3 <? length word then
        if str_in word content then true
        else has_similar_loop rest content
      else has_similar_loop rest content
  end.

Definition _has_similar_term (requirement : str) (content : str) : bool :=
  let requirement_words := PyStr.split requirement in
  has_similar_loop requirement_words content.

(** The part of [years_pattern] after its group, that is white space,
    [years?], white space, an optional [of] with white space, and
    [experience]. *)
Definition years_tail : regex :=
  seq [star (Cls is_space); lit "year"; opt (chr "s"); star (Cls is_space);
       opt (seq [lit "of"; star (Cls is_space)]); lit "experience"].

(** [years_pattern], the group [(\d+)] followed by [years_tail], at one
    position: the text of group 1. *)
Definition years_at (prev : option ascii) (s : str) : option str :=
  rmatch false (plus (Cls is_digit)) prev s (fun p1 s1 =>
    rmatch false years_tail p1 s1 (fun _ _ =>
      Some (firstn (length s - length s1) s))).

(** [re.findall(years_pattern, text)[0]] when the list is not empty. *)
Fixpoint years_first (prev : option ascii) (s : str) : option str :=
  match years_at prev s with
  | Some g => Some g
  | None =>
      match s with
      | [] => None
      | c :: s' => years_first (Some c) s'
      end
  end.

Definition _check_experience_match (job : Job) (resume : Resume)
    : list Evidence :=
  let job_text := lower (description job) in
  let resume_content := lower (content resume) in
  match years_first None job_text with
  | Some job_years =>
      let required_years := int_of_digits job_years in
      match years_first None resume_content with
      | Some resume_years =>
          let candidate_years := int_of_digits resume_years in
          if required_years <=? candidate_years then
            [mkEvidence
               (str_of_nat required_years ++ py " years of experience")
               (py "Candidate has " ++ str_of_nat candidate_years
                  ++ py " years of experience")
               experience_match]
          else []
      | None => []
      end
  | None => []
  end.

Definition education_terms : list str :=
  map py ["bachelor"; "master"; "phd"; "degree"; "university"; "college"]%string.

Fixpoint education_loop (job_text resume_content : str) (resume : Resume)
    (terms : list str) (evidence : list Evidence) : list Evidence :=
  match terms with
  | [] => evidence
  | term :: rest =>
      if str_in term job_text && str_in term resume_content then
        let context := _find_context term (content resume) in
        education_loop job_text resume_content resume rest
          (evidence ++ [mkEvidence (py "Education: " ++ term) context
                          education_match])
      else education_loop job_text resume_content resume rest evidence
  end.

Definition _check_education_match (job : Job) (resume : Resume)
    : list Evidence :=
  let job_text := lower (description job) in
  let resume_content := lower (content resume) in
  education_loop job_text resume_content resume education_terms [].

(** The loop over [job_requirements] in [_extract_evidence]. *)
Fixpoint skills_loop (resume : Resume) (resume_content : str)
    (job_requirements : list str) (evidence : list Evidence)
    : list Evidence :=
  match job_requirements with
  | [] => evidence
  | requirement :: rest =>
      let requirement_lower := lower requirement in
      if str_in requirement_lower resume_content then
        let context := _find_context requirement_lower (content resume) in
        skills_loop resume resume_content rest
          (evidence ++ [mkEvidence requirement context skill_match])
      else skills_loop resume resume_content rest evidence
  end.

Definition _extract_evidence (job : Job) (resume : Resume) : list Evidence :=
  let job_requirements := requirements job in
  let resume_content := lower (content resume) in
  let evidence := skills_loop resume resume_content job_requirements [] in
  let experience_evidence := _check_experience_match job resume in
  let evidence :=
    match experience_evidence with
    | [] => evidence
    | _ => evidence ++ experience_evidence
    end in
  let education_evidence := _check_education_match job resume in
  match education_evidence with
  | [] => evidence
  | _ => evidence ++ education_evidence
  end.

(** The loop of [_find_missing_requirements]. *)
Fixpoint missing_loop (resume_content : str) (job_requirements : list str)
    (missing : list str) : list str :=
  match job_requirements with
  | [] => missing
  | requirement :: rest =>
      let requirement_lower := lower requirement in
      if negb (str_in requirement_lower resume_content) then
        if negb (_has_similar_term requirement_lower resume_content) then
          missing_loop resume_content rest (missing ++ [requirement])
        else missing_loop resume_content rest missing
      else missing_loop resume_content rest missing
  end.

Definition _find_missing_requirements (job : Job) (resume : Resume)
    : list str :=
  let job_requirements := requirements job in
  let resume_content := lower (content resume) in
  missing_loop resume_content job_requirements [].

(** The item the loop appends for a requirement found in the text. *)
Definition skill_item (resume : Resume) (requirement : str) : Evidence :=
  mkEvidence requirement
    (_find_context (lower requirement) (content resume)) skill_match.

(** Some [skill_match] item of the evidence list names the requirement. *)
Definition has_skill_evidence (requirement : str) (ev : list Evidence)
    : Prop :=
  exists e, In e ev /\ ev_requirement e = requirement /\
            ev_type e = skill_match.

(** The job with every occurrence of one requirement taken out of its
    list. *)
Definition without_requirement (requirement : str) (job : Job) : Job :=
  mkJob (job_id job) (title job) (description job)
    (filter (fun x => negb (str_eqb x requirement)) (requirements job))
    (company job) (job_owner_id job).

Section Encoder.
Variable encode : str -> list R.

(** The loop over [resumes] in [match_candidates]. *)
Fixpoint matches_loop (job : Job) (job_embedding : list R)
    (resumes : list Resume) (matches : list MatchResult)
    : result (list MatchResult) :=
  match resumes with
  | [] => Ok matches
  | resume :: rest =>
      match embeddings resume with
      | Some (x :: e) =>
          similarity <-
            EmbeddingService.calculate_similarity job_embedding (x :: e) ;;
          let evidence := _extract_evidence job resume in
          let missing_requirements :=
            _find_missing_requirements job resume in
          matches_loop job job_embedding rest
            (matches ++ [mkMatch (resume_id resume)
                           (original_filename resume) similarity
                           evidence missing_requirements])
      | _ => matches_loop job job_embedding rest matches
      end
  end.

(** What the loop appends for a resume that has embeddings. *)
Definition match_of (job : Job) (job_embedding : list R) (m : MatchResult)
    (resume : Resume) : Prop :=
  m_resume_id m = resume_id resume /\
  m_filename m = original_filename resume /\
  (exists e, embeddings resume = Some e /\
     EmbeddingService.calculate_similarity job_embedding e = Ok (score m)) /\
  evidence m = _extract_evidence job resume /\
  missing_requirements m = _find_missing_requirements job resume.

(** [db.query(Job).filter(Job.id == job_id, Job.owner_id == user_id).first()] *)
Definition query_job (id user_id : nat) (db : Db) : option Job :=
  List.find (fun j => (job_id j =? id) && (job_owner_id j =? user_id))
    (jobs_table db).

(** [db.query(Resume).filter(Resume.owner_id == user_id).all()] *)
Definition query_resumes (user_id : nat) (db : Db) : list Resume :=
  filter (fun r => owner_id r =? user_id) (resumes_table db).

Definition match_candidates (job_id : nat) (top_n : Z) (user_id : nat)
    (db : Db) : result (list MatchResult) :=
  match query_job job_id user_id db with
  | None => Err (ValueError "Job not found")
  | Some job =>
      let resumes := query_resumes user_id db in
      match resumes with
      | [] => Ok []
      | _ =>
          let job_text :=
            title job ++ py " " ++ description job ++ py " "
              ++ join (py " ") (requirements job) in
          let job_embedding :=
            EmbeddingService.generate_embeddings encode job_text in
          matches <- matches_loop job job_embedding resumes [] ;;
          let matches := PyList.sort score Rleb true matches in
          let top_matches := PyList.slice_to top_n matches in
          Ok top_matches
      end
  end.
End Encoder.

End MatchingService.

(** ** services/rag_service.py and services/simple_rag_service.py *)

Module SnippetExtractor.
Import Re.

(** [[.!?]+] *)
Definition sentence_end : regex :=
  plus (Cls (fun c => existsb (ascii_eqb c) (py ".!?"))).

(** [any(word in sentence_lower for word in query_words)] *)
Definition any_word_in (query_words : list str) (sentence_lower : str)
    : bool :=
  existsb (fun word => str_in word sentence_lower) query_words.

(** The loop over [sentences]. *)
Fixpoint snippets_loop (query_words : list str) (sentences : list str)
    (relevant_snippets : list str) : list str :=
  match sentences with
  | [] => relevant_snippets
  | sentence :: rest =>
      let sentence_lower := lower sentence in
      if any_word_in query_words sentence_lower then
        let snippet := firstn 200 (strip sentence) in
        if 50 <? length snippet then
          snippets_loop query_words rest (relevant_snippets ++ [snippet])
        else snippets_loop query_words rest relevant_snippets
      else snippets_loop query_words rest relevant_snippets
  end.

(** [SimpleRAGService._extract_snippets] *)
Definition _extract_snippets (query : str) (content : str) : list str :=
  let query_words := PyStr.split (lower query) in
  let sentences := Re.split false sentence_end content in
  let relevant_snippets := snippets_loop query_words sentences [] in
  firstn 3 relevant_snippets.

(** [RAGService._extract_relevant_snippets] has the same body. *)
Definition _extract_relevant_snippets (query : str) (content : str)
    : list str :=
  let query_words := PyStr.split (lower query) in
  let sentences := Re.split false sentence_end content in
  let relevant_snippets := snippets_loop query_words sentences [] in
  firstn 3 relevant_snippets.

End SnippetExtractor.

Module SimpleRAGService.

Record Relevant : Type := mkRelevant {
  resume : Resume;
  score : nat
}.

Record Source : Type := mkSource {
  src_resume_id : nat;
  src_filename : str;
  similarity_score : Q;
  snippets : list str
}.

Record AskResponse : Type := mkAskResponse {
  answer : str;
  sources : list Source
}.

(** The loop counting the query words found in the content. *)
Fixpoint count_loop (query_words : list str) (content_lower : str)
    (score : nat) : nat :=
  match query_words with
  | [] => score
  | word :: rest =>
      if str_in word content_lower then count_loop rest content_lower (score + 1)
      else count_loop rest content_lower score
  end.

(** The loop over [resumes] collecting the relevant ones. *)
Fixpoint relevant_loop (query_words : list str) (resumes : list Resume)
    (relevant_resumes : list Relevant) : list Relevant :=
  match resumes with
  | [] => relevant_resumes
  | r :: rest =>
      let content_lower := lower (content r) in
      let score := count_loop query_words content_lower 0 in
      if 0 <? score then
        relevant_loop query_words rest (relevant_resumes ++ [mkRelevant r score])
      else relevant_loop query_words rest relevant_resumes
  end.

(** [score / len(query_words)]: true division of two integers. *)
Definition true_div (a b : nat) : result Q :=
  match b with
  | O => Err ZeroDivisionError
  | S _ => Ok (Qmake (Z.of_nat a) (Pos.of_nat b))
  end.

(** The loop building [sources]. *)
Fixpoint sources_loop (query : str) (query_words : list str)
    (top_resumes : list Relevant) (sources : list Source)
    : result (list Source) :=
  match top_resumes with
  | [] => Ok sources
  | item :: rest =>
      let r := resume item in
      let score := score item in
      let snippets := SnippetExtractor._extract_snippets query (content r) in
      normalized <- true_div score (length query_words) ;;
      sources_loop query query_words rest
        (sources ++ [mkSource (resume_id r) (original_filename r)
                       normalized snippets])
  end.

(** The score the loop gives to one resume. *)
Definition counted (query_words : list str) (r : Resume) : nat :=
  count_loop query_words (lower (content r)) 0.

(** The entry appended to [sources] for one item when the query has [n]
    words, [n > 0]. *)
Definition source_of (query : str) (n : nat) (item : Relevant) : Source :=
  mkSource (resume_id (resume item)) (original_filename (resume item))
    (Qmake (Z.of_nat (score item)) (Pos.of_nat n))
    (SnippetExtractor._extract_snippets query (content (resume item))).

(** The value of [relevant_resumes] before it is sorted, and the value of
    [top_resumes]. *)
Definition relevant_resumes (query : str) (user_id : nat) (db : Db)
    : list Relevant :=
  relevant_loop (PyStr.split (lower query))
    (filter (fun r => owner_id r =? user_id) (resumes_table db)) [].

Definition top_resumes (query : str) (k : Z) (user_id : nat) (db : Db)
    : list Relevant :=
  PyList.slice_to k
    (PyList.sort score Nat.leb true (relevant_resumes query user_id db)).

Section Answer.
(** [_generate_simple_answer]: the text of the answer.  It is computed
    from the query and the top resumes only, and one of its branches
    lists a Python [set], whose order is not fixed; no property below
    depends on the text. *)
Variable _generate_simple_answer : str -> list Relevant -> str.

Definition ask_question (query : str) (k : Z) (user_id : nat) (db : Db)
    : result AskResponse :=
  let resumes := filter (fun r => owner_id r =? user_id) (resumes_table db) in
  match resumes with
  | [] =>
      Ok (mkAskResponse
            (py "No resumes found. Please upload some resumes first.") [])
  | _ =>
      let query_lower := lower query in
      let query_words := PyStr.split query_lower in
      let relevant_resumes := relevant_loop query_words resumes [] in
      let relevant_resumes :=
        PyList.sort score Nat.leb true relevant_resumes in
      let top_resumes := PyList.slice_to k relevant_resumes in
      let answer := _generate_simple_answer query top_resumes in
      sources <- sources_loop query query_words top_resumes [] ;;
      Ok (mkAskResponse answer sources)
  end.
End Answer.

End SimpleRAGService.

(** ** services/resume_service.py *)

Module ResumeService.

(** What [file_service.save_file] and [process_resume_file] produced for
    the uploaded file. *)
Record Processed : Type := mkProcessed {
  p_file_path : str;
  p_basename : str;
  p_content : str;
  p_metadata : Metadata
}.

Record UploadFile : Type := mkUploadFile {
  file_filename : str;
  file_size_ : nat
}.

(** [ResumeResponse.from_orm]: the embeddings are not part of it. *)
Record ResumeResponse : Type := mkResumeResponse {
  rr_id : nat;
  rr_filename : str;
  rr_original_filename : str;
  rr_file_size : nat;
  rr_content : str;
  rr_metadata : option Metadata;
  rr_owner_id : nat
}.

Definition from_orm (r : Resume) : ResumeResponse :=
  mkResumeResponse (resume_id r) (filename r) (original_filename r)
    (file_size r) (content r) (metadata r) (owner_id r).

Definition key_is (k : str) (r : Resume) : bool :=
  match idempotency_key r with
  | Some k' => str_eqb k' k
  | None => false
  end.

Definition get_by_idempotency_key (idempotency_key : str) (db : Db)
    : option ResumeResponse :=
  option_map from_orm (List.find (key_is idempotency_key) (resumes_table db)).

(** The primary key given to a new row. *)
Definition next_id (db : Db) : nat :=
  S (fold_right (fun r m => Nat.max (resume_id r) m) 0 (resumes_table db)).

(** [upload_resume].  [uuid4] is the string [uuid.uuid4()] produces when no
    key is given; [processed] is the outcome of saving and parsing the
    file, which raises for an unsupported file type. *)
Definition upload_resume (file : UploadFile) (owner_id : nat)
    (idempotency_key : option str) (uuid4 : str)
    (processed : result Processed) (db : Db) : result (Db * ResumeResponse) :=
  let idempotency_key :=
    match idempotency_key with
    | Some (c :: k) => c :: k
    | _ => uuid4
    end in
  match get_by_idempotency_key idempotency_key db with
  | Some existing => Ok (db, existing)
  | None =>
      p <- processed ;;
      let embeddings : option (list R) := None in
      let resume :=
        mkResume (next_id db) (p_basename p) (file_filename file)
          (p_file_path p) (file_size_ file) (p_content p) embeddings
          (Some (p_metadata p)) (Some idempotency_key) owner_id in
      Ok (mkDb (resumes_table db ++ [resume]) (jobs_table db),
          from_orm resume)
  end.

(** One call of [upload_resume] with its arguments. *)
Record Upload : Type := mkUpload {
  u_file : UploadFile;
  u_owner : nat;
  u_key : option str;
  u_uuid4 : str;
  u_processed : result Processed
}.

(** The database after a sequence of uploads; an upload that raises
    leaves it as it was. *)
Fixpoint after_uploads (db : Db) (calls : list Upload) : Db :=
  match calls with
  | [] => db
  | u :: rest =>
      match upload_resume (u_file u) (u_owner u) (u_key u) (u_uuid4 u)
              (u_processed u) db with
      | Ok (db', _) => after_uploads db' rest
      | Err _ => after_uploads db rest
      end
  end.

End ResumeService.

(** ** The specification's wording, for comparison with the code *)

Module Spec.

(** "Collapse runs of whitespace to a single space". *)
Fixpoint collapse_from (in_run : bool) (s : str) : str :=
  match s with
  | [] => []
  | c :: s' =>
      if is_space c then
        if in_run then collapse_from true s'
        else " "%char :: collapse_from true s'
      else c :: collapse_from false s'
  end.

Definition collapse_whitespace (s : str) : str := collapse_from false s.

(** "[alnum, whitespace, . , ! ? ; : -]" *)
Definition allowed (c : ascii) : bool :=
  is_alnum c || is_space c || existsb (ascii_eqb c) (py ".,!?;:-").

(** The four steps of the text normaliser, for a given set of characters
    that survive the second step. *)
Definition normalize_with (keep : ascii -> bool) (text : str) : str :=
  let collapsed := collapse_whitespace text in
  let stripped := filter keep collapsed in
  let lowered := lower stripped in
  join (py " ") (filter (fun token => negb (length token <=? 2))
                   (PyStr.split lowered)).

Definition normalize (text : str) : str := normalize_with allowed text.

(** "Any sentence containing at least one query word." *)
Definition relevant_sentence (query : str) (sentence : str) : bool :=
  existsb (fun word => str_in word (lower sentence)) (PyStr.split (lower query)).

(** "Truncated to 200 characters", after stripping. *)
Definition truncate (sentence : str) : str := firstn 200 (strip sentence).

(** The relevant sentences of the content, each stripped and truncated,
    kept when [keep] accepts the length. *)
Definition snippets_with (keep : nat -> bool) (query content : str)
    : list str :=
  filter (fun snippet => keep (length snippet))
    (map truncate
       (filter (relevant_sentence query)
          (Re.split false SnippetExtractor.sentence_end content))).

(** "Kept only if >= 50 characters after truncation". *)
Definition snippets (query content : str) : list str :=
  snippets_with (fun n => 50 <=? n) query content.

End Spec.

(** ** Sample data *)

Module Samples.

Definition alice : User := mkUser 1 false.

Definition resume_with (id owner : nat) (text : string)
    (emb : option (list R)) : Resume :=
  mkResume id (py "cv.txt") (py "cv.txt") (py "uploads/cv.txt") 0 (py text)
    emb None None owner.

Definition python_job : Job :=
  mkJob 1 (py "Engineer") (py "Backend work")
    [py "Python"; py "Kubernetes"] (py "Acme") 1.

(** The sentence-transformer model replaced by a constant encoder. *)
Definition unit_encoder (text : str) : list R := [1%R].

(** Two resumes of user 1 whose stored vectors point in opposite
    directions. *)
Definition db_vectors : Db :=
  mkDb [resume_with 1 1 "Python developer" (Some [(-1)%R]);
        resume_with 2 1 "Python and Kubernetes" (Some [1%R])]
       [python_job].

(** Three resumes of user 1 without embeddings. *)
Definition db_text : Db :=
  mkDb [resume_with 1 1 "Python developer" None;
        resume_with 2 1 "Java and Python" None;
        resume_with 3 1 "Gardener" None]
       [python_job].

(** The ranked matches of [python_job] over [db_vectors]. *)
Definition ranked_vectors : list MatchingService.MatchResult :=
  [MatchingService.mkMatch 2 (py "cv.txt") 1%R
     (MatchingService._extract_evidence python_job
        (resume_with 2 1 "Python and Kubernetes" (Some [1%R])))
     (MatchingService._find_missing_requirements python_job
        (resume_with 2 1 "Python and Kubernetes" (Some [1%R])));
   MatchingService.mkMatch 1 (py "cv.txt") (-1)%R
     (MatchingService._extract_evidence python_job
        (resume_with 1 1 "Python developer" (Some [(-1)%R])))
     (MatchingService._find_missing_requirements python_job
        (resume_with 1 1 "Python developer" (Some [(-1)%R])))].

(** A job with one requirement that is matched by a similar term only. *)
Definition programming_job : Job :=
  mkJob 2 (py "Developer") (py "Tools team")
    [py "Python programming"; py "SQL"] (py "Acme") 1.

Definition programming_resume : Resume :=
  resume_with 4 1 "I enjoy programming and SQL" None.

(** A job whose description asks for years of experience and whose
    requirement says so in other words, and a resume with more years. *)
Definition seniority_job : Job :=
  mkJob 3 (py "Engineer") (py "Need 5 years experience")
    [py "5 years of experience"] (py "Acme") 1.

Definition seniority_resume : Resume :=
  resume_with 5 1 "I have 7 years experience in Java" None.

(** A text of one sentence of exactly 50 characters. *)
Definition sentence_50 : str :=
  py "Our platform teams write python services every day".

(** Four relevant sentences, each longer than 50 characters. *)
Definition four_sentences : str :=
  py ("First, python is used for the data pipelines of the company. "
      ++ "Second, python is used for the web services of the company! "
      ++ "Third, python is used for the test harness of the company? "
      ++ "Fourth, python is used for the build scripts of the company.").

(** An e-mail address directly followed by a telephone number. *)
Definition email_then_phone : str := py "a@b.co1234567890".

Definition contact_line : str :=
  py "Contact me at jane@co.com or 555-123-4567".

Definition no_answer (query : str) (top : list SimpleRAGService.Relevant)
    : str := [].

Definition txt_upload (name : string) (owner : nat) (text : string)
    : ResumeService.Upload :=
  ResumeService.mkUpload
    (ResumeService.mkUploadFile (py name) 120) owner None (py name)
    (Ok (ResumeService.mkProcessed (py "uploads/cv") (py "cv") (py text)
           (mkMetadata [] [] [] []))).

End Samples.

(** ** services/embedding_service.py in binary64 *)

Module Binary64.
Import PrimFloat.
Local Open Scope float_scope.
Local Open Scope bool_scope.

(** [np.dot] of two one-dimensional arrays: the products are added one
    after the other.  (numpy leaves the order of the additions to the
    BLAS; a vector with one component has one product.) *)
Definition dot (a b : list float) : float :=
  fold_left (fun acc xy => acc + fst xy * snd xy) (combine a b) 0.

(** [np.linalg.norm]: the square root of the dot product of the vector
    with itself. *)
Definition norm (a : list float) : float := sqrt (dot a a).

Definition calculate_similarity (embedding1 embedding2 : list float)
    : result float :=
  if (length embedding1 =? length embedding2)%nat then
    let dot_product := dot embedding1 embedding2 in
    let norm1 := norm embedding1 in
    let norm2 := norm embedding2 in
    if (norm1 =? 0) || (norm2 =? 0) then Ok 0
    else
      let similarity := dot_product / (norm1 * norm2) in
      Ok similarity
  else Err (ValueError "shapes not aligned").

Record Document : Type := mkDocument {
  doc_id : nat;
  doc_content : str;
  doc_filename : str;
  doc_embeddings : option (list float)
}.

Record Similar : Type := mkSimilar {
  document : Document;
  similarity : float
}.

Fixpoint similarities_loop (query_embedding : list float)
    (document_embeddings : list Document) (similarities : list Similar)
    : result (list Similar) :=
  match document_embeddings with
  | [] => Ok similarities
  | doc :: rest =>
      match doc_embeddings doc with
      | Some (x :: e) =>
          sim <- calculate_similarity query_embedding (x :: e) ;;
          similarities_loop query_embedding rest
            (similarities ++ [mkSimilar doc sim])
      | _ => similarities_loop query_embedding rest similarities
      end
  end.

(** [list.sort] compares two keys with [<] only: an item stays before a
    later one unless the later one is smaller. *)
Definition not_after (a b : float) : bool := negb (b <? a).

Definition find_similar_documents (query_embedding : list float)
    (document_embeddings : list Document) (top_k : Z)
    : result (list Similar) :=
  similarities <- similarities_loop query_embedding document_embeddings [] ;;
  let similarities := PyList.sort similarity not_after true similarities in
  Ok (PyList.slice_to top_k similarities).

(** A query vector, a stored vector whose square exceeds the largest
    float, and a unit vector. *)
Definition sample_query : list float := [2].

Definition huge_vector : list float := [0x1p1023].

Definition huge_document : Document :=
  mkDocument 1 (py "Python developer") (py "a.txt") (Some huge_vector).

Definition unit_document : Document :=
  mkDocument 2 (py "Python and Kubernetes") (py "b.txt") (Some [1]).

End Binary64.

(** ** Notions used to state further properties *)

(** [s] occurs in [t] as a contiguous piece. *)
Definition occurs_in (s t : str) : Prop :=
  exists before after, t = before ++ s ++ after.

(** The f-string [job_text] of [match_candidates], and the vector the
    job is compared by. *)
Definition job_text (job : Job) : str :=
  title job ++ py " " ++ description job ++ py " "
    ++ join (py " ") (requirements job).

Definition job_embedding (encode : str -> list R) (job : Job) : list R :=
  EmbeddingService.generate_embeddings encode (job_text job).

(** The stored vector is absent, empty, or as long as [query]. *)
Definition dimension_ok (query : list R) (e : option (list R)) : bool :=
  match e with
  | Some (x :: e') => length query =? length (x :: e')
  | _ => true
  end.

(** A token: not empty, and without white space. *)
Definition plain_word (w : str) : Prop :=
  w <> [] /\ Forall (fun c => is_space c = false) w.

(** ** More of [re]: the text of a match *)

Module ReText.
Import Re.

(** A matcher at one position: the value reported for the match and the
    rest of the string after it. *)
Definition reporter : Type := option ascii -> str -> option (str * str).

(** The whole match is reported ([m.group()], or [re.findall] for a
    pattern that is one group). *)
Definition whole (icase : bool) (r : regex) : reporter :=
  fun prev s =>
    match match_at icase r prev s with
    | Some rest => Some (firstn (length s - length rest) s, rest)
    | None => None
    end.

(** The pattern is a group followed by [tail]; the text of the group is
    reported ([re.findall] for a pattern with one group). *)
Definition group1 (icase : bool) (group tail : regex) : reporter :=
  fun prev s =>
    rmatch icase group prev s (fun p1 s1 =>
      rmatch icase tail p1 s1 (fun _ s2 =>
        Some (firstn (length s - length s1) s, s2))).

(** [re.search]: the report of the leftmost match. *)
Fixpoint search_go (m : reporter) (prev : option ascii) (s : str)
    : option (str * str) :=
  match m prev s with
  | Some found => Some found
  | None =>
      match s with
      | [] => None
      | c :: s' => search_go m (Some c) s'
      end
  end.

Definition search (m : reporter) (s : str) : option (str * str) :=
  search_go m None s.

(** [re.findall]: the reports of the non-overlapping matches, from left
    to right.  [skip] counts the characters of the current match still to
    be passed. *)
Fixpoint findall_go (m : reporter) (prev : option ascii) (s : str)
    (skip : nat) : list str :=
  match skip with
  | S j =>
      match s with
      | c :: s' => findall_go m (Some c) s' j
      | [] => []
      end
  | O =>
      match m prev s with
      | Some (value, rest) =>
          value ::
          match s with
          | [] => []
          | c :: s' =>
              match length s - length rest with
              | O => findall_go m (Some c) s' 0
              | S j => findall_go m (Some c) s' j
              end
          end
      | None =>
          match s with
          | [] => []
          | c :: s' => findall_go m (Some c) s' 0
          end
      end
  end.

Definition findall (m : reporter) (s : str) : list str :=
  findall_go m None s 0.

End ReText.

(** ** os.path (POSIX) *)

Module OsPath.

(** [p.rfind(c)] for one character; -1 when it does not occur. *)
Fixpoint rfind_from (c : ascii) (p : str) (i : Z) (last : Z) : Z :=
  match p with
  | [] => last
  | x :: p' => rfind_from c p' (i + 1)%Z (if ascii_eqb x c then i else last)
  end.

Definition rfind (c : ascii) (p : str) : Z := rfind_from c p 0%Z (-1)%Z.

(** The loop of [genericpath._splitext] over [p[filenameIndex:dotIndex]]:
    is there a character other than the dot? *)
Fixpoint some_not_dot (name : str) : bool :=
  match name with
  | [] => false
  | x :: name' => if negb (ascii_eqb x ".") then true else some_not_dot name'
  end.

(** [os.path.splitext(p)] *)
Definition splitext (p : str) : str * str :=
  let sepIndex := rfind "/" p in
  let dotIndex := rfind "." p in
  if (sepIndex <? dotIndex)%Z then
    let filenameIndex := (sepIndex + 1)%Z in
    if some_not_dot (slice (Z.to_nat filenameIndex) (Z.to_nat dotIndex) p)
    then (firstn (Z.to_nat dotIndex) p, skipn (Z.to_nat dotIndex) p)
    else (p, [])
  else (p, []).

Definition endswith_sep (p : str) : bool :=
  match rev p with
  | c :: _ => ascii_eqb c "/"
  | [] => false
  end.

(** [os.path.join(a, b)] *)
Definition join (a b : str) : str :=
  if startswith (py "/") b then b
  else match a with
       | [] => b
       | _ => if endswith_sep a then a ++ b else a ++ py "/" ++ b
       end.

(** [os.path.basename(p)] *)
Definition basename (p : str) : str :=
  skipn (Z.to_nat (rfind "/" p + 1)) p.

End OsPath.

(** ** services/file_processing_service.py *)

Module FileProcessingService.
Import Re.

Definition upload_dir : str := py "uploads".

(** [save_file]: the path the upload is written to.  [token] is
    [os.urandom(8).hex()]; the write itself is not modelled. *)
Definition save_file (file : ResumeService.UploadFile) (token : str) : str :=
  let filename := ResumeService.file_filename file ++ py "_" ++ token in
  OsPath.join upload_dir filename.

(** The digits of [bytes.hex()]. *)
Definition is_hex (c : ascii) : bool :=
  is_digit c || between 97 102 c.

Definition skills_keywords : list str :=
  map py
    ["python"; "javascript"; "java"; "react"; "node.js"; "sql"; "aws";
     "docker"; "kubernetes"; "git"; "html"; "css"; "typescript"; "angular";
     "vue"; "django"; "flask"; "fastapi"; "postgresql"; "mongodb"; "redis";
     "elasticsearch"; "machine learning"; "ai"; "data science"; "analytics";
     "project management"; "agile"; "scrum"; "leadership"; "communication";
     "problem solving"]%string.

(** The loop over [skills_keywords]. *)
Fixpoint skills_loop (keywords : list str) (text : str)
    (found_skills : list str) : list str :=
  match keywords with
  | [] => found_skills
  | skill :: rest =>
      if str_in skill text then skills_loop rest text (found_skills ++ [skill])
      else skills_loop rest text found_skills
  end.

Definition _extract_skills (content : str) : list str :=
  let content_lower := lower content in
  skills_loop skills_keywords content_lower [].

(** [(?i)(experience|work history|employment|career)] *)
Definition experience_pattern : regex :=
  alt [lit "experience"; lit "work history"; lit "employment"; lit "career"].

(** [[a-zA-Z\s&]] *)
Definition company_char (c : ascii) : bool :=
  is_alpha c || is_space c || ascii_eqb c "&".

(** [([A-Z][a-zA-Z\s&]+(?:Inc|Corp|LLC|Ltd|Company|Technologies|Systems))] *)
Definition company_pattern : regex :=
  seq [Cls is_upper; plus (Cls company_char);
       alt [lit "Inc"; lit "Corp"; lit "LLC"; lit "Ltd"; lit "Company";
            lit "Technologies"; lit "Systems"]].

Definition _extract_experience (content : str) : list str :=
  match ReText.search (ReText.whole true experience_pattern) content with
  | Some (_, after) =>
      let experience_text := firstn 1000 after in
      let companies :=
        ReText.findall (ReText.whole false company_pattern) experience_text in
      firstn 5 companies
  | None => []
  end.

(** [(?i)(education|academic|degree|university|college|bachelor|master|phd)] *)
Definition education_pattern : regex :=
  alt [lit "education"; lit "academic"; lit "degree"; lit "university";
       lit "college"; lit "bachelor"; lit "master"; lit "phd"].

(** The group [(bachelor|master|phd|mba|bs|ms|phd)] and what follows it,
    [\s+[a-zA-Z\s]+], of the degree pattern, which carries [(?i)]. *)
Definition degree_group : regex :=
  alt [lit "bachelor"; lit "master"; lit "phd"; lit "mba"; lit "bs";
       lit "ms"; lit "phd"].

Definition degree_tail : regex :=
  seq [plus (Cls is_space); plus (Cls (fun c => is_alpha c || is_space c))].

Definition _extract_education (content : str) : list str :=
  match ReText.search (ReText.whole true education_pattern) content with
  | Some (_, after) =>
      let education_text := firstn 500 after in
      let degrees :=
        ReText.findall (ReText.group1 true degree_group degree_tail)
          education_text in
      firstn 3 degrees
  | None => []
  end.

(** [_extract_contact_info]: the dict in insertion order.  The three
    patterns are those of the redaction service, here without
    [re.IGNORECASE]. *)
Definition _extract_contact_info (content : str) : list (string * str) :=
  let contact_info := [] in
  let contact_info :=
    match ReText.search (ReText.whole false PIIService.email_re) content with
    | Some (email, _) => contact_info ++ [("email"%string, email)]
    | None => contact_info
    end in
  let contact_info :=
    match ReText.search (ReText.whole false PIIService.phone_re) content with
    | Some (phone, _) => contact_info ++ [("phone"%string, phone)]
    | None => contact_info
    end in
  match ReText.search (ReText.whole false PIIService.linkedin_re) content with
  | Some (linkedin, _) => contact_info ++ [("linkedin"%string, linkedin)]
  | None => contact_info
  end.

Definition _extract_metadata (content : str) : Metadata :=
  mkMetadata (_extract_skills content) (_extract_experience content)
    (_extract_education content) (_extract_contact_info content).

(** The metadata dictionaries the service produces: the one of
    [_extract_metadata], and the one [_process_zip] combines. *)
#[warnings="-register-all"]
Inductive metadata_dict : Type :=
| Extracted (m : Metadata)
| Combined (file_count : nat) (files : list metadata_dict).

Section Parsers.
(** The four readers, which open the file. *)
Variables _process_pdf _process_docx _process_txt _process_zip :
  str -> result (str * metadata_dict).

Definition process_resume_file (file_path : str)
    : result (str * metadata_dict) :=
  let file_ext := lower (snd (OsPath.splitext file_path)) in
  if str_eqb file_ext (py ".pdf") then _process_pdf file_path
  else if str_eqb file_ext (py ".docx") then _process_docx file_path
  else if str_eqb file_ext (py ".txt") then _process_txt file_path
  else if str_eqb file_ext (py ".zip") then _process_zip file_path
  else Err (ValueError ("Unsupported file type: "
                          ++ string_of_list_ascii file_ext)).
End Parsers.

End FileProcessingService.

(** ** services/pii_service.py: metadata and the summary *)

Module PIIMetadata.
Import FileProcessingService.

(** [if key in d: d[key] = value]: the entry keeps its place. *)
Fixpoint set_if_present (key : string) (value : str)
    (d : list (string * str)) : list (string * str) :=
  match d with
  | [] => []
  | (k, v) :: d' =>
      if String.eqb k key then (k, value) :: set_if_present key value d'
      else (k, v) :: set_if_present key value d'
  end.

(** The three assignments to [contact_info]. *)
Definition redact_contact_info (contact_info : list (string * str))
    : list (string * str) :=
  let contact_info :=
    set_if_present "email" (py "[EMAIL_REDACTED]") contact_info in
  let contact_info :=
    set_if_present "phone" (py "[PHONE_REDACTED]") contact_info in
  set_if_present "linkedin" (py "[LINKEDIN_REDACTED]") contact_info.

(** [redact_metadata]: only a dictionary with the key [contact_info] is
    changed; the combined dictionary of a ZIP upload has the keys [type],
    [file_count] and [files]. *)
Definition redact_metadata (metadata : metadata_dict) (user : User)
    : metadata_dict :=
  if is_recruiter user then metadata
  else
    match metadata with
    | Extracted m =>
        Extracted
          (mkMetadata (skills m) (experience m) (education m)
             (redact_contact_info (contact_info m)))
    | Combined file_count files => Combined file_count files
    end.

(** [s.title()]: a letter is made uppercase at the start of a run of
    letters and lowercase inside it. *)
Fixpoint title_go (previous_is_cased : bool) (s : str) : str :=
  match s with
  | [] => []
  | c :: s' =>
      if is_alpha c then
        (if previous_is_cased then lower_char c else upper_char c)
          :: title_go true s'
      else c :: title_go false s'
  end.

Definition title (s : str) : str := title_go false s.

(** The loop of [extract_pii_summary]; the dict in insertion order. *)
Fixpoint summary_loop (patterns : list (string * Re.regex)) (text : str)
    (pii_summary : list (string * list str)) : list (string * list str) :=
  match patterns with
  | [] => pii_summary
  | (pii_type, pattern) :: rest =>
      let matches := ReText.findall (ReText.whole true pattern) text in
      match matches with
      | [] => summary_loop rest text pii_summary
      | _ =>
          summary_loop rest text
            (pii_summary
               ++ [(pii_type,
                    map (fun _ => title (py pii_type) ++ py " found")
                      matches)])
      end
  end.

Definition extract_pii_summary (text : str) : list (string * list str) :=
  summary_loop PIIService.pii_patterns text [].

End PIIMetadata.

(** ** services/resume_service.py: reading *)

Module ResumeQueries.
Import ResumeService.

Record ResumeListResponse : Type := mkResumeList {
  items : list ResumeResponse;
  next_offset : option nat;
  total : nat
}.

Section Like.
(** [column.ilike(pattern)] as the database evaluates it. *)
Variable ilike : str -> str -> bool.

(** [get_resumes], for a limit and an offset that are not negative. *)
Definition get_resumes (limit offset : nat) (query : option str)
    (owner : nat) (db : Db) : ResumeListResponse :=
  let db_query := filter (fun r => owner_id r =? owner) (resumes_table db) in
  let db_query :=
    match query with
    | Some (c :: q) =>
        let pattern := py "%" ++ (c :: q) ++ py "%" in
        filter (fun r => ilike pattern (content r)
                         || ilike pattern (original_filename r)) db_query
    | _ => db_query
    end in
  let total := length db_query in
  let resumes := firstn limit (skipn offset db_query) in
  let next_offset :=
    if offset + limit <? total then Some (offset + limit) else None in
  mkResumeList (map from_orm resumes) next_offset total.
End Like.

(** [get_resume].  The rows carry the dictionary of [_extract_metadata],
    which is never empty. *)
Definition get_resume (id owner : nat) (db : Db) (user : option User)
    : option ResumeResponse :=
  match List.find (fun r => (resume_id r =? id) && (owner_id r =? owner))
          (resumes_table db) with
  | Some resume =>
      let resume_response := from_orm resume in
      match user with
      | Some u =>
          Some (mkResumeResponse (rr_id resume_response)
                  (rr_filename resume_response)
                  (rr_original_filename resume_response)
                  (rr_file_size resume_response)
                  (PIIService.redact_pii (rr_content resume_response) u)
                  (match rr_metadata resume_response with
                   | Some m =>
                       match PIIMetadata.redact_metadata
                               (FileProcessingService.Extracted m) u with
                       | FileProcessingService.Extracted m' => Some m'
                       | FileProcessingService.Combined _ _ => Some m
                       end
                   | None => None
                   end)
                  (rr_owner_id resume_response))
      | None => Some resume_response
      end
  | None => None
  end.

End ResumeQueries.

(** ** services/rag_service.py and services/simple_rag_service.py: answers *)

Module AnswerGenerator.
Import Re FileProcessingService.

(** [any(word in query_lower for word in words)] *)
Definition any_in (words : list string) (query_lower : str) : bool :=
  existsb (fun word => str_in (py word) query_lower) words.

(** [_extract_skills_from_text]: the keyword list is that of
    [_extract_skills]. *)
Definition _extract_skills_from_text (text : str) : list str :=
  skills_loop skills_keywords text [].

Definition _extract_experience_from_text (text : str) : list str :=
  let companies := ReText.findall (ReText.whole false company_pattern) text in
  firstn 5 companies.

Definition _extract_education_from_text (text : str) : list str :=
  let degrees :=
    ReText.findall (ReText.group1 true degree_group degree_tail) text in
  firstn 3 degrees.

Definition _extract_contact_from_text (text : str) : list str :=
  let contact_info := [] in
  let contact_info :=
    match ReText.search (ReText.whole false PIIService.email_re) text with
    | Some (email, _) => contact_info ++ [py "Email: " ++ email]
    | None => contact_info
    end in
  match ReText.search (ReText.whole false PIIService.phone_re) text with
  | Some (phone, _) => contact_info ++ [py "Phone: " ++ phone]
  | None => contact_info
  end.

Section Generators.
(** The two services have the same generators; an item is a scored
    resume in one and a scored document in the other. *)
Variable item : Type.
Variable content_of : item -> str.
(** [_extract_snippets], or [_extract_relevant_snippets]. *)
Variable extract_snippets : str -> str -> list str.
(** [list(all_skills)]: the order in which Python lists the set built
    from the given insertions; it changes with the hash seed. *)
Variable list_of_set : list str -> list str.

(** The loops [for item in ...: info = extract(content); if info:
    found.extend(info)]. *)
Fixpoint extend_loop (extract : str -> list str) (items : list item)
    (found : list str) : list str :=
  match items with
  | [] => found
  | i :: rest =>
      match extract (content_of i) with
      | [] => extend_loop extract rest found
      | info => extend_loop extract rest (found ++ info)
      end
  end.

Definition _generate_skills_answer (items : list item) : str :=
  let all_skills :=
    extend_loop (fun content => _extract_skills_from_text (lower content))
      items [] in
  match all_skills with
  | [] => py "I couldn't find specific skills mentioned in the resumes."
  | _ =>
      let skills_list := firstn 10 (list_of_set all_skills) in
      py "Based on the uploaded resumes, I found these skills: "
        ++ join (py ", ") skills_list ++ py "."
  end.

Definition _generate_experience_answer (items : list item) : str :=
  let experiences := extend_loop _extract_experience_from_text items [] in
  match experiences with
  | [] =>
      py "I couldn't find specific work experience details in the resumes."
  | _ =>
      py "Based on the resumes, I found work experience at: "
        ++ join (py ", ") (firstn 5 experiences) ++ py "."
  end.

Definition _generate_education_answer (items : list item) : str :=
  let education_info := extend_loop _extract_education_from_text items [] in
  match education_info with
  | [] => py "I couldn't find specific education details in the resumes."
  | _ =>
      py "Based on the resumes, I found education information: "
        ++ join (py ", ") (firstn 3 education_info) ++ py "."
  end.

Definition _generate_contact_answer (items : list item) : str :=
  let contact_info := extend_loop _extract_contact_from_text items [] in
  match contact_info with
  | [] => py "I couldn't find specific contact information in the resumes."
  | _ =>
      py "Based on the resumes, I found contact information: "
        ++ join (py ", ") (firstn 3 contact_info) ++ py "."
  end.

Definition _generate_general_answer (query : str) (items : list item) : str :=
  match items with
  | [] => py "I couldn't find relevant information to answer your question."
  | most_relevant :: _ =>
      let content := content_of most_relevant in
      let snippets := extract_snippets query content in
      match snippets with
      | [] =>
          py ("I found some relevant resumes but couldn't extract specific "
              ++ "information to answer your question.")
      | _ =>
          py "Based on the most relevant resume, here's what I found: "
            ++ join (py " ") (firstn 2 snippets)
      end
  end.

(** [_generate_answer] and [_generate_simple_answer] *)
Definition _generate_answer (query : str) (items : list item) : str :=
  match items with
  | [] => py "I couldn't find relevant information in the uploaded resumes."
  | _ =>
      let query_lower := lower query in
      if any_in ["skill"; "skills"; "technology"; "technologies"]%string
           query_lower
      then _generate_skills_answer items
      else if any_in ["experience"; "work"; "job"; "career"]%string
                query_lower
      then _generate_experience_answer items
      else if any_in ["education"; "degree"; "university"; "college"]%string
                query_lower
      then _generate_education_answer items
      else if any_in ["contact"; "email"; "phone"; "linkedin"]%string
                query_lower
      then _generate_contact_answer items
      else _generate_general_answer query items
  end.
End Generators.

End AnswerGenerator.

Module SimpleAnswers.
Import SimpleRAGService.

(** [SimpleRAGService._generate_simple_answer] *)
Definition _generate_simple_answer (list_of_set : list str -> list str)
    (query : str) (relevant_resumes : list Relevant) : str :=
  AnswerGenerator._generate_answer (fun item => content (resume item))
    SnippetExtractor._extract_snippets list_of_set query relevant_resumes.

(** [SimpleRAGService.ask_question] with its own generator. *)
Definition ask_question (list_of_set : list str -> list str) (query : str)
    (k : Z) (user_id : nat) (db : Db) : result AskResponse :=
  SimpleRAGService.ask_question (_generate_simple_answer list_of_set)
    query k user_id db.

End SimpleAnswers.

(** ** services/rag_service.py *)

Module RAGService.
Import EmbeddingService.

Record Source : Type := mkSource {
  src_resume_id : nat;
  src_filename : str;
  similarity_score : R;
  snippets : list str
}.

Record AskResponse : Type := mkAskResponse {
  answer : str;
  sources : list Source
}.

(** The loop preparing [documents]: [if resume.embeddings]. *)
Fixpoint documents_loop (resumes : list Resume) (documents : list Document)
    : list Document :=
  match resumes with
  | [] => documents
  | resume :: rest =>
      if truthy (embeddings resume) then
        documents_loop rest
          (documents ++ [mkDocument (resume_id resume) (content resume)
                           (original_filename resume) (embeddings resume)])
      else documents_loop rest documents
  end.

(** The loop building [sources]. *)
Fixpoint sources_loop (query : str) (similar_docs : list Similar)
    (sources : list Source) : list Source :=
  match similar_docs with
  | [] => sources
  | doc_info :: rest =>
      let doc := document doc_info in
      let similarity := similarity doc_info in
      let snippets :=
        SnippetExtractor._extract_relevant_snippets query (doc_content doc) in
      sources_loop query rest
        (sources ++ [mkSource (doc_id doc) (doc_filename doc) similarity
                       snippets])
  end.

Section Service.
Variable encode : str -> list R.
Variable list_of_set : list str -> list str.

Definition _generate_answer (query : str) (similar_docs : list Similar)
    : str :=
  AnswerGenerator._generate_answer
    (fun doc_info => doc_content (document doc_info))
    SnippetExtractor._extract_relevant_snippets list_of_set query
    similar_docs.

Definition ask_question (query : str) (k : Z) (user_id : nat) (db : Db)
    : result AskResponse :=
  let query_embedding := generate_embeddings encode query in
  let resumes := filter (fun r => owner_id r =? user_id) (resumes_table db) in
  match resumes with
  | [] =>
      Ok (mkAskResponse
            (py "No resumes found. Please upload some resumes first.") [])
  | _ =>
      let documents := documents_loop resumes [] in
      similar_docs <- find_similar_documents query_embedding documents k ;;
      let answer := _generate_answer query similar_docs in
      let sources := sources_loop query similar_docs [] in
      Ok (mkAskResponse answer sources)
  end.
End Service.

End RAGService.

Module RAGSamples.

(** The two documents of [Samples.db_vectors] as [ask_question] ranks
    them for a query vector [1.0]. *)
Definition ranked : list EmbeddingService.Similar :=
  [EmbeddingService.mkSimilar
     (EmbeddingService.mkDocument 2 (py "Python and Kubernetes")
        (py "cv.txt") (Some [1%R])) 1%R;
   EmbeddingService.mkSimilar
     (EmbeddingService.mkDocument 1 (py "Python developer")
        (py "cv.txt") (Some [(-1)%R])) (-1)%R].

Definition response : RAGService.AskResponse :=
  RAGService.mkAskResponse
    (RAGService._generate_answer (fun skills => skills) (py "python") ranked)
    (RAGService.sources_loop (py "python") ranked []).

End RAGSamples.

(** The query is answered by [_generate_contact_answer]: it names none
    of the words of the three earlier branches of [_generate_answer] and
    one of the fourth. *)
Definition reaches_contact_answer (query : str) : bool :=
  let query_lower := lower query in
  negb (AnswerGenerator.any_in
          ["skill"; "skills"; "technology"; "technologies"]%string query_lower)
  && negb (AnswerGenerator.any_in
             ["experience"; "work"; "job"; "career"]%string query_lower)
  && negb (AnswerGenerator.any_in
             ["education"; "degree"; "university"; "college"]%string
             query_lower)
  && AnswerGenerator.any_in ["contact"; "email"; "phone"; "linkedin"]%string
       query_lower.

(** ** services/auth_service.py: registration *)

Module AuthService.

(** A row of [users], with the columns [register] writes. *)
Record UserRow : Type := mkUserRow {
  row_id : nat;
  email : str;
  username : str;
  hashed_password : str;
  row_is_recruiter : bool
}.

Record UserCreate : Type := mkUserCreate {
  uc_email : str;
  uc_username : str;
  uc_password : str;
  uc_is_recruiter : bool
}.

Record UserResponse : Type := mkUserResponse {
  ur_id : nat;
  ur_email : str;
  ur_username : str;
  ur_is_recruiter : bool
}.

Definition from_orm (u : UserRow) : UserResponse :=
  mkUserResponse (row_id u) (email u) (username u) (row_is_recruiter u).

(** The primary key given to the next row. *)
Definition next_id (users : list UserRow) : nat :=
  S (fold_right Nat.max 0 (map row_id users)).

(** [register].  [hashed] is the value of [get_password_hash] for this
    call, which draws a salt.  The outcome is the table after the call
    and the response. *)
Definition register (user_create : UserCreate) (hashed : str)
    (users : list UserRow) : result (list UserRow * UserResponse) :=
  let existing_user :=
    List.find (fun u => str_eqb (email u) (uc_email user_create)
                        || str_eqb (username u) (uc_username user_create))
      users in
  match existing_user with
  | Some existing_user =>
      if str_eqb (email existing_user) (uc_email user_create)
      then Err (ValueError "Email already registered")
      else Err (ValueError "Username already taken")
  | None =>
      let hashed_password := hashed in
      let db_user :=
        mkUserRow (next_id users) (uc_email user_create)
          (uc_username user_create) hashed_password
          (uc_is_recruiter user_create) in
      Ok (users ++ [db_user], from_orm db_user)
  end.

(** A sequence of calls of [register]; a call that raises leaves the
    table as it is. *)
Fixpoint after_registrations (users : list UserRow)
    (calls : list (UserCreate * str)) : list UserRow :=
  match calls with
  | [] => users
  | (user_create, hashed) :: rest =>
      match register user_create hashed users with
      | Ok (users', _) => after_registrations users' rest
      | Err _ => after_registrations users rest
      end
  end.

End AuthService.

(** ** middleware.py: the request window *)

Module RateLimitMiddleware.
Local Open Scope Z_scope.

(** The sorted set [rate_limit:<user_id>].  Its members are the strings
    [str(current_time)], each with the score [current_time]; a member is
    written here as the integer it spells.  [ttl_from] is the second in
    which [expire] was last called on the key. *)
Record Key : Type := mkKey {
  members : list Z;
  ttl_from : option Z
}.

Definition no_key : Key := mkKey [] None.

(** [ZREMRANGEBYSCORE key lo hi]: both bounds are inclusive. *)
Definition zremrangebyscore (lo hi : Z) (z : list Z) : list Z :=
  filter (fun score => negb ((lo <=? score) && (score <=? hi))) z.

Definition zcard (z : list Z) : nat := length z.

(** [ZADD key {member: score}]: a member that is present keeps its
    place, and its score is set again to the same value. *)
Definition zadd (member : Z) (z : list Z) : list Z :=
  if existsb (Z.eqb member) z then z else z ++ [member].

(** What the key holds when the call starts.  The key is gone once its
    time-to-live of 60 seconds has run out, which can be the case from
    the 60th whole second after [expire] on; [lapsed] tells whether it
    is. *)
Definition at_start (current_time : Z) (lapsed : bool) (key : Key)
    : list Z :=
  match ttl_from key with
  | Some t0 =>
      if (t0 + 60 <=? current_time) && lapsed then [] else members key
  | None => members key
  end.

(** [_check_rate_limit], with [current_time = int(time.time())]. *)
Definition _check_rate_limit (current_time : Z) (lapsed : bool) (key : Key)
    : bool * Key :=
  let window_start := current_time - 60 in
  let z := zremrangebyscore 0 window_start (at_start current_time lapsed key) in
  let current_requests := zcard z in
  if (60 <=? current_requests)%nat then (false, mkKey z (ttl_from key))
  else (true, mkKey (zadd current_time z) (Some current_time)).

(** The key after a sequence of calls, and the seconds of the calls of
    the sequence that were admitted. *)
Fixpoint after_calls (key : Key) (calls : list (Z * bool)) : Key :=
  match calls with
  | [] => key
  | (current_time, lapsed) :: rest =>
      after_calls (snd (_check_rate_limit current_time lapsed key)) rest
  end.

Fixpoint admitted (key : Key) (calls : list (Z * bool)) : list Z :=
  match calls with
  | [] => []
  | (current_time, lapsed) :: rest =>
      let outcome := _check_rate_limit current_time lapsed key in
      if fst outcome then current_time :: admitted (snd outcome) rest
      else admitted (snd outcome) rest
  end.

End RateLimitMiddleware.

(** ** Order of two items in a list *)

(** [precedes a b l]: some occurrence of [a] comes before some occurrence
    of [b] in [l]. *)
Definition precedes {A : Type} (a b : A) (l : list A) : Prop :=
  exists l1 l2 l3, l = l1 ++ a :: l2 ++ b :: l3.

(** Every item is at least as large as the items after it. *)
Definition descending {A : Type} (ge : A -> A -> Prop) (l : list A) : Prop :=
  forall a b, precedes a b l -> ge a b.

(** The reading of ranking monotonicity by positions. *)
Definition adjacent_ge {A : Type} (ge : A -> A -> Prop) (l : list A) : Prop :=
  forall i a b,
    nth_error l i = Some a -> nth_error l (S i) = Some b -> ge a b.

(** * Properties *)

(** ** Lists *)

Section PrecedesFacts.
Context {A : Type}.
Implicit Types (a b : A) (l : list A).

Lemma precedes_cons a b x l :
  precedes a b (x :: l) <-> (x = a /\ In b l) \/ precedes a b l.
Proof.
  split.
  - intros (l1 & l2 & l3 & E). destruct l1 as [|y l1]; simpl in E.
    + injection E as -> ->. left. split; [reflexivity|].
      apply in_or_app. right. left. reflexivity.
    + injection E as -> ->. right. exists l1, l2, l3. reflexivity.
  - intros [[-> Hin] | (l1 & l2 & l3 & ->)].
    + apply in_split in Hin as (l2 & l3 & ->). exists [], l2, l3. reflexivity.
    + exists (x :: l1), l2, l3. reflexivity.
Qed.

Lemma precedes_nil a b : ~ precedes a b [].
Proof. intros (l1 & l2 & l3 & E). destruct l1; discriminate. Qed.

Lemma precedes_in a b l : precedes a b l -> In a l /\ In b l.
Proof.
  intros (l1 & l2 & l3 & ->). split.
  - apply in_or_app. right. left. reflexivity.
  - apply in_or_app. right. right. apply in_or_app. right. left. reflexivity.
Qed.

Lemma precedes_app a b l l' :
  precedes a b (l ++ l') <->
  precedes a b l \/ precedes a b l' \/ (In a l /\ In b l').
Proof.
  induction l as [|x l IH]; simpl.
  - split.
    + intros H. right. left. exact H.
    + intros [H | [H | [[] _]]]; [destruct (precedes_nil H) | exact H].
  - rewrite !precedes_cons, IH, in_app_iff. clear IH. intuition auto.
Qed.

Lemma precedes_rev a b l : precedes a b (rev l) <-> precedes b a l.
Proof.
  induction l as [|x l IH]; simpl.
  - split; intros H; destruct (precedes_nil H).
  - assert (N : ~ precedes a b [x]).
    { intros H. apply precedes_cons in H as [[_ []] | H].
      destruct (precedes_nil H). }
    rewrite precedes_app, (precedes_cons b a x l), IH, <- in_rev. simpl.
    intuition (subst; auto).
Qed.

Lemma precedes_firstn a b n l : precedes a b (firstn n l) -> precedes a b l.
Proof.
  intros H. rewrite <- (firstn_skipn n l). apply precedes_app. left. exact H.
Qed.

Lemma precedes_filter (p : A -> bool) a b l :
  precedes a b (filter p l) <-> precedes a b l /\ p a = true /\ p b = true.
Proof.
  induction l as [|x l IH]; simpl.
  - split; [intros H; destruct (precedes_nil H) | intros [H _]; exact H].
  - destruct (p x) eqn:Px.
    + rewrite !precedes_cons, IH, filter_In. split.
      * intros [[-> [H1 H2]] | (H & Ha & Hb)]; auto 6.
      * intros ([[-> H] | H] & Ha & Hb); auto 6.
    + rewrite IH, precedes_cons. split.
      * intros (H & Ha & Hb); auto.
      * intros ([[-> H] | H] & Ha & Hb); [congruence | auto].
Qed.

Lemma precedes_map {B : Type} (f : A -> B) a b l :
  precedes a b l -> precedes (f a) (f b) (map f l).
Proof.
  intros (l1 & l2 & l3 & ->).
  exists (map f l1), (map f l2), (map f l3).
  rewrite !map_app. simpl. rewrite map_app. reflexivity.
Qed.

Lemma descending_adjacent (ge : A -> A -> Prop) l :
  descending ge l -> adjacent_ge ge l.
Proof.
  intros H i a b Ha Hb. apply H.
  apply nth_error_split in Ha as (l1 & l2 & -> & Hlen).
  rewrite <- Hlen in Hb.
  replace (S (length l1)) with (length (l1 ++ [a]) + 0) in Hb
    by (rewrite length_app; simpl; lia).
  replace (l1 ++ a :: l2) with ((l1 ++ [a]) ++ l2) in Hb
    by (rewrite <- app_assoc; reflexivity).
  rewrite nth_error_app2 in Hb by lia.
  replace (length (l1 ++ [a]) + 0 - length (l1 ++ [a])) with 0 in Hb by lia.
  destruct l2 as [|y l2]; [discriminate|]. injection Hb as ->.
  exists l1, [], l2. reflexivity.
Qed.
End PrecedesFacts.

Section SortFacts.
Variables (A K : Type).
Variable key : A -> K.
Variable leb : K -> K -> bool.
Hypothesis leb_total : forall x y, leb x y = true \/ leb y x = true.
Hypothesis leb_trans :
  forall x y z, leb x y = true -> leb y z = true -> leb x z = true.

Local Abbreviation le_key := (fun a b : A => leb (key a) (key b) = true).
Local Abbreviation ins := (PyList.insert_after key leb).
Local Abbreviation same := (PyList.same_key key leb).

Lemma in_insert_after z x l : In z (ins x l) <-> z = x \/ In z l.
Proof.
  induction l as [|y l IH]; simpl.
  - intuition auto.
  - destruct (leb (key y) (key x)); simpl; [rewrite IH|]; intuition auto.
Qed.

Lemma insert_after_sorted x l :
  StronglySorted le_key l -> StronglySorted le_key (ins x l).
Proof.
  induction 1 as [|y l Hs IH Hy]; simpl.
  - repeat constructor.
  - destruct (leb (key y) (key x)) eqn:E.
    + constructor; [exact IH|].
      apply Forall_forall. intros z Hz.
      apply in_insert_after in Hz as [-> | Hz]; [exact E|].
      rewrite Forall_forall in Hy. exact (Hy z Hz).
    + assert (Hxy : le_key x y).
      { destruct (leb_total (key x) (key y)) as [H|H]; [exact H|congruence]. }
      constructor; [constructor; assumption|].
      constructor; [exact Hxy|].
      apply Forall_forall. intros z Hz. rewrite Forall_forall in Hy.
      exact (leb_trans Hxy (Hy z Hz)).
Qed.

(** Items that compare equal to [x] and are already placed stay in front
    of [x]. *)
Lemma insert_after_filter v x l :
  StronglySorted le_key l ->
  filter (same v) (ins x l) = filter (same v) l ++ filter (same v) [x].
Proof.
  induction 1 as [|y l Hs IH Hy]; simpl; [destruct (same v x); reflexivity|].
  destruct (leb (key y) (key x)) eqn:E; simpl.
  - rewrite IH. simpl. destruct (same v y); reflexivity.
  - destruct (same v x) eqn:Sx; [|rewrite app_nil_r; reflexivity].
    assert (N : forall z, z = y \/ In z l -> same v z = false).
    { intros z Hz. destruct (same v z) eqn:Sz; [|reflexivity].
      exfalso. unfold PyList.same_key in Sx, Sz.
      apply andb_prop in Sx as [_ Sx]. apply andb_prop in Sz as [Sz _].
      assert (Hyz : leb (key y) (key z) = true).
      { destruct Hz as [-> | Hz].
        - destruct (leb_total (key y) (key y)); assumption.
        - rewrite Forall_forall in Hy. exact (Hy z Hz). }
      pose proof (leb_trans Hyz (leb_trans Sz Sx)). congruence. }
    rewrite (N y (or_introl eq_refl)).
    replace (filter (same v) l) with (@nil A); [reflexivity|].
    symmetry. clear - N. induction l as [|z l IH]; simpl; [reflexivity|].
    rewrite (N z (or_intror (or_introl eq_refl))). apply IH.
    intros w [-> | Hw]; apply N; auto. right. right. exact Hw.
Qed.

Lemma fold_insert_sorted l : forall acc,
  StronglySorted le_key acc ->
  StronglySorted le_key (fold_left (fun acc x => ins x acc) l acc).
Proof.
  induction l as [|x l IH]; intros acc Hacc; simpl; [exact Hacc|].
  apply IH, insert_after_sorted, Hacc.
Qed.

Lemma fold_insert_filter v l : forall acc,
  StronglySorted le_key acc ->
  filter (same v) (fold_left (fun acc x => ins x acc) l acc)
  = filter (same v) acc ++ filter (same v) l.
Proof.
  induction l as [|x l IH]; intros acc Hacc; simpl.
  - rewrite app_nil_r. reflexivity.
  - rewrite IH by (apply insert_after_sorted, Hacc).
    rewrite insert_after_filter by exact Hacc.
    rewrite <- app_assoc. simpl. destruct (same v x); reflexivity.
Qed.

Lemma fold_insert_in z l : forall acc,
  In z (fold_left (fun acc x => ins x acc) l acc) <-> In z acc \/ In z l.
Proof.
  induction l as [|x l IH]; intros acc; simpl.
  - intuition auto.
  - rewrite IH, in_insert_after. intuition auto.
Qed.

Lemma sort_in reverse z l : In z (PyList.sort key leb reverse l) <-> In z l.
Proof.
  unfold PyList.sort, PyList.sort_asc. destruct reverse.
  - rewrite <- in_rev, fold_insert_in, <- in_rev. simpl. intuition auto.
  - rewrite fold_insert_in. simpl. intuition auto.
Qed.

Lemma strongly_sorted_precedes (R : A -> A -> Prop) l :
  StronglySorted R l -> forall a b, precedes a b l -> R a b.
Proof.
  induction 1 as [|y l Hs IH Hy]; intros a b H.
  - destruct (precedes_nil H).
  - apply precedes_cons in H as [[-> H] | H]; [|exact (IH a b H)].
    rewrite Forall_forall in Hy. exact (Hy b H).
Qed.

(** [l.sort(key, reverse=True)] leaves the larger keys in front. *)
Lemma sort_reverse_descending l :
  descending (fun a b => leb (key b) (key a) = true)
    (PyList.sort key leb true l).
Proof.
  intros a b H. unfold PyList.sort in H. apply (proj1 (precedes_rev _ _ _)) in H.
  apply (strongly_sorted_precedes (R := le_key)) with (2 := H).
  apply fold_insert_sorted. constructor.
Qed.

(** [l.sort(key, reverse=True)] is stable. *)
Lemma sort_reverse_stable v l :
  filter (same v) (PyList.sort key leb true l) = filter (same v) l.
Proof.
  simpl. unfold PyList.sort_asc.
  rewrite filter_rev, fold_insert_filter by constructor.
  simpl. rewrite filter_rev, rev_involutive. reflexivity.
Qed.

Lemma sort_reverse_precedes a b l :
  precedes a b (PyList.sort key leb true l) ->
  same (key a) b = true ->
  precedes a b l.
Proof.
  intros H Hab.
  assert (Haa : same (key a) a = true).
  { unfold PyList.same_key.
    destruct (leb_total (key a) (key a)) as [E|E]; rewrite E; reflexivity. }
  assert (Hf : precedes a b (filter (same (key a)) (PyList.sort key leb true l))).
  { apply precedes_filter. auto. }
  rewrite sort_reverse_stable in Hf. apply precedes_filter in Hf. tauto.
Qed.
End SortFacts.

Section SliceFacts.
Context {A : Type}.

Lemma slice_to_firstn (n : Z) (l : list A) :
  exists m, PyList.slice_to n l = firstn m l.
Proof. unfold PyList.slice_to. destruct (0 <=? n)%Z; eauto. Qed.

Lemma slice_to_nil (n : Z) : PyList.slice_to n (@nil A) = [].
Proof.
  destruct (slice_to_firstn n (@nil A)) as [m ->]. destruct m; reflexivity.
Qed.

Lemma slice_to_in (n : Z) (l : list A) x :
  In x (PyList.slice_to n l) -> In x l.
Proof.
  destruct (slice_to_firstn n l) as [m ->]. intros H.
  rewrite <- (firstn_skipn m l). apply in_or_app. left. exact H.
Qed.

Lemma slice_to_precedes (n : Z) (l : list A) a b :
  precedes a b (PyList.slice_to n l) -> precedes a b l.
Proof.
  destruct (slice_to_firstn n l) as [m ->]. apply precedes_firstn.
Qed.

Lemma slice_to_all (n : Z) (l : list A) :
  (Z.of_nat (length l) <= n)%Z -> PyList.slice_to n l = l.
Proof.
  intros H. unfold PyList.slice_to.
  destruct (0 <=? n)%Z eqn:E; [|apply Z.leb_gt in E; lia].
  apply firstn_all2. lia.
Qed.

Lemma slice_to_zero (l : list A) : PyList.slice_to 0 l = [].
Proof. reflexivity. Qed.

Lemma slice_to_negative (n : Z) (l : list A) :
  (n < 0)%Z ->
  PyList.slice_to n l = firstn (length l - Z.to_nat (- n)) l /\
  length (PyList.slice_to n l) = length l - Z.to_nat (- n).
Proof.
  intros H. unfold PyList.slice_to.
  destruct (0 <=? n)%Z eqn:E; [apply Z.leb_le in E; lia|].
  split; [reflexivity|]. rewrite length_firstn. lia.
Qed.
End SliceFacts.

(** ** Orders on the scores *)

Lemma Rleb_le x y : Rleb x y = true <-> (x <= y)%R.
Proof. unfold Rleb. destruct (Rle_dec x y); intuition congruence. Qed.

Lemma Rleb_total x y : Rleb x y = true \/ Rleb y x = true.
Proof. rewrite !Rleb_le. lra. Qed.

Lemma Rleb_trans x y z : Rleb x y = true -> Rleb y z = true -> Rleb x z = true.
Proof. rewrite !Rleb_le. lra. Qed.

Lemma leb_total x y : (x <=? y) = true \/ (y <=? x) = true.
Proof. rewrite !Nat.leb_le. lia. Qed.

Lemma leb_trans x y z : (x <=? y) = true -> (y <=? z) = true -> (x <=? z) = true.
Proof. rewrite !Nat.leb_le. lia. Qed.

Lemma Forall2_in_l {A B : Type} (R : A -> B -> Prop) l l' :
  Forall2 R l l' -> forall a, In a l -> exists a', In a' l' /\ R a a'.
Proof.
  induction 1 as [|x y l l' Hxy Hl IH]; intros a [].
  - subst. exists y. split; [left; reflexivity | exact Hxy].
  - destruct (IH a H) as (a' & Ha' & Ra). exists a'. split; [right|]; assumption.
Qed.

Lemma precedes_Forall2 {A B : Type} (R : A -> B -> Prop) l l' :
  Forall2 R l l' ->
  forall a b, precedes a b l ->
  exists a' b', precedes a' b' l' /\ R a a' /\ R b b'.
Proof.
  induction 1 as [|x y l l' Hxy Hl IH]; intros a b H.
  - destruct (precedes_nil H).
  - apply precedes_cons in H as [[-> H] | H].
    + destruct (Forall2_in_l Hl b H) as (b' & Hb' & Rb).
      exists y, b'. split; [|auto]. apply precedes_cons. auto.
    + destruct (IH a b H) as (a' & b' & P & Ra & Rb).
      exists a', b'. split; [|auto]. apply precedes_cons. auto.
Qed.

Lemma Forall2_map_l {A B : Type} (f : A -> B) (l : list A) :
  Forall2 (fun y x => y = f x) (map f l) l.
Proof. induction l; simpl; constructor; auto. Qed.

(** ** The simple question-answering path *)

Section SimpleRAGFacts.
Import SimpleRAGService.

Lemma count_loop_bounds ws c : forall n,
  n <= count_loop ws c n <= n + length ws.
Proof.
  induction ws as [|w ws IH]; intros n; simpl; [lia|].
  destruct (str_in w c); [specialize (IH (n + 1))|specialize (IH n)]; lia.
Qed.

Lemma relevant_loop_eq ws rs : forall acc,
  relevant_loop ws rs acc
  = acc ++ map (fun r => mkRelevant r (counted ws r))
             (filter (fun r => 0 <? counted ws r) rs).
Proof.
  induction rs as [|r rs IH]; intros acc; simpl.
  - rewrite app_nil_r. reflexivity.
  - fold (counted ws r). destruct (0 <? counted ws r); simpl.
    + rewrite IH, <- app_assoc. reflexivity.
    + apply IH.
Qed.

Lemma relevant_loop_score ws rs x :
  In x (relevant_loop ws rs []) ->
  In (resume x) rs /\ 0 < score x <= length ws.
Proof.
  rewrite relevant_loop_eq. simpl. rewrite in_map_iff.
  intros (r & <- & Hr). apply filter_In in Hr as [Hin Hpos]. simpl.
  split; [exact Hin|]. apply Nat.ltb_lt in Hpos.
  pose proof (count_loop_bounds ws (lower (content r)) 0).
  unfold counted in *. lia.
Qed.

Lemma top_resumes_score query k user db x :
  In x (top_resumes query k user db) ->
  0 < score x <= length (PyStr.split (lower query)).
Proof.
  unfold top_resumes, relevant_resumes. intros H.
  apply slice_to_in, sort_in, relevant_loop_score in H. tauto.
Qed.

Lemma sources_loop_ok query ws top : forall acc,
  (top <> [] -> ws <> []) ->
  sources_loop query ws top acc
  = Ok (acc ++ map (source_of query (length ws)) top).
Proof.
  induction top as [|item top IH]; intros acc Hws; simpl.
  - rewrite app_nil_r. reflexivity.
  - destruct ws as [|w ws]; [exfalso; apply Hws; [discriminate|reflexivity]|].
    simpl. rewrite IH by (intros _; discriminate).
    rewrite <- app_assoc. reflexivity.
Qed.

Variable gen : str -> list Relevant -> str.

(** The response of [ask_question] when the user has resumes. *)
Lemma ask_question_run query k user db :
  filter (fun r => owner_id r =? user) (resumes_table db) <> [] ->
  ask_question gen query k user db
  = Ok (mkAskResponse (gen query (top_resumes query k user db))
          (map (source_of query (length (PyStr.split (lower query))))
             (top_resumes query k user db))).
Proof.
  intros Hne. unfold ask_question.
  destruct (filter _ (resumes_table db)) as [|r rs] eqn:E; [congruence|].
  unfold top_resumes, relevant_resumes. rewrite E.
  rewrite sources_loop_ok; [reflexivity|].
  intros Htop Hws.
  destruct (PyList.slice_to k _) as [|x top] eqn:T; [congruence|].
  assert (Hx : In x (top_resumes query k user db)).
  { unfold top_resumes, relevant_resumes. rewrite E, T. left. reflexivity. }
  apply top_resumes_score in Hx. rewrite Hws in Hx. simpl in Hx. lia.
Qed.

(** [ask_question] raises no exception, whatever the query. *)
Lemma ask_question_total query k user db :
  exists resp,
    ask_question gen query k user db = Ok resp /\
    (sources resp = [] \/
     sources resp = map (source_of query (length (PyStr.split (lower query))))
                      (top_resumes query k user db)).
Proof.
  destruct (filter (fun r => owner_id r =? user) (resumes_table db))
    as [|r rs] eqn:E.
  - eexists. split; [unfold ask_question; rewrite E; reflexivity|].
    left. reflexivity.
  - eexists. split; [apply ask_question_run; congruence|].
    right. reflexivity.
Qed.
End SimpleRAGFacts.

(** ** The embedding-based pipelines *)

Section EmbeddingFacts.
Import EmbeddingService MatchingService.
Variable encode : str -> list R.

Lemma similarities_loop_spec qe docs : forall acc res,
  similarities_loop qe docs acc = Ok res ->
  exists sims,
    res = acc ++ sims /\
    Forall2 (similar_of qe) sims
      (filter (fun d => truthy (doc_embeddings d)) docs).
Proof.
  induction docs as [|d docs IH]; intros acc res H; simpl in H.
  - injection H as <-. exists []. rewrite app_nil_r. split; constructor.
  - destruct (doc_embeddings d) as [[|x e]|] eqn:E; simpl; rewrite E; simpl;
      try (apply IH; exact H).
    destruct (calculate_similarity qe (x :: e)) as [sim|] eqn:C;
      simpl in H; [|discriminate].
    apply IH in H as (sims & -> & F).
    exists (mkSimilar d sim :: sims). rewrite <- app_assoc. split; [reflexivity|].
    constructor; [|exact F]. split; [reflexivity|]. eauto.
Qed.

Lemma matches_loop_spec job je rs : forall acc res,
  matches_loop job je rs acc = Ok res ->
  exists ms,
    res = acc ++ ms /\
    Forall2 (match_of job je) ms
      (filter (fun r => truthy (embeddings r)) rs).
Proof.
  induction rs as [|r rs IH]; intros acc res H; simpl in H.
  - injection H as <-. exists []. rewrite app_nil_r. split; constructor.
  - destruct (embeddings r) as [[|x e]|] eqn:E; simpl; rewrite E; simpl;
      try (apply IH; exact H).
    destruct (calculate_similarity je (x :: e)) as [sim|] eqn:C;
      simpl in H; [|discriminate].
    apply IH in H as (ms & -> & F).
    eexists (_ :: ms). rewrite <- app_assoc. split; [reflexivity|].
    constructor; [|exact F]. unfold match_of. simpl. eauto 8.
Qed.

(** The list [match_candidates] truncates: every scored resume of the
    user, in corpus order before the sort. *)
Lemma match_candidates_run job_id top_n user db res :
  match_candidates encode job_id top_n user db = Ok res ->
  exists job je ms,
    query_job job_id user db = Some job /\
    Forall2 (match_of job je) ms
      (filter (fun r => truthy (embeddings r)) (query_resumes user db)) /\
    forall n, match_candidates encode job_id n user db
              = Ok (PyList.slice_to n (PyList.sort score Rleb true ms)).
Proof.
  unfold match_candidates.
  destruct (query_job job_id user db) as [job|]; [|discriminate].
  destruct (query_resumes user db) as [|r rs] eqn:Q.
  - intros _. exists job, [], []. split; [reflexivity|]. split; [constructor|].
    intros n. simpl. rewrite slice_to_nil. reflexivity.
  - set (je := generate_embeddings encode _).
    destruct (matches_loop job je (r :: rs) []) as [ms|] eqn:L;
      simpl; [|discriminate].
    intros _. apply matches_loop_spec in L as (ms' & E & F).
    simpl in E. subst ms'. exists job, je, ms. auto.
Qed.

Lemma find_similar_documents_run qe docs top_k res :
  find_similar_documents qe docs top_k = Ok res ->
  exists sims,
    Forall2 (similar_of qe) sims
      (filter (fun d => truthy (doc_embeddings d)) docs) /\
    forall n, find_similar_documents qe docs n
              = Ok (PyList.slice_to n (PyList.sort similarity Rleb true sims)).
Proof.
  unfold find_similar_documents.
  destruct (similarities_loop qe docs []) as [sims|] eqn:L;
    simpl; [|discriminate].
  intros _. apply similarities_loop_spec in L as (sims' & E & F).
  simpl in E. subst sims'. exists sims. auto.
Qed.

Lemma same_score_key {X : Type} (f : X -> R) (a b : X) :
  f a = f b -> PyList.same_key f Rleb (f a) b = true.
Proof.
  intros E. unfold PyList.same_key. rewrite <- E.
  assert (H : Rleb (f a) (f a) = true) by (apply Rleb_le; lra).
  rewrite H. reflexivity.
Qed.

Lemma ranked_by_Rleb {X : Type} (f : X -> R) (n : Z) (l : list X) :
  descending (fun a b => (f b <= f a)%R)
    (PyList.slice_to n (PyList.sort f Rleb true l)).
Proof.
  intros a b H. apply slice_to_precedes in H.
  apply Rleb_le. revert a b H.
  apply (sort_reverse_descending f Rleb Rleb_total Rleb_trans).
Qed.

Lemma stable_by_Rleb {X : Type} (f : X -> R) (n : Z) (l : list X) a b :
  precedes a b (PyList.slice_to n (PyList.sort f Rleb true l)) ->
  f a = f b -> precedes a b l.
Proof.
  intros H E. apply slice_to_precedes in H.
  apply (sort_reverse_precedes f Rleb Rleb_total Rleb_trans) in H;
    [exact H | apply same_score_key, E].
Qed.
End EmbeddingFacts.

(** ** C10: the normalised score of the simple question-answering path *)

Lemma source_score_range query n item :
  0 < SimpleRAGService.score item <= n ->
  (0 < SimpleRAGService.similarity_score
         (SimpleRAGService.source_of query n item))%Q /\
  (SimpleRAGService.similarity_score
     (SimpleRAGService.source_of query n item) <= 1)%Q.
Proof.
  intros [Hpos Hle]. unfold SimpleRAGService.source_of. simpl.
  unfold Qlt, Qle. simpl.
  assert (E : Z.pos (Pos.of_nat n) = Z.of_nat n).
  { rewrite <- (Nat2Pos.id n) at 2 by lia. apply eq_sym, positive_nat_Z. }
  rewrite E. lia.
Qed.

(** C10. In the simple question-answering path the division
    [score / len(query_words)] never divides by zero: for every query
    (empty and blank ones included), every bound [k] and every corpus,
    [ask_question] returns a response; its sources are non-empty only when
    the query has at least one word, and each reported [similarity_score]
    lies in (0, 1]. *)
Theorem ask_question_similarity_score_range :
  forall (gen : str -> list SimpleRAGService.Relevant -> str)
         (query : str) (k : Z) (user : nat) (db : Db),
  exists resp,
    SimpleRAGService.ask_question gen query k user db = Ok resp /\
    (SimpleRAGService.sources resp <> [] -> PyStr.split (lower query) <> []) /\
    forall s, In s (SimpleRAGService.sources resp) ->
      (0 < SimpleRAGService.similarity_score s)%Q /\
      (SimpleRAGService.similarity_score s <= 1)%Q.
Proof.
  intros gen query k user db.
  destruct (ask_question_total gen query k user db) as (resp & Hrun & Hsrc).
  exists resp. split; [exact Hrun|].
  destruct Hsrc as [-> | ->].
  - split; [congruence | intros s []].
  - split.
    + intros Hne Hws.
      destruct (SimpleRAGService.top_resumes query k user db) as [|x top] eqn:T;
        [apply Hne; reflexivity|].
      assert (Hx : In x (SimpleRAGService.top_resumes query k user db))
        by (rewrite T; left; reflexivity).
      apply top_resumes_score in Hx. rewrite Hws in Hx. simpl in Hx. lia.
    + intros s Hs. apply in_map_iff in Hs as (item & <- & Hitem).
      apply source_score_range, (top_resumes_score _ _ _ _ _ Hitem).
Qed.

(** ** C1: the range of the similarity score *)

Arguments PyList.sort : simpl never.

Lemma norm_unit (x : R) : (x * x = 1)%R -> EmbeddingService.norm [x] = 1%R.
Proof.
  intros H. unfold EmbeddingService.norm. simpl.
  replace (x * x + 0)%R with 1%R by lra. apply sqrt_1.
Qed.

Lemma Reqb_1_0 : Reqb 1 0 = false.
Proof. unfold Reqb. destruct (Req_dec_T 1 0); [lra | reflexivity]. Qed.

Lemma calculate_similarity_units (x y : R) :
  (x * x = 1)%R -> (y * y = 1)%R ->
  EmbeddingService.calculate_similarity [x] [y] = Ok (x * y)%R.
Proof.
  intros Hx Hy. unfold EmbeddingService.calculate_similarity. simpl length.
  rewrite Nat.eqb_refl, (norm_unit Hx), (norm_unit Hy), Reqb_1_0. simpl.
  f_equal. lra.
Qed.

Lemma sort_pair_swapped {X : Type} (f : X -> R) (a b : X) :
  (f a < f b)%R -> PyList.sort f Rleb true [a; b] = [b; a].
Proof.
  intros H. unfold PyList.sort, PyList.sort_asc. simpl.
  assert (E : Rleb (f b) (f a) = false).
  { destruct (Rleb (f b) (f a)) eqn:E; [apply Rleb_le in E; lra | reflexivity]. }
  rewrite E. reflexivity.
Qed.

Section CosineFacts.
Import EmbeddingService.
Local Open Scope R_scope.

Lemma sq_nonneg (x : R) : 0 <= x * x.
Proof. exact (Rle_0_sqr x). Qed.

Lemma dot_self_nonneg a : 0 <= dot a a.
Proof.
  induction a as [|x a IH]; simpl; [lra|]. pose proof (sq_nonneg x). lra.
Qed.

(** The sum of the squares of [a_i * t + b_i], expanded. *)
Lemma quadratic_nonneg a : forall b t,
  0 <= dot a a * (t * t) + 2 * dot a b * t + dot b b.
Proof.
  induction a as [|x a IH]; intros [|y b] t; simpl.
  - lra.
  - pose proof (dot_self_nonneg b). pose proof (sq_nonneg y). lra.
  - pose proof (dot_self_nonneg a). pose proof (sq_nonneg x).
    pose proof (sq_nonneg t).
    assert (0 <= (x * x + dot a a) * (t * t)) by (apply Rmult_le_pos; lra).
    lra.
  - specialize (IH b t). pose proof (sq_nonneg (x * t + y)). lra.
Qed.

Lemma cauchy_schwarz a b : dot a b * dot a b <= dot a a * dot b b.
Proof.
  pose proof (quadratic_nonneg a b) as H.
  pose proof (dot_self_nonneg a) as HA.
  pose proof (dot_self_nonneg b) as HB.
  set (A := dot a a) in *. set (B := dot b b) in *. set (D := dot a b) in *.
  destruct (Req_dec A 0) as [E | NE].
  - rewrite E in *. destruct (Req_dec D 0) as [-> | ND]; [lra|].
    specialize (H (- (B + 1) / (2 * D))).
    replace (0 * _ + 2 * D * (- (B + 1) / (2 * D)) + B) with (-1) in H
      by (field; exact ND).
    lra.
  - specialize (H (- D / A)).
    replace (A * (- D / A * (- D / A)) + 2 * D * (- D / A) + B)
      with (B - D * D / A) in H by (field; exact NE).
    assert (0 < A) by lra.
    assert (D * D / A <= B) by lra.
    apply (Rmult_le_compat_r A) in H1; [|lra].
    replace (D * D / A * A) with (D * D) in H1 by (field; exact NE). lra.
Qed.

(** What the scorer does guarantee: a returned value is a cosine, between
    -1 and 1. *)
Lemma calculate_similarity_range e1 e2 v :
  calculate_similarity e1 e2 = Ok v -> -1 <= v <= 1.
Proof.
  unfold calculate_similarity.
  destruct (Nat.eqb _ _); [|discriminate].
  unfold Reqb.
  destruct (Req_dec_T (norm e1) 0) as [|N1]; simpl;
    [intros H; injection H as <-; lra|].
  destruct (Req_dec_T (norm e2) 0) as [|N2]; simpl;
    intros H; injection H as <-; [lra|].
  pose proof (cauchy_schwarz e1 e2) as CS.
  pose proof (dot_self_nonneg e1) as HA.
  pose proof (dot_self_nonneg e2) as HB.
  unfold norm in *.
  pose proof (sqrt_sqrt _ HA) as S1. pose proof (sqrt_sqrt _ HB) as S2.
  pose proof (sqrt_pos (dot e1 e1)) as P1.
  pose proof (sqrt_pos (dot e2 e2)) as P2.
  set (n1 := sqrt (dot e1 e1)) in *. set (n2 := sqrt (dot e2 e2)) in *.
  set (D := dot e1 e2) in *.
  assert (M : 0 < n1 * n2) by nra.
  assert (E : D / (n1 * n2) * (n1 * n2) = D) by (field; lra).
  assert (Q : D * D <= (n1 * n2) * (n1 * n2)) by nra.
  set (m := n1 * n2) in *. set (v := D / m) in *.
  clearbody v m D. rewrite <- E in Q. clear - M Q.
  split.
  - destruct (Rle_dec (-1) v) as [|N]; [assumption|exfalso].
    assert (m < - v * m) by nra.
    assert (m * m < (- v * m) * (- v * m)) by nra. lra.
  - destruct (Rle_dec v 1) as [|N]; [assumption|exfalso].
    assert (m < v * m) by nra.
    assert (m * m < (v * m) * (v * m)) by nra. lra.
Qed.
End CosineFacts.

Lemma calculate_similarity_opposed :
  EmbeddingService.calculate_similarity [1%R] [(-1)%R] = Ok (-1)%R.
Proof. rewrite calculate_similarity_units by lra. f_equal. lra. Qed.

Lemma calculate_similarity_aligned :
  EmbeddingService.calculate_similarity [1%R] [1%R] = Ok 1%R.
Proof. rewrite calculate_similarity_units by lra. f_equal. lra. Qed.

(** The ranking of the two sample resumes, for every bound that keeps
    both. *)
Lemma sample_ranking (top_n : Z) :
  (2 <= top_n)%Z ->
  MatchingService.match_candidates Samples.unit_encoder 1 top_n 1
    Samples.db_vectors = Ok Samples.ranked_vectors.
Proof.
  intros H. unfold MatchingService.match_candidates. simpl.
  unfold EmbeddingService.generate_embeddings, Samples.unit_encoder.
  rewrite calculate_similarity_opposed. simpl.
  rewrite calculate_similarity_aligned. simpl.
  rewrite sort_pair_swapped by (simpl; lra).
  rewrite slice_to_all by (simpl; lia). reflexivity.
Qed.

(** C1 at the failing input.  For the one-dimensional vectors [1.0] and
    [-1.0] the scorer returns -1, below the range [0, 1] that the
    specification and the comment on [Match.score] announce; the score
    reaches the ranked list of [match_candidates] unchanged. *)
Theorem calculate_similarity_negative :
  EmbeddingService.calculate_similarity [1%R] [(-1)%R] = Ok (-1)%R /\
  exists first m,
    MatchingService.match_candidates Samples.unit_encoder 1 10 1
      Samples.db_vectors = Ok [first; m] /\
    MatchingService.m_resume_id m = 1 /\
    MatchingService.score m = (-1)%R /\
    (MatchingService.score m < 0)%R.
Proof.
  split; [exact calculate_similarity_opposed|].
  eexists _, _. split; [apply sample_ranking; lia|].
  simpl. repeat split; lra.
Qed.

(** ** C2: uploaded resumes carry no embeddings *)

Section UploadFacts.
Import ResumeService MatchingService.

Lemma upload_resume_stores_none file owner key uuid4 processed db db' resp :
  upload_resume file owner key uuid4 processed db = Ok (db', resp) ->
  db' = db \/
  exists r, db' = mkDb (resumes_table db ++ [r]) (jobs_table db) /\
            embeddings r = None /\ owner_id r = owner /\
            resp = from_orm r.
Proof.
  unfold upload_resume.
  destruct (get_by_idempotency_key _ db) as [existing|].
  - intros H. injection H as <- <-. left. reflexivity.
  - destruct processed as [p|e]; simpl; [|discriminate].
    intros H. injection H as <- <-. right. eexists. repeat split.
Qed.

Lemma after_uploads_none calls : forall db,
  Forall (fun r => embeddings r = None) (resumes_table db) ->
  Forall (fun r => embeddings r = None)
    (resumes_table (after_uploads db calls)) /\
  jobs_table (after_uploads db calls) = jobs_table db.
Proof.
  induction calls as [|u calls IH]; intros db Hdb; simpl; [auto|].
  destruct (upload_resume _ _ _ _ _ db) as [[db' resp]|e] eqn:U; [|auto].
  apply upload_resume_stores_none in U as [-> | (r & -> & Hr & _)]; [auto|].
  destruct (IH (mkDb (resumes_table db ++ [r]) (jobs_table db))) as [H1 H2].
  - simpl. apply Forall_app. split; [exact Hdb|]. constructor; auto.
  - split; [exact H1 | exact H2].
Qed.

Lemma matches_loop_none job je rs : forall acc,
  Forall (fun r => embeddings r = None) rs ->
  matches_loop job je rs acc = Ok acc.
Proof.
  induction rs as [|r rs IH]; intros acc H; simpl; [reflexivity|].
  inversion H as [|? ? Hr Hrs]; subst. rewrite Hr. apply IH, Hrs.
Qed.
End UploadFacts.

(** C2. [upload_resume] stores every record it creates with
    [embeddings = None]; [match_candidates] scores only resumes whose
    embeddings are non-empty; hence, for a user whose resumes all come
    from [upload_resume] and for each of the user's jobs,
    [match_candidates] returns an empty list of matches. *)
Theorem uploaded_resumes_never_match :
  (forall file owner key uuid4 processed db db' resp,
     ResumeService.upload_resume file owner key uuid4 processed db
       = Ok (db', resp) ->
     db' = db \/
     exists r, resumes_table db' = resumes_table db ++ [r] /\
               embeddings r = None) /\
  (forall encode job_id top_n user db job,
     (forall r, In r (resumes_table db) -> owner_id r = user ->
                embeddings r = None) ->
     MatchingService.query_job job_id user db = Some job ->
     MatchingService.match_candidates encode job_id top_n user db = Ok []) /\
  (forall jobs calls r,
     In r (resumes_table (ResumeService.after_uploads (mkDb [] jobs) calls)) ->
     embeddings r = None).
Proof.
  split; [|split].
  - intros file owner key uuid4 processed db db' resp U.
    apply upload_resume_stores_none in U as [-> | (r & -> & Hr & _)];
      [left; reflexivity | right; exists r; auto].
  - intros encode job_id top_n user db job Hnone Hjob.
    unfold MatchingService.match_candidates. rewrite Hjob.
    destruct (MatchingService.query_resumes user db) as [|r rs] eqn:Q;
      [reflexivity|].
    rewrite matches_loop_none; [simpl; f_equal; apply slice_to_nil|].
    rewrite <- Q. apply Forall_forall. intros x Hx.
    apply filter_In in Hx as [Hin Hown]. apply Nat.eqb_eq in Hown. auto.
  - intros jobs calls r Hr.
    destruct (after_uploads_none calls (mkDb [] jobs)) as [H _];
      [constructor|].
    rewrite Forall_forall in H. exact (H r Hr).
Qed.

Lemma uploaded_resumes_never_match_witness :
  MatchingService.match_candidates Samples.unit_encoder 1 10 1
    (ResumeService.after_uploads (mkDb [] [Samples.python_job])
       [Samples.txt_upload "a.txt" 1 "Python developer";
        Samples.txt_upload "b.txt" 1 "Kubernetes and Python"])
  = Ok [].
Proof.
  apply (proj1 (proj2 uploaded_resumes_never_match))
    with (job := Samples.python_job).
  - intros r Hr _.
    exact (proj2 (proj2 uploaded_resumes_never_match) _ _ r Hr).
  - reflexivity.
Defined.

(** ** C3 and C5: ranking and truncation *)

Section RankingFacts.
Import SimpleRAGService.

Lemma same_nat_key (a b : Relevant) :
  score a = score b -> PyList.same_key score Nat.leb (score a) b = true.
Proof.
  intros E. unfold PyList.same_key. rewrite <- E, Nat.leb_refl. reflexivity.
Qed.

Lemma top_resumes_descending query k user db :
  descending (fun a b => score b <= score a) (top_resumes query k user db).
Proof.
  intros a b H. apply slice_to_precedes in H. apply Nat.leb_le.
  revert a b H. apply (sort_reverse_descending score Nat.leb leb_total leb_trans).
Qed.

Lemma relevant_resumes_order query user db x y :
  precedes x y (relevant_resumes query user db) ->
  precedes (resume x) (resume y) (resumes_table db).
Proof.
  unfold relevant_resumes. rewrite relevant_loop_eq. simpl. intros H.
  destruct (precedes_Forall2 (Forall2_map_l _ _) H) as (r & r' & P & -> & ->).
  simpl. apply precedes_filter in P as [P _].
  apply precedes_filter in P as [P _]. exact P.
Qed.

Lemma top_resumes_stable query k user db x y :
  precedes x y (top_resumes query k user db) ->
  score x = score y ->
  precedes (resume x) (resume y) (resumes_table db).
Proof.
  intros H E. apply slice_to_precedes in H.
  apply (sort_reverse_precedes score Nat.leb leb_total leb_trans) in H;
    [|apply same_nat_key, E].
  apply relevant_resumes_order in H. exact H.
Qed.

Lemma source_of_le query n x y :
  0 < n ->
  (similarity_score (source_of query n y)
     <= similarity_score (source_of query n x))%Q <-> score y <= score x.
Proof.
  intros Hn. unfold source_of, Qle. simpl.
  assert (0 < Z.pos (Pos.of_nat n))%Z by lia. split; intros; nia.
Qed.

Lemma source_of_eq query n x y :
  (similarity_score (source_of query n x)
     == similarity_score (source_of query n y))%Q -> score x = score y.
Proof.
  unfold source_of, Qeq. simpl. intros H.
  assert (0 < Z.pos (Pos.of_nat n))%Z by lia. nia.
Qed.
End RankingFacts.

(** Ranking over scores that are numbers.  In the model over [R] the
    ranked list is in non-increasing order of score at every pair of
    adjacent positions, and two results with equal scores keep the order
    their documents have in the corpus: for the matches of
    [match_candidates], for the list of [find_similar_documents] and for
    the sources of [ask_question]. *)
Theorem ranked_lists_sorted_and_stable :
  (forall encode job_id top_n user db res,
     MatchingService.match_candidates encode job_id top_n user db = Ok res ->
     adjacent_ge (fun a b => (MatchingService.score b
                              <= MatchingService.score a)%R) res /\
     forall a b, precedes a b res ->
       MatchingService.score a = MatchingService.score b ->
       exists ra rb, precedes ra rb (resumes_table db) /\
         resume_id ra = MatchingService.m_resume_id a /\
         resume_id rb = MatchingService.m_resume_id b) /\
  (forall query_embedding docs top_k res,
     EmbeddingService.find_similar_documents query_embedding docs top_k
       = Ok res ->
     adjacent_ge (fun a b => (EmbeddingService.similarity b
                              <= EmbeddingService.similarity a)%R) res /\
     forall a b, precedes a b res ->
       EmbeddingService.similarity a = EmbeddingService.similarity b ->
       precedes (EmbeddingService.document a) (EmbeddingService.document b)
         docs) /\
  (forall gen query k user db,
     exists resp,
       SimpleRAGService.ask_question gen query k user db = Ok resp /\
       adjacent_ge (fun a b => (SimpleRAGService.similarity_score b
                                <= SimpleRAGService.similarity_score a)%Q)
         (SimpleRAGService.sources resp) /\
       forall a b, precedes a b (SimpleRAGService.sources resp) ->
         (SimpleRAGService.similarity_score a
            == SimpleRAGService.similarity_score b)%Q ->
         exists ra rb, precedes ra rb (resumes_table db) /\
           resume_id ra = SimpleRAGService.src_resume_id a /\
           resume_id rb = SimpleRAGService.src_resume_id b).
Proof.
  split; [|split].
  - intros encode job_id top_n user db res H.
    destruct (match_candidates_run _ _ _ _ _ H) as (job & je & ms & _ & F & Hn).
    rewrite Hn in H. injection H as <-. split.
    + apply descending_adjacent, ranked_by_Rleb.
    + intros a b P E. apply stable_by_Rleb in P; [|exact E].
      destruct (precedes_Forall2 F P) as (ra & rb & Pr & Ma & Mb).
      exists ra, rb. apply precedes_filter in Pr as [Pr _].
      apply precedes_filter in Pr as [Pr _].
      destruct Ma as [Ma _], Mb as [Mb _]. auto.
  - intros qe docs top_k res H.
    destruct (find_similar_documents_run _ _ _ H) as (sims & F & Hn).
    rewrite Hn in H. injection H as <-. split.
    + apply descending_adjacent, ranked_by_Rleb.
    + intros a b P E. apply stable_by_Rleb in P; [|exact E].
      destruct (precedes_Forall2 F P) as (da & db' & Pr & [<- _] & [<- _]).
      apply precedes_filter in Pr as [Pr _]. exact Pr.
  - intros gen query k user db.
    destruct (ask_question_total gen query k user db) as (resp & Hrun & Hsrc).
    exists resp. split; [exact Hrun|].
    destruct Hsrc as [-> | ->].
    + split; [intros [|i] a b Ha; discriminate|].
      intros a b P. destruct (precedes_nil P).
    + set (n := length (PyStr.split (lower query))).
      assert (Hinv : forall a b,
                 precedes a b (map (SimpleRAGService.source_of query n)
                                 (SimpleRAGService.top_resumes query k user db)) ->
                 exists x y,
                   precedes x y (SimpleRAGService.top_resumes query k user db) /\
                   a = SimpleRAGService.source_of query n x /\
                   b = SimpleRAGService.source_of query n y /\ 0 < n).
      { intros a b P.
        destruct (precedes_Forall2 (Forall2_map_l _ _) P)
          as (x & y & Pxy & -> & ->).
        exists x, y. repeat split; try assumption.
        apply precedes_in in Pxy as [Hx _].
        apply top_resumes_score in Hx. subst n. lia. }
      split.
      * apply descending_adjacent. intros a b P.
        destruct (Hinv a b P) as (x & y & Pxy & -> & -> & Hn).
        apply source_of_le; [exact Hn|].
        exact (top_resumes_descending query k user db Pxy).
      * intros a b P E.
        destruct (Hinv a b P) as (x & y & Pxy & -> & -> & Hn).
        apply source_of_eq in E.
        exists (SimpleRAGService.resume x), (SimpleRAGService.resume y).
        split; [eapply top_resumes_stable; eassumption|]. split; reflexivity.
Qed.

Lemma ranked_lists_sorted_and_stable_witness :
  adjacent_ge (fun a b => (MatchingService.score b
                           <= MatchingService.score a)%R)
    Samples.ranked_vectors.
Proof.
  apply (proj1 (proj1 ranked_lists_sorted_and_stable
                  Samples.unit_encoder 1 10%Z 1 Samples.db_vectors
                  Samples.ranked_vectors
                  (@sample_ranking 10%Z ltac:(lia)))).
Defined.

(** C3 on the code.  In binary64 the scorer overflows on a stored vector
    with a component of 2^1023: the dot product and the norm are
    infinite and the quotient is NaN.  [list.sort] compares two keys by
    "less than", and no comparison with NaN holds, so the document
    scored NaN stays in front of the document scored 1.0: the first
    score is not at least the second, and the list of
    [find_similar_documents] is not in non-increasing order.
    [match_candidates] uses the same scorer and the same sort. *)
Theorem ranking_unsorted_after_overflow :
  Binary64.calculate_similarity Binary64.sample_query Binary64.huge_vector
  = Ok PrimFloat.nan /\
  Binary64.find_similar_documents Binary64.sample_query
    [Binary64.huge_document; Binary64.unit_document] 5
  = Ok [Binary64.mkSimilar Binary64.huge_document PrimFloat.nan;
        Binary64.mkSimilar Binary64.unit_document PrimFloat.one] /\
  PrimFloat.leb PrimFloat.one PrimFloat.nan = false.
Proof. vm_compute. repeat split. Qed.

(** C5 as stated fails: with [k = 0] the sources are empty, and with
    [k = -1] there is one source, although two resumes were scored. *)
Lemma topk_zero_counterexample :
  ~ (forall gen query k user db resp,
       (k <= 0)%Z ->
       SimpleRAGService.ask_question gen query k user db = Ok resp ->
       length (SimpleRAGService.sources resp)
       = length (SimpleRAGService.relevant_resumes query user db)) /\
  length (SimpleRAGService.relevant_resumes (py "python") 1 Samples.db_text)
  = 2 /\
  SimpleRAGService.ask_question Samples.no_answer (py "python") 0 1
    Samples.db_text
  = Ok (SimpleRAGService.mkAskResponse [] []) /\
  SimpleRAGService.ask_question Samples.no_answer (py "python") (-1) 1
    Samples.db_text
  = Ok (SimpleRAGService.mkAskResponse []
          [SimpleRAGService.mkSource 1 (py "cv.txt") (Qmake 1 1) []]).
Proof.
  split; [|vm_compute; repeat split].
  intros H.
  specialize (H Samples.no_answer (py "python") 0%Z 1 Samples.db_text
                (SimpleRAGService.mkAskResponse [] [])
                ltac:(lia) eq_refl).
  vm_compute in H. discriminate.
Qed.

Section PermutationFacts.
Variables (A K : Type).
Variable key : A -> K.
Variable leb : K -> K -> bool.

Lemma insert_after_permutation x l :
  Permutation (PyList.insert_after key leb x l) (x :: l).
Proof.
  induction l as [|y l IH]; simpl; [reflexivity|].
  destruct (leb (key y) (key x)); [|reflexivity].
  rewrite IH. apply perm_swap.
Qed.

Lemma sort_asc_fold_permutation l : forall acc,
  Permutation
    (fold_left (fun acc x => PyList.insert_after key leb x acc) l acc)
    (acc ++ l).
Proof.
  induction l as [|x l IH]; intros acc; simpl.
  - rewrite app_nil_r. reflexivity.
  - rewrite IH, insert_after_permutation.
    apply Permutation_middle.
Qed.

(** Whatever the comparison, the sort keeps every item, once. *)
Lemma sort_permutation reverse l :
  Permutation (PyList.sort key leb reverse l) l.
Proof.
  unfold PyList.sort, PyList.sort_asc. destruct reverse.
  - rewrite <- Permutation_rev, sort_asc_fold_permutation. simpl.
    symmetry. apply Permutation_rev.
  - apply sort_asc_fold_permutation.
Qed.
End PermutationFacts.

(** C5, amended.  Truncation to the top K never signals an error: the
    slice is defined for every integer.  For every K the result is the
    first items of one ranked list, the same for every K, which holds
    each scored document once.  Hence a bound at least as large as the
    number of scored documents returns all of them, in the order of
    that list; the bound 0 returns the empty list; a negative bound
    returns the list without its last |K| items.  [ask_question]
    returns a response for every K; [match_candidates] and
    [find_similar_documents] return one for every K as soon as they
    return one for some K. *)
Theorem truncation_policy :
  (forall (A : Type) (ranked : list A) (n : Z),
     ((Z.of_nat (length ranked) <= n)%Z -> PyList.slice_to n ranked = ranked) /\
     PyList.slice_to 0 ranked = [] /\
     ((n < 0)%Z ->
      PyList.slice_to n ranked
      = firstn (length ranked - Z.to_nat (- n)) ranked)) /\
  (forall gen query user db,
     exists ranked,
       Permutation ranked (SimpleRAGService.relevant_resumes query user db) /\
       ranked
       = PyList.sort SimpleRAGService.score Nat.leb true
           (SimpleRAGService.relevant_resumes query user db) /\
       forall k,
       exists resp,
         SimpleRAGService.ask_question gen query k user db = Ok resp /\
         map SimpleRAGService.src_resume_id (SimpleRAGService.sources resp)
         = map (fun x => resume_id (SimpleRAGService.resume x))
             (PyList.slice_to k ranked) /\
         ((Z.of_nat
             (length (SimpleRAGService.relevant_resumes query user db))
           <= k)%Z ->
          Permutation
            (map SimpleRAGService.src_resume_id
               (SimpleRAGService.sources resp))
            (map (fun x => resume_id (SimpleRAGService.resume x))
               (SimpleRAGService.relevant_resumes query user db)))) /\
  (forall encode job_id top_n user db res,
     MatchingService.match_candidates encode job_id top_n user db = Ok res ->
     exists job je scored ranked,
       MatchingService.query_job job_id user db = Some job /\
       Forall2 (MatchingService.match_of job je) scored
         (filter (fun r => truthy (embeddings r))
            (MatchingService.query_resumes user db)) /\
       Permutation ranked scored /\
       (forall n, MatchingService.match_candidates encode job_id n user db
                  = Ok (PyList.slice_to n ranked)) /\
       forall n,
         (Z.of_nat
            (length (filter (fun r => truthy (embeddings r))
                       (MatchingService.query_resumes user db))) <= n)%Z ->
         MatchingService.match_candidates encode job_id n user db
         = Ok ranked) /\
  (forall query_embedding docs top_k res,
     EmbeddingService.find_similar_documents query_embedding docs top_k
       = Ok res ->
     exists scored ranked,
       Forall2 (EmbeddingService.similar_of query_embedding) scored
         (filter (fun d => truthy (EmbeddingService.doc_embeddings d)) docs) /\
       Permutation ranked scored /\
       (forall n,
          EmbeddingService.find_similar_documents query_embedding docs n
          = Ok (PyList.slice_to n ranked)) /\
       forall n,
         (Z.of_nat
            (length (filter (fun d => truthy
                                        (EmbeddingService.doc_embeddings d))
                       docs)) <= n)%Z ->
         EmbeddingService.find_similar_documents query_embedding docs n
         = Ok ranked).
Proof.
  split; [|split; [|split]].
  - intros A ranked n. split; [apply slice_to_all|].
    split; [reflexivity|]. intros H. apply slice_to_negative, H.
  - intros gen query user db. eexists.
    split; [apply sort_permutation|]. split; [reflexivity|]. intros k.
    assert (R : exists resp,
              SimpleRAGService.ask_question gen query k user db = Ok resp /\
              map SimpleRAGService.src_resume_id
                (SimpleRAGService.sources resp)
              = map (fun x => resume_id (SimpleRAGService.resume x))
                  (PyList.slice_to k
                     (PyList.sort SimpleRAGService.score Nat.leb true
                        (SimpleRAGService.relevant_resumes query user db)))).
    { destruct (filter (fun r => owner_id r =? user) (resumes_table db))
        as [|r rs] eqn:E.
      + eexists. split; [unfold SimpleRAGService.ask_question; rewrite E;
                         reflexivity|].
        unfold SimpleRAGService.relevant_resumes. rewrite E. simpl.
        change (PyList.sort SimpleRAGService.score Nat.leb true [])
          with (@nil SimpleRAGService.Relevant).
        rewrite slice_to_nil. reflexivity.
      + eexists. split; [apply ask_question_run; congruence|].
        simpl. rewrite map_map. reflexivity. }
    destruct R as (resp & Hrun & Hids). exists resp.
    split; [exact Hrun|]. split; [exact Hids|]. intros Hk. rewrite Hids.
    rewrite slice_to_all
      by (rewrite (Permutation_length (sort_permutation _ _ _ _)); exact Hk).
    apply Permutation_map, sort_permutation.
  - intros encode job_id top_n user db res H.
    destruct (match_candidates_run _ _ _ _ _ H) as (job & je & ms & Hj & F & Hn).
    exists job, je, ms, (PyList.sort MatchingService.score Rleb true ms).
    split; [exact Hj|]. split; [exact F|].
    split; [apply sort_permutation|]. split; [exact Hn|].
    intros n Hlen. rewrite Hn. f_equal. apply slice_to_all.
    rewrite (Permutation_length (sort_permutation _ _ _ _)).
    rewrite (Forall2_length F). exact Hlen.
  - intros qe docs top_k res H.
    destruct (find_similar_documents_run _ _ _ H) as (sims & F & Hn).
    exists sims, (PyList.sort EmbeddingService.similarity Rleb true sims).
    split; [exact F|]. split; [apply sort_permutation|].
    split; [exact Hn|].
    intros n Hlen. rewrite Hn. f_equal. apply slice_to_all.
    rewrite (Permutation_length (sort_permutation _ _ _ _)).
    rewrite (Forall2_length F). exact Hlen.
Qed.

Lemma truncation_policy_witness :
  exists job je scored ranked,
    MatchingService.query_job 1 1 Samples.db_vectors = Some job /\
    Forall2 (MatchingService.match_of job je) scored
      (filter (fun r => truthy (embeddings r))
         (MatchingService.query_resumes 1 Samples.db_vectors)) /\
    Permutation ranked scored /\
    (forall n, MatchingService.match_candidates Samples.unit_encoder 1 n 1
                 Samples.db_vectors = Ok (PyList.slice_to n ranked)) /\
    forall n,
      (Z.of_nat
         (length (filter (fun r => truthy (embeddings r))
                    (MatchingService.query_resumes 1 Samples.db_vectors)))
       <= n)%Z ->
      MatchingService.match_candidates Samples.unit_encoder 1 n 1
        Samples.db_vectors = Ok ranked.
Proof.
  apply (proj1 (proj2 (proj2 truncation_policy))
           Samples.unit_encoder 1 10%Z 1 Samples.db_vectors
           Samples.ranked_vectors (@sample_ranking 10%Z ltac:(lia))).
Defined.

(** ** C4 and C6: evidence and missing requirements *)

Section EvidenceFacts.
Import MatchingService.

Lemma str_eqb_eq (a b : str) : str_eqb a b = true <-> a = b.
Proof.
  revert b. induction a as [|x a IH]; intros [|y b]; simpl;
    try (split; [discriminate | congruence]); [tauto|].
  unfold ascii_eqb. rewrite andb_true_iff, Ascii.eqb_eq, IH.
  split; [intros [-> ->]; reflexivity | intros H; injection H; auto].
Qed.

Lemma skills_loop_eq resume rc reqs : forall acc,
  skills_loop resume rc reqs acc
  = acc ++ map (skill_item resume)
             (filter (fun r => str_in (lower r) rc) reqs).
Proof.
  induction reqs as [|r reqs IH]; intros acc; simpl.
  - rewrite app_nil_r. reflexivity.
  - destruct (str_in (lower r) rc); simpl.
    + rewrite IH, <- app_assoc. reflexivity.
    + apply IH.
Qed.

Lemma missing_loop_eq rc reqs : forall acc,
  missing_loop rc reqs acc
  = acc ++ filter (fun r => negb (str_in (lower r) rc)
                            && negb (_has_similar_term (lower r) rc)) reqs.
Proof.
  induction reqs as [|r reqs IH]; intros acc; simpl.
  - rewrite app_nil_r. reflexivity.
  - destruct (str_in (lower r) rc); simpl; [apply IH|].
    destruct (_has_similar_term (lower r) rc); simpl; [apply IH|].
    rewrite IH, <- app_assoc. reflexivity.
Qed.

Lemma experience_items job resume :
  Forall (fun e => ev_type e = experience_match)
    (_check_experience_match job resume).
Proof.
  unfold _check_experience_match.
  destruct (years_first None (lower (description job))); [|constructor].
  destruct (years_first None (lower (content resume))); [|constructor].
  destruct (_ <=? _); repeat constructor.
Qed.

Lemma education_loop_items jt rc resume terms : forall acc,
  Forall (fun e => ev_type e = education_match) acc ->
  Forall (fun e => ev_type e = education_match)
    (education_loop jt rc resume terms acc).
Proof.
  induction terms as [|t terms IH]; intros acc H; simpl; [exact H|].
  destruct (str_in t jt && str_in t rc); apply IH; [|exact H].
  apply Forall_app. split; [exact H | repeat constructor].
Qed.

Lemma extract_evidence_eq job resume :
  _extract_evidence job resume
  = map (skill_item resume)
      (filter (fun r => str_in (lower r) (lower (content resume)))
         (requirements job))
    ++ _check_experience_match job resume
    ++ _check_education_match job resume.
Proof.
  unfold _extract_evidence. rewrite skills_loop_eq. simpl.
  destruct (_check_experience_match job resume) as [|e es];
    destruct (_check_education_match job resume) as [|d ds];
    simpl; rewrite ?app_nil_r, <- ?app_assoc; reflexivity.
Qed.

(** A requirement has a [skill_match] item exactly when it occurs in the
    text. *)
Lemma has_skill_evidence_iff job resume r :
  has_skill_evidence r (_extract_evidence job resume) <->
  In r (requirements job) /\
  str_in (lower r) (lower (content resume)) = true.
Proof.
  rewrite extract_evidence_eq. unfold has_skill_evidence. split.
  - intros (e & Hin & Hr & Ht).
    apply in_app_or in Hin as [Hin | Hin].
    + apply in_map_iff in Hin as (x & <- & Hx). simpl in Hr. subst x.
      apply filter_In in Hx. exact Hx.
    + exfalso. apply in_app_or in Hin as [Hin | Hin].
      * pose proof (experience_items job resume) as F.
        rewrite Forall_forall in F. specialize (F e Hin). congruence.
      * pose proof (education_loop_items (lower (description job))
                      (lower (content resume)) resume education_terms
                      (Forall_nil _)) as F.
        rewrite Forall_forall in F. specialize (F e Hin). congruence.
  - intros [Hin Hs]. exists (skill_item resume r).
    split; [|split; reflexivity].
    apply in_or_app. left. apply in_map, filter_In. auto.
Qed.

(** A requirement is missing exactly when neither the text nor a similar
    term covers it. *)
Lemma missing_iff job resume r :
  In r (_find_missing_requirements job resume) <->
  In r (requirements job) /\
  str_in (lower r) (lower (content resume)) = false /\
  _has_similar_term (lower r) (lower (content resume)) = false.
Proof.
  unfold _find_missing_requirements. rewrite missing_loop_eq. simpl.
  rewrite filter_In, andb_true_iff, !negb_true_iff. tauto.
Qed.

Lemma filter_without (p : str -> bool) r reqs :
  p r = false ->
  filter p (filter (fun x => negb (str_eqb x r)) reqs) = filter p reqs.
Proof.
  intros Hr. induction reqs as [|x reqs IH]; simpl; [reflexivity|].
  destruct (str_eqb x r) eqn:E; simpl.
  - apply str_eqb_eq in E. subst x. rewrite Hr. exact IH.
  - rewrite IH. reflexivity.
Qed.
End EvidenceFacts.

(** C4. For every job, document and requirement of the job on the lexical
    path (the lowercase requirement occurs in the lowercase text, or it
    does not and no token of it longer than 3 characters occurs either),
    exactly one of the two holds: the requirement has a [skill_match]
    evidence item, or it is in the list of missing requirements. *)
Theorem evidence_missing_partition :
  forall (job : Job) (resume : Resume) (r : str),
    In r (requirements job) ->
    (str_in (lower r) (lower (content resume)) = true \/
     (str_in (lower r) (lower (content resume)) = false /\
      MatchingService._has_similar_term (lower r) (lower (content resume))
      = false)) ->
    (MatchingService.has_skill_evidence r
       (MatchingService._extract_evidence job resume) /\
     ~ In r (MatchingService._find_missing_requirements job resume)) \/
    (~ MatchingService.has_skill_evidence r
         (MatchingService._extract_evidence job resume) /\
     In r (MatchingService._find_missing_requirements job resume)).
Proof.
  intros job resume r Hin H.
  rewrite has_skill_evidence_iff, missing_iff.
  destruct H as [H | [H1 H2]].
  - left. split; [auto|]. intros (_ & H' & _). congruence.
  - right. split; [|auto]. intros [_ H']. congruence.
Qed.

Lemma evidence_missing_partition_witness :
  (MatchingService.has_skill_evidence (py "Kubernetes")
     (MatchingService._extract_evidence Samples.python_job
        (Samples.resume_with 1 1 "Python developer" None)) /\
   ~ In (py "Kubernetes")
       (MatchingService._find_missing_requirements Samples.python_job
          (Samples.resume_with 1 1 "Python developer" None))) \/
  (~ MatchingService.has_skill_evidence (py "Kubernetes")
       (MatchingService._extract_evidence Samples.python_job
          (Samples.resume_with 1 1 "Python developer" None)) /\
   In (py "Kubernetes")
     (MatchingService._find_missing_requirements Samples.python_job
        (Samples.resume_with 1 1 "Python developer" None))).
Proof.
  apply evidence_missing_partition.
  - simpl. right. left. reflexivity.
  - right. split; reflexivity.
Defined.

(** C6 as stated fails: the requirement "5 years of experience" does not
    occur in the resume, its token "years" does, and the evidence list
    holds an item whose requirement is that very text: the
    [experience_match] item, which [_check_experience_match] words from
    the years asked for in the job description. *)
Lemma similar_requirement_named_in_evidence :
  In (py "5 years of experience") (requirements Samples.seniority_job) /\
  str_in (lower (py "5 years of experience"))
    (lower (content Samples.seniority_resume)) = false /\
  MatchingService._has_similar_term (lower (py "5 years of experience"))
    (lower (content Samples.seniority_resume)) = true /\
  MatchingService._extract_evidence Samples.seniority_job
    Samples.seniority_resume
  = [MatchingService.mkEvidence (py "5 years of experience")
       (py "Candidate has 7 years of experience")
       MatchingService.experience_match] /\
  ~ (forall e,
       In e (MatchingService._extract_evidence Samples.seniority_job
               Samples.seniority_resume) ->
       MatchingService.ev_requirement e <> py "5 years of experience").
Proof.
  assert (E : MatchingService._extract_evidence Samples.seniority_job
                Samples.seniority_resume
              = [MatchingService.mkEvidence (py "5 years of experience")
                   (py "Candidate has 7 years of experience")
                   MatchingService.experience_match])
    by (vm_compute; reflexivity).
  split; [left; reflexivity|]. split; [vm_compute; reflexivity|].
  split; [vm_compute; reflexivity|]. split; [exact E|].
  intros H. rewrite E in H.
  exact (H _ (or_introl eq_refl) eq_refl).
Qed.

(** C6, amended.  A requirement whose lowercase form does not occur in
    the lowercase text, but one of whose tokens longer than 3 characters
    does, is not reported missing and has no [skill_match] item, and
    taking it out of the job changes neither the evidence list nor the
    list of missing requirements: no item of either list is there
    because of it. *)
Theorem similar_term_leaves_no_trace :
  forall (job : Job) (resume : Resume) (r : str),
    str_in (lower r) (lower (content resume)) = false ->
    MatchingService._has_similar_term (lower r) (lower (content resume))
    = true ->
    ~ In r (MatchingService._find_missing_requirements job resume) /\
    ~ MatchingService.has_skill_evidence r
        (MatchingService._extract_evidence job resume) /\
    MatchingService._extract_evidence
      (MatchingService.without_requirement r job) resume
    = MatchingService._extract_evidence job resume /\
    MatchingService._find_missing_requirements
      (MatchingService.without_requirement r job) resume
    = MatchingService._find_missing_requirements job resume.
Proof.
  intros job resume r Hs Hsim. split; [|split; [|split]].
  - rewrite missing_iff. intros (_ & _ & H). congruence.
  - rewrite has_skill_evidence_iff. intros [_ H]. congruence.
  - rewrite !extract_evidence_eq. simpl.
    rewrite filter_without by exact Hs. reflexivity.
  - unfold MatchingService._find_missing_requirements.
    rewrite !missing_loop_eq. simpl.
    rewrite filter_without; [reflexivity|].
    rewrite Hs, Hsim. reflexivity.
Qed.

Lemma similar_term_leaves_no_trace_witness :
  ~ In (py "Python programming")
      (MatchingService._find_missing_requirements Samples.programming_job
         Samples.programming_resume) /\
  ~ MatchingService.has_skill_evidence (py "Python programming")
      (MatchingService._extract_evidence Samples.programming_job
         Samples.programming_resume) /\
  MatchingService._extract_evidence
    (MatchingService.without_requirement (py "Python programming")
       Samples.programming_job) Samples.programming_resume
  = MatchingService._extract_evidence Samples.programming_job
      Samples.programming_resume /\
  MatchingService._find_missing_requirements
    (MatchingService.without_requirement (py "Python programming")
       Samples.programming_job) Samples.programming_resume
  = MatchingService._find_missing_requirements Samples.programming_job
      Samples.programming_resume.
Proof.
  apply similar_term_leaves_no_trace; reflexivity.
Defined.

(** ** C7: redaction applied twice *)

Section SubFacts.
Import Re.

(** Without a match, [re.sub] returns the text as it is. *)
Lemma sub_go_no_match icase r repl s : forall prev,
  search_from icase r prev s = false ->
  sub_go icase r repl prev s 0 = s.
Proof.
  induction s as [|c s IH]; intros prev H; simpl in *.
  - destruct (match_at icase r prev []); [discriminate | reflexivity].
  - destruct (match_at icase r prev (c :: s)); [discriminate|].
    rewrite IH by exact H. reflexivity.
Qed.

Lemma sub_no_match icase r repl s :
  search icase r s = false -> sub icase r repl s = s.
Proof. apply sub_go_no_match. Qed.

Lemma redact_loop_no_match patterns text :
  forallb (fun entry => negb (search true (snd entry) text)) patterns = true ->
  PIIService.redact_loop patterns text = text.
Proof.
  induction patterns as [|[name r] patterns IH]; simpl; [reflexivity|].
  intros H. apply andb_prop in H as [H1 H2].
  apply negb_true_iff in H1. rewrite sub_no_match by exact H1.
  apply IH, H2.
Qed.
End SubFacts.

(** C7 on the code: in an e-mail address directly followed by a
    telephone number the first pass redacts the number only and leaves
    the address in the text, and the second pass then redacts the
    address. *)
Lemma redact_pii_not_idempotent :
  PIIService.redact_pii Samples.email_then_phone Samples.alice
    = py "a@b.co[PHONE_REDACTED]" /\
  PIIService.redact_pii
    (PIIService.redact_pii Samples.email_then_phone Samples.alice)
    Samples.alice
    = py "[EMAIL_REDACTED][PHONE_REDACTED]" /\
  PIIService.redact_pii
    (PIIService.redact_pii Samples.email_then_phone Samples.alice)
    Samples.alice
  <> PIIService.redact_pii Samples.email_then_phone Samples.alice.
Proof. vm_compute. repeat split. discriminate. Qed.

(** ** C9: snippets *)

Section SnippetFacts.
Import SnippetExtractor.

Lemma snippets_loop_eq query_words sentences : forall acc,
  snippets_loop query_words sentences acc
  = acc ++ filter (fun snippet => 50 <? length snippet)
             (map Spec.truncate
                (filter (fun s => any_word_in query_words (lower s))
                   sentences)).
Proof.
  induction sentences as [|s sentences IH]; intros acc;
    cbn [snippets_loop filter map].
  - rewrite app_nil_r. reflexivity.
  - destruct (any_word_in query_words (lower s));
      cbn [filter map]; [|apply IH].
    unfold Spec.truncate at 1.
    destruct (50 <? length (firstn 200 (strip s))); [|apply IH].
    rewrite IH, <- app_assoc. reflexivity.
Qed.

Lemma extract_snippets_eq query content :
  _extract_snippets query content
  = firstn 3 (Spec.snippets_with (fun n => 50 <? n) query content).
Proof.
  unfold _extract_snippets. rewrite snippets_loop_eq. reflexivity.
Qed.
End SnippetFacts.

(** C9 as stated fails: a relevant sentence of exactly 50 characters is
    kept by the rule of the specification and dropped by the code, and of
    four relevant sentences only the first three are returned. *)
Lemma snippet_of_50_dropped :
  (length Samples.sentence_50 = 50 /\
   Spec.snippets (py "python") Samples.sentence_50 = [Samples.sentence_50] /\
   SnippetExtractor._extract_snippets (py "python") Samples.sentence_50 = [] /\
   SnippetExtractor._extract_relevant_snippets (py "python")
     Samples.sentence_50 = []) /\
  (length (Spec.snippets (py "python") Samples.four_sentences) = 4 /\
   length (SnippetExtractor._extract_snippets (py "python")
             Samples.four_sentences) = 3).
Proof. vm_compute. repeat split. Qed.

(** C9, amended.  For every query and content both snippet extractors
    take the relevant sentences (content split at runs of [.], [!], [?];
    a sentence is relevant when it contains a lowercase query word),
    strip each and cut it to 200 characters, keep a snippet if and only
    if it is longer than 50 characters, and return the first three of the
    snippets kept: every returned snippet has more than 50 and at most
    200 characters. *)
Theorem extract_snippets_rule :
  forall (query content : str),
    SnippetExtractor._extract_snippets query content
    = firstn 3 (Spec.snippets_with (fun n => 50 <? n) query content) /\
    SnippetExtractor._extract_relevant_snippets query content
    = SnippetExtractor._extract_snippets query content /\
    length (SnippetExtractor._extract_snippets query content) <= 3 /\
    forall snippet,
      In snippet (SnippetExtractor._extract_snippets query content) ->
      50 < length snippet <= 200 /\
      exists sentence,
        In sentence (Re.split false SnippetExtractor.sentence_end content) /\
        Spec.relevant_sentence query sentence = true /\
        snippet = firstn 200 (strip sentence).
Proof.
  intros query content. split; [apply extract_snippets_eq|].
  split; [reflexivity|]. rewrite extract_snippets_eq.
  split; [rewrite length_firstn; lia|].
  intros snippet H.
  assert (H' : In snippet (Spec.snippets_with (fun n => 50 <? n) query content)).
  { rewrite <- (firstn_skipn 3 (Spec.snippets_with _ query content)).
    apply in_or_app. left. exact H. }
  unfold Spec.snippets_with in H'.
  apply filter_In in H' as [Hin Hlen]. apply Nat.ltb_lt in Hlen.
  apply in_map_iff in Hin as (sentence & <- & Hs).
  apply filter_In in Hs as [Hs Hrel].
  split.
  - split; [exact Hlen|]. unfold Spec.truncate. rewrite length_firstn. lia.
  - exists sentence. auto.
Qed.

(** ** C8: the text normaliser *)

Section CleanTextFacts.
Import Re.

Lemma lstrip_length s : length (lstrip s) <= length s.
Proof.
  induction s as [|c s IH]; simpl; [lia|].
  destruct (is_space c); simpl; lia.
Qed.

(** A single class matches one character. *)
Lemma match_at_cls p prev s :
  match_at false (Cls p) prev s
  = match s with
    | c :: s' => if p c then Some s' else None
    | [] => None
    end.
Proof. destruct s; reflexivity. Qed.

(** Deleting the characters of a class is a filter. *)
Lemma sub_cls_delete p s : forall prev,
  sub_go false (Cls p) [] prev s 0 = filter (fun c => negb (p c)) s.
Proof.
  induction s as [|c s IH]; intros prev; [reflexivity|].
  cbn [sub_go filter]. rewrite match_at_cls.
  destruct (p c); cbn [negb app].
  - replace (length (c :: s) - length s) with 1 by (cbn [length]; lia).
    apply IH.
  - rewrite IH. reflexivity.
Qed.

(** The greedy iterations of [\s+] consume the leading white space. *)
Lemma rep_opt_spaces n : forall s prev,
  length s <= n ->
  rep_opt (rmatch false (Cls is_space)) None n prev s
    (fun _ rest => Some rest)
  = Some (lstrip s).
Proof.
  induction n as [|n IH]; intros s prev Hn.
  - destruct s; [reflexivity | simpl in Hn; lia].
  - destruct s as [|c s]; [reflexivity|].
    cbn [rep_opt rmatch cls_test lstrip].
    destruct (is_space c); [|reflexivity].
    replace (length s <? length (c :: s)) with true
      by (symmetry; apply Nat.ltb_lt; cbn [length]; lia).
    cbn [option_map]. rewrite IH by (cbn [length] in Hn; lia). reflexivity.
Qed.

Lemma match_at_spaces prev s :
  match_at false (plus (Cls is_space)) prev s
  = match s with
    | c :: s' => if is_space c then Some (lstrip s') else None
    | [] => None
    end.
Proof.
  destruct s as [|c s]; [reflexivity|].
  unfold match_at, plus. cbn [rmatch rep_req cls_test].
  destruct (is_space c); [|reflexivity].
  cbn [option_map]. apply rep_opt_spaces. lia.
Qed.

(** Replacing [\s+] by one blank collapses each run of white space. *)
Lemma sub_spaces_collapse s :
  (forall prev,
     sub_go false (plus (Cls is_space)) (py " ") prev s 0
     = Spec.collapse_from false s) /\
  (forall prev,
     sub_go false (plus (Cls is_space)) (py " ") prev s
       (length s - length (lstrip s))
     = Spec.collapse_from true s).
Proof.
  induction s as [|c s [IH0 IH1]].
  - split; intros prev; reflexivity.
  - assert (H0 : forall prev,
               sub_go false (plus (Cls is_space)) (py " ") prev (c :: s) 0
               = Spec.collapse_from false (c :: s)).
    { intros prev. cbn [sub_go Spec.collapse_from]. rewrite match_at_spaces.
      destruct (is_space c).
      - pose proof (lstrip_length s).
        replace (length (c :: s) - length (lstrip s))
          with (S (length s - length (lstrip s))) by (cbn [length]; lia).
        rewrite IH1. reflexivity.
      - rewrite IH0. reflexivity. }
    split; [exact H0|]. intros prev.
    cbn [lstrip Spec.collapse_from]. destruct (is_space c) eqn:E.
    + pose proof (lstrip_length s).
      replace (length (c :: s) - length (lstrip s))
        with (S (length s - length (lstrip s))) by (cbn [length]; lia).
      cbn [sub_go]. apply IH1.
    + replace (length (c :: s) - length (c :: s)) with 0 by (cbn [length]; lia).
      rewrite H0. cbn [Spec.collapse_from]. rewrite E. reflexivity.
Qed.

Lemma split_go_chars s : forall word w c,
  In w (PyStr.split_go word s) -> In c w -> In c word \/ In c s.
Proof.
  induction s as [|x s IH]; intros word w c Hw Hc; simpl in Hw.
  - destruct word; [destruct Hw|]. destruct Hw as [<- | []]. auto.
  - destruct (is_space x).
    + destruct word as [|y word].
      * destruct (IH [] w c Hw Hc) as [[] | H]. right. right. exact H.
      * destruct Hw as [<- | Hw]; [auto|].
        destruct (IH [] w c Hw Hc) as [[] | H]. right. right. exact H.
    + destruct (IH _ w c Hw Hc) as [H | H]; [|right; right; exact H].
      apply in_app_or in H as [H | [<- | []]]; [auto|].
      right. left. reflexivity.
Qed.

Lemma join_chars sep parts c :
  In c (join sep parts) -> In c sep \/ exists p, In p parts /\ In c p.
Proof.
  induction parts as [|p parts IH]; simpl; [intros []|].
  destruct parts as [|q parts].
  - intros H. right. exists p. auto.
  - intros H. apply in_app_or in H as [H | H]; [right; exists p; auto|].
    apply in_app_or in H as [H | H]; [auto|].
    destruct (IH H) as [Hs | (p' & Hp' & Hc)]; [auto|].
    right. exists p'. split; [right; exact Hp' | exact Hc].
Qed.

Lemma kept_lower_char c :
  EmbeddingService.kept c = true ->
  EmbeddingService.kept (lower_char c) = true /\
  is_upper (lower_char c) = false.
Proof.
  destruct c as [[] [] [] [] [] [] [] []]; vm_compute; intros H;
    try discriminate H; split; reflexivity.
Qed.
End CleanTextFacts.

(** C8 on the code: the underscore is neither alphanumeric nor white
    space nor one of the seven punctuation marks, and the normaliser,
    whose comment announces that it keeps alphanumerics and basic
    punctuation, keeps it: the class [\w] of its pattern contains it. *)
Lemma clean_text_keeps_underscore :
  EmbeddingService._clean_text (py "a_b") = py "a_b" /\
  Spec.normalize (py "a_b") = [] /\
  existsb (fun c => negb (Spec.allowed c))
    (EmbeddingService._clean_text (py "a_b")) = true.
Proof. vm_compute. repeat split. Qed.

(** ** The concrete scenarios of the specification *)

(** Scenario 1: an e-mail address and a telephone number are replaced. *)
Example scenario_redaction :
  PIIService.redact_pii Samples.contact_line Samples.alice
  = py "Contact me at [EMAIL_REDACTED] or [PHONE_REDACTED]".
Proof. vm_compute. reflexivity. Qed.

(** Scenario 2: one requirement present verbatim, one absent. *)
Example scenario_evidence :
  let resume := Samples.resume_with 1 1 "Python developer" None in
  MatchingService._extract_evidence Samples.python_job resume
  = [MatchingService.mkEvidence (py "Python") (py "Python developer")
       MatchingService.skill_match] /\
  MatchingService._find_missing_requirements Samples.python_job resume
  = [py "Kubernetes"].
Proof. vm_compute. split; reflexivity. Qed.

(** Scenario 3: an empty corpus in question mode. *)
Example scenario_empty_corpus :
  SimpleRAGService.ask_question Samples.no_answer (py "python") 5 1
    (mkDb [] [])
  = Ok (SimpleRAGService.mkAskResponse
          (py "No resumes found. Please upload some resumes first.") []).
Proof. reflexivity. Qed.

(** Scenario 4: two documents with the same score keep their order. *)
Example scenario_tie :
  match SimpleRAGService.ask_question Samples.no_answer (py "python") 5 1
          Samples.db_text with
  | Ok resp =>
      map SimpleRAGService.src_resume_id (SimpleRAGService.sources resp)
  | Err _ => []
  end = [1; 2].
Proof. vm_compute. reflexivity. Qed.

(** Scenario 5: a zero vector scores 0 against any vector of its
    length. *)
Example scenario_zero_vector :
  forall x y : R,
    EmbeddingService.calculate_similarity [0%R; 0%R] [x; y] = Ok 0%R.
Proof.
  intros x y. unfold EmbeddingService.calculate_similarity. simpl length.
  rewrite Nat.eqb_refl.
  assert (E : EmbeddingService.norm [0%R; 0%R] = 0%R).
  { unfold EmbeddingService.norm. simpl.
    replace (0 * 0 + (0 * 0 + 0))%R with 0%R by lra. apply sqrt_0. }
  rewrite E. unfold Reqb at 1.
  destruct (Req_dec_T 0 0) as [_ | N]; [reflexivity | contradiction].
Qed.

(** * Further properties of the services *)

(** ** embedding_service.py: the cosine scorer *)

Section ScorerFacts.
Import EmbeddingService.
Local Open Scope R_scope.

Lemma dot_comm a : forall b, dot a b = dot b a.
Proof.
  induction a as [|x a IH]; intros [|y b]; simpl; try reflexivity.
  rewrite IH. lra.
Qed.

Lemma norm_zero_iff a : norm a = 0 <-> Forall (fun x => x = 0) a.
Proof.
  unfold norm. split.
  - intros H. apply sqrt_eq_0 in H; [|apply dot_self_nonneg].
    induction a as [|x a IH]; [constructor|]. simpl in H.
    pose proof (dot_self_nonneg a). pose proof (sq_nonneg x).
    assert (Hx : x * x = 0) by lra. assert (Ha : dot a a = 0) by lra.
    constructor; [|exact (IH Ha)].
    destruct (Rmult_integral _ _ Hx); assumption.
  - intros H. replace (dot a a) with 0; [apply sqrt_0|].
    induction H as [|x a Hx _ IH]; simpl; [reflexivity|].
    rewrite <- IH, Hx. lra.
Qed.

Lemma Reqb_true x y : Reqb x y = true <-> x = y.
Proof. unfold Reqb. destruct (Req_dec_T x y); intuition congruence. Qed.

End ScorerFacts.

(** The scorer does not depend on the order of its arguments: the two
    calls raise together or return the same value. *)
Theorem calculate_similarity_symmetric :
  forall embedding1 embedding2 : list R,
    EmbeddingService.calculate_similarity embedding1 embedding2
    = EmbeddingService.calculate_similarity embedding2 embedding1.
Proof.
  intros a b. unfold EmbeddingService.calculate_similarity.
  rewrite (Nat.eqb_sym (length a) (length b)).
  destruct (length b =? length a); [|reflexivity].
  rewrite (orb_comm (Reqb (EmbeddingService.norm a) 0)).
  destruct (_ || _); [reflexivity|].
  rewrite (dot_comm a b), (Rmult_comm (EmbeddingService.norm a)).
  reflexivity.
Qed.

(** The scorer raises exactly when the two vectors differ in length, and
    a vector of zeros scores 0 against every vector of its length. *)
Theorem calculate_similarity_errors_and_zero :
  forall embedding1 embedding2 : list R,
    (length embedding1 <> length embedding2 ->
     EmbeddingService.calculate_similarity embedding1 embedding2
     = Err (ValueError "shapes not aligned")) /\
    (length embedding1 = length embedding2 ->
     exists v,
       EmbeddingService.calculate_similarity embedding1 embedding2 = Ok v) /\
    (length embedding1 = length embedding2 ->
     Forall (fun x => x = 0%R) embedding1
     \/ Forall (fun x => x = 0%R) embedding2 ->
     EmbeddingService.calculate_similarity embedding1 embedding2 = Ok 0%R).
Proof.
  intros a b. unfold EmbeddingService.calculate_similarity.
  split; [|split].
  - intros H. apply Nat.eqb_neq in H. rewrite H. reflexivity.
  - intros H. apply Nat.eqb_eq in H. rewrite H.
    destruct (_ || _); eauto.
  - intros H Z. apply Nat.eqb_eq in H. rewrite H.
    replace (Reqb (EmbeddingService.norm a) 0
             || Reqb (EmbeddingService.norm b) 0) with true; [reflexivity|].
    symmetry. apply orb_true_iff.
    destruct Z as [Z | Z]; [left | right];
      apply Reqb_true, norm_zero_iff, Z.
Qed.

Lemma calculate_similarity_errors_and_zero_witness :
  EmbeddingService.calculate_similarity [0%R; 0%R; 0%R] [1%R; 2%R; 3%R]
  = Ok 0%R.
Proof.
  apply (proj2 (proj2 (calculate_similarity_errors_and_zero
                         [0%R; 0%R; 0%R] [1%R; 2%R; 3%R]))).
  - reflexivity.
  - left. repeat constructor.
Defined.

(** ** Occurrence of one string in another *)

Section OccursFacts.

Lemma startswith_iff p : forall s,
  startswith p s = true <-> exists after, s = p ++ after.
Proof.
  induction p as [|x p IH]; intros s; simpl.
  - split; [eauto | reflexivity].
  - destruct s as [|y s].
    + split; [discriminate | intros [a H]; discriminate].
    + unfold ascii_eqb. rewrite andb_true_iff, Ascii.eqb_eq, IH. split.
      * intros [-> [a ->]]. eauto.
      * intros [a H]. injection H as -> ->. eauto.
Qed.

Lemma str_in_iff needle : forall hay,
  str_in needle hay = true <-> occurs_in needle hay.
Proof.
  induction hay as [|c hay IH]; simpl.
  - rewrite orb_false_r, startswith_iff. split.
    + intros [a H]. exists [], a. exact H.
    + intros ([|b before] & a & H); [eauto | discriminate].
  - rewrite orb_true_iff, startswith_iff, IH. split.
    + intros [[a H] | (before & a & H)].
      * exists [], a. exact H.
      * exists (c :: before), a. rewrite H. reflexivity.
    + intros ([|b before] & a & H).
      * left. eauto.
      * right. injection H as _ H. exists before, a. exact H.
Qed.

Lemma occurs_in_refl s : occurs_in s s.
Proof. exists [], []. rewrite app_nil_r. reflexivity. Qed.

Lemma occurs_in_trans a b c : occurs_in a b -> occurs_in b c -> occurs_in a c.
Proof.
  intros (p1 & q1 & ->) (p2 & q2 & ->).
  exists (p2 ++ p1), (q1 ++ q2). rewrite <- !app_assoc. reflexivity.
Qed.

Lemma occurs_in_firstn n s : occurs_in (firstn n s) s.
Proof. exists [], (skipn n s). simpl. symmetry. apply firstn_skipn. Qed.

Lemma occurs_in_skipn n s : occurs_in (skipn n s) s.
Proof.
  exists (firstn n s), []. rewrite app_nil_r. symmetry. apply firstn_skipn.
Qed.

Lemma lstrip_suffix s : exists before, s = before ++ lstrip s.
Proof.
  induction s as [|c s [b IH]]; simpl.
  - exists []. reflexivity.
  - destruct (is_space c).
    + exists (c :: b). simpl. rewrite <- IH. reflexivity.
    + exists []. reflexivity.
Qed.

Lemma occurs_in_strip s : occurs_in (strip s) s.
Proof.
  unfold strip, rstrip.
  destruct (lstrip_suffix s) as [b Hb].
  destruct (lstrip_suffix (rev (lstrip s))) as [b' Hb'].
  exists b, (rev b').
  rewrite Hb at 1. f_equal.
  rewrite <- (rev_involutive (lstrip s)) at 1.
  rewrite Hb' at 1. rewrite rev_app_distr. reflexivity.
Qed.

Lemma occurs_in_length a b : occurs_in a b -> length a <= length b.
Proof. intros (p & q & ->). rewrite !length_app. lia. Qed.

(** The pieces of [re.split] are pieces of the text. *)
Lemma re_split_go_occurs icase r full s : forall piece prev skip before w,
  full = before ++ piece ++ s ->
  (skip <> 0 -> piece = []) ->
  In w (Re.split_go icase r piece prev s skip) ->
  occurs_in w full.
Proof.
  induction s as [|c s IH]; intros piece prev skip before w E Hskip Hw.
  - assert (Hp : w = piece).
    { destruct skip; simpl in Hw; destruct Hw as [<- | []]; reflexivity. }
    subst w. exists before, []. exact E.
  - destruct skip as [|j]; cbn [Re.split_go] in Hw.
    + destruct (Re.match_at icase r prev (c :: s)) as [rest|].
      * destruct (length (c :: s) - length rest) as [|j] eqn:N.
        -- apply (IH _ _ _ before _) in Hw; [exact Hw | | congruence].
           rewrite E, <- !app_assoc. reflexivity.
        -- destruct Hw as [<- | Hw]; [exists before, (c :: s); exact E|].
           apply (IH _ _ _ (before ++ piece ++ [c]) _) in Hw;
             [exact Hw | | reflexivity].
           rewrite E, <- !app_assoc. reflexivity.
      * apply (IH _ _ _ before _) in Hw; [exact Hw | | congruence].
        rewrite E, <- !app_assoc. reflexivity.
    + rewrite (Hskip (Nat.neq_succ_0 j)) in *.
      apply (IH _ _ _ (before ++ [c]) _) in Hw; [exact Hw | | reflexivity].
      rewrite E, <- !app_assoc. reflexivity.
Qed.

Lemma re_split_occurs icase r s w :
  In w (Re.split icase r s) -> occurs_in w s.
Proof.
  intros H.
  apply (@re_split_go_occurs icase r s s [] None 0 [] w);
    [reflexivity | congruence | exact H].
Qed.

(** Every snippet is a piece of the content. *)
Lemma extract_snippets_occurs query content snippet :
  In snippet (SnippetExtractor._extract_snippets query content) ->
  occurs_in snippet content.
Proof.
  rewrite extract_snippets_eq. intros H.
  assert (H' : In snippet
                 (Spec.snippets_with (fun n => 50 <? n) query content)).
  { rewrite <- (firstn_skipn 3 (Spec.snippets_with _ query content)).
    apply in_or_app. left. exact H. }
  unfold Spec.snippets_with in H'. apply filter_In in H' as [H' _].
  apply in_map_iff in H' as (sentence & <- & Hs).
  apply filter_In in Hs as [Hs _]. apply re_split_occurs in Hs.
  unfold Spec.truncate.
  eapply occurs_in_trans; [apply occurs_in_firstn|].
  eapply occurs_in_trans; [apply occurs_in_strip | exact Hs].
Qed.
End OccursFacts.

(** ** Lengths of sorted and sliced lists *)

Section LengthFacts.
Context {A K : Type}.
Variables (key : A -> K) (leb : K -> K -> bool).

Lemma insert_after_length x l :
  length (PyList.insert_after key leb x l) = S (length l).
Proof.
  induction l as [|y l IH]; simpl; [reflexivity|].
  destruct (leb (key y) (key x)); simpl; [rewrite IH|]; reflexivity.
Qed.

Lemma sort_asc_fold_length l : forall acc,
  length (fold_left (fun acc x => PyList.insert_after key leb x acc) l acc)
  = length acc + length l.
Proof.
  induction l as [|x l IH]; intros acc; simpl; [lia|].
  rewrite IH, insert_after_length. lia.
Qed.

Lemma sort_length reverse l :
  length (PyList.sort key leb reverse l) = length l.
Proof.
  unfold PyList.sort, PyList.sort_asc. destruct reverse.
  - rewrite length_rev, sort_asc_fold_length, length_rev. reflexivity.
  - rewrite sort_asc_fold_length. reflexivity.
Qed.

Lemma slice_to_length (n : Z) (l : list A) :
  (0 <= n)%Z ->
  length (PyList.slice_to n l) = Nat.min (Z.to_nat n) (length l).
Proof.
  intros H. unfold PyList.slice_to.
  destruct (0 <=? n)%Z eqn:E; [|apply Z.leb_gt in E; lia].
  apply length_firstn.
Qed.
End LengthFacts.

(** ** matching_service.py and embedding_service.py: the ranked lists *)

Section PipelineFacts.
Import EmbeddingService MatchingService.

Lemma calculate_similarity_dimension qe e :
  (length qe =? length e) = true ->
  exists v, calculate_similarity qe e = Ok v.
Proof.
  intros H. unfold calculate_similarity. rewrite H.
  destruct (_ || _); eauto.
Qed.

Lemma calculate_similarity_mismatch qe e :
  (length qe =? length e) = false ->
  calculate_similarity qe e = Err (ValueError "shapes not aligned").
Proof. intros H. unfold calculate_similarity. rewrite H. reflexivity. Qed.

Lemma matches_loop_outcome job je rs : forall acc,
  if forallb (fun r => dimension_ok je (embeddings r)) rs
  then exists res, matches_loop job je rs acc = Ok res
  else matches_loop job je rs acc = Err (ValueError "shapes not aligned").
Proof.
  induction rs as [|r rs IH]; intros acc; cbn [forallb matches_loop].
  - eauto.
  - destruct (embeddings r) as [[|x e]|]; cbn [dimension_ok andb];
      try apply IH.
    destruct (length je =? length (x :: e)) eqn:D; cbn [andb].
    + destruct (calculate_similarity_dimension _ _ D) as [v ->].
      cbn [bind]. apply IH.
    + rewrite (calculate_similarity_mismatch _ _ D). reflexivity.
Qed.

Lemma similarities_loop_outcome qe docs : forall acc,
  if forallb (fun d => dimension_ok qe (doc_embeddings d)) docs
  then exists res, similarities_loop qe docs acc = Ok res
  else similarities_loop qe docs acc = Err (ValueError "shapes not aligned").
Proof.
  induction docs as [|d docs IH]; intros acc; cbn [forallb similarities_loop].
  - eauto.
  - destruct (doc_embeddings d) as [[|x e]|]; cbn [dimension_ok andb];
      try apply IH.
    destruct (length qe =? length (x :: e)) eqn:D; cbn [andb].
    + destruct (calculate_similarity_dimension _ _ D) as [v ->].
      cbn [bind]. apply IH.
    + rewrite (calculate_similarity_mismatch _ _ D). reflexivity.
Qed.

Lemma Forall2_length_eq {X Y : Type} (R : X -> Y -> Prop) l l' :
  Forall2 R l l' -> length l = length l'.
Proof. induction 1; simpl; congruence. Qed.

(** [match_candidates] once the job is known. *)
Lemma match_candidates_found encode job_id top_n user db job :
  query_job job_id user db = Some job ->
  match_candidates encode job_id top_n user db
  = match query_resumes user db with
    | [] => Ok []
    | _ =>
        matches <- matches_loop job (job_embedding encode job)
                     (query_resumes user db) [] ;;
        Ok (PyList.slice_to top_n (PyList.sort score Rleb true matches))
    end.
Proof.
  intros H. unfold match_candidates. rewrite H.
  destruct (query_resumes user db); reflexivity.
Qed.
End PipelineFacts.

(** [match_candidates] raises "Job not found" exactly when the user owns
    no job with the given id.  Otherwise it returns a list exactly when
    every stored vector of the user's resumes has the dimension of the
    job's vector; one resume with a vector of another length makes the
    whole call raise. *)
Theorem match_candidates_errors :
  forall (encode : str -> list R) (job_id : nat) (top_n : Z) (user : nat)
         (db : Db),
    (MatchingService.query_job job_id user db = None ->
     MatchingService.match_candidates encode job_id top_n user db
     = Err (ValueError "Job not found")) /\
    (forall job,
       MatchingService.query_job job_id user db = Some job ->
       if forallb (fun r => dimension_ok (job_embedding encode job)
                              (embeddings r))
            (MatchingService.query_resumes user db)
       then exists res,
              MatchingService.match_candidates encode job_id top_n user db
              = Ok res
       else MatchingService.match_candidates encode job_id top_n user db
            = Err (ValueError "shapes not aligned")).
Proof.
  intros encode job_id top_n user db. split.
  - intros H. unfold MatchingService.match_candidates. rewrite H. reflexivity.
  - intros job H. rewrite (@match_candidates_found encode job_id top_n user db job H).
    destruct (MatchingService.query_resumes user db) as [|r rs] eqn:Q.
    + simpl. eauto.
    + pose proof (matches_loop_outcome job (job_embedding encode job)
                    (r :: rs) []) as O.
      destruct (forallb _ (r :: rs)).
      * destruct O as [res ->]. simpl. eauto.
      * rewrite O. reflexivity.
Qed.

Lemma match_candidates_errors_witness :
  MatchingService.match_candidates Samples.unit_encoder 7 10 1
    Samples.db_vectors = Err (ValueError "Job not found").
Proof.
  apply (proj1 (match_candidates_errors Samples.unit_encoder 7 10 1
                  Samples.db_vectors)).
  reflexivity.
Defined.

(** A list returned by [match_candidates] for a bound [top_n >= 0] has
    min(top_n, number of the user's resumes with embeddings) entries.
    Each entry belongs to a resume of that user which has embeddings, and
    carries that resume's id, file name, score against the job, evidence
    and missing requirements. *)
Theorem match_candidates_results :
  forall (encode : str -> list R) (job_id : nat) (top_n : Z) (user : nat)
         (db : Db) (res : list MatchingService.MatchResult),
    MatchingService.match_candidates encode job_id top_n user db = Ok res ->
    ((0 <= top_n)%Z ->
     length res
     = Nat.min (Z.to_nat top_n)
         (length (filter (fun r => truthy (embeddings r))
                    (MatchingService.query_resumes user db)))) /\
    exists job,
      MatchingService.query_job job_id user db = Some job /\
      forall m, In m res ->
        exists r,
          In r (resumes_table db) /\ owner_id r = user /\
          truthy (embeddings r) = true /\
          MatchingService.match_of job (job_embedding encode job) m r.
Proof.
  intros encode job_id top_n user db res H.
  destruct (MatchingService.query_job job_id user db) as [job|] eqn:J.
  2:{ unfold MatchingService.match_candidates in H. rewrite J in H.
      discriminate. }
  rewrite (@match_candidates_found encode job_id top_n user db job J) in H.
  assert (R : exists ms,
             res = PyList.slice_to top_n
                     (PyList.sort MatchingService.score Rleb true ms) /\
             Forall2 (MatchingService.match_of job (job_embedding encode job))
               ms (filter (fun r => truthy (embeddings r))
                     (MatchingService.query_resumes user db))).
  { destruct (MatchingService.query_resumes user db) as [|r rs] eqn:Q.
    - injection H as <-. exists []. split; [|constructor].
      symmetry. apply slice_to_nil.
    - destruct (MatchingService.matches_loop job _ (r :: rs) [])
        as [ms|] eqn:L; simpl in H; [|discriminate].
      injection H as <-. apply matches_loop_spec in L as (ms' & E & F).
      simpl in E. subst ms'. exists ms. auto. }
  destruct R as (ms & -> & F). split.
  - intros Hn. rewrite slice_to_length by exact Hn.
    rewrite sort_length, (Forall2_length_eq F). reflexivity.
  - exists job. split; [reflexivity|]. intros m Hm.
    apply slice_to_in, sort_in in Hm.
    destruct (Forall2_in_l F m Hm) as (r & Hr & M).
    apply filter_In in Hr as [Hr Ht].
    apply filter_In in Hr as [Hr Ho]. apply Nat.eqb_eq in Ho.
    exists r. auto.
Qed.

Lemma match_candidates_results_witness :
  length Samples.ranked_vectors
  = Nat.min (Z.to_nat 10)
      (length (filter (fun r => truthy (embeddings r))
                 (MatchingService.query_resumes 1 Samples.db_vectors))).
Proof.
  apply (proj1 (match_candidates_results Samples.unit_encoder 1 10%Z 1
                  Samples.db_vectors (@sample_ranking 10%Z ltac:(lia)))).
  lia.
Defined.

(** [find_similar_documents] raises exactly when a document carries a
    vector whose length differs from the query's.  A returned list for
    [top_k >= 0] has min(top_k, number of documents with embeddings)
    entries, each for a document of the input that has embeddings, with
    the cosine of the query and that document's vector. *)
Theorem find_similar_documents_results :
  forall (query_embedding : list R)
         (docs : list EmbeddingService.Document) (top_k : Z),
    (forallb (fun d => dimension_ok query_embedding
                         (EmbeddingService.doc_embeddings d)) docs = false ->
     EmbeddingService.find_similar_documents query_embedding docs top_k
     = Err (ValueError "shapes not aligned")) /\
    (forallb (fun d => dimension_ok query_embedding
                         (EmbeddingService.doc_embeddings d)) docs = true ->
     exists res,
       EmbeddingService.find_similar_documents query_embedding docs top_k
       = Ok res /\
       ((0 <= top_k)%Z ->
        length res
        = Nat.min (Z.to_nat top_k)
            (length (filter (fun d => truthy (EmbeddingService.doc_embeddings d))
                       docs))) /\
       forall s, In s res ->
         In (EmbeddingService.document s) docs /\
         EmbeddingService.similar_of query_embedding s
           (EmbeddingService.document s)).
Proof.
  intros qe docs top_k.
  pose proof (similarities_loop_outcome qe docs []) as O.
  unfold EmbeddingService.find_similar_documents.
  split; intros D; rewrite D in O.
  - rewrite O. reflexivity.
  - destruct O as [sims L]. rewrite L. simpl.
    apply similarities_loop_spec in L as (sims' & E & F).
    simpl in E. subst sims'. eexists. split; [reflexivity|]. split.
    + intros Hn. rewrite slice_to_length by exact Hn.
      rewrite sort_length, (Forall2_length_eq F). reflexivity.
    + intros s Hs. apply slice_to_in, sort_in in Hs.
      destruct (Forall2_in_l F s Hs) as (d & Hd & S).
      apply filter_In in Hd as [Hd _].
      pose proof S as [<- _]. auto.
Qed.

Lemma find_similar_documents_results_witness :
  EmbeddingService.find_similar_documents [1%R; 0%R]
    [EmbeddingService.mkDocument 1 (py "a") (py "a.txt") (Some [1%R])] 5
  = Err (ValueError "shapes not aligned").
Proof.
  apply (proj1 (find_similar_documents_results [1%R; 0%R]
                  [EmbeddingService.mkDocument 1 (py "a") (py "a.txt")
                     (Some [1%R])] 5)).
  reflexivity.
Defined.

(** ** simple_rag_service.py: what the sources cite *)

Section SourceFacts.
Import SimpleRAGService.

Lemma count_loop_positive ws c : forall n,
  n < count_loop ws c n -> exists w, In w ws /\ str_in w c = true.
Proof.
  induction ws as [|w ws IH]; intros n H; simpl in H; [lia|].
  destruct (str_in w c) eqn:E.
  - exists w. split; [left; reflexivity | exact E].
  - destruct (IH n H) as (w' & Hw' & E'). exists w'. split; [right|]; assumption.
Qed.

Lemma relevant_loop_member ws rs x :
  In x (relevant_loop ws rs []) ->
  In (resume x) rs /\ score x = counted ws (resume x) /\ 0 < score x.
Proof.
  rewrite relevant_loop_eq. simpl. rewrite in_map_iff.
  intros (r & <- & Hr). apply filter_In in Hr as [Hin Hpos].
  apply Nat.ltb_lt in Hpos. simpl. auto.
Qed.

Lemma top_resumes_member query k user db x :
  In x (top_resumes query k user db) ->
  In (resume x) (resumes_table db) /\ owner_id (resume x) = user /\
  exists w, In w (PyStr.split (lower query)) /\
            occurs_in w (lower (content (resume x))).
Proof.
  unfold top_resumes, relevant_resumes. intros H.
  apply slice_to_in, sort_in, relevant_loop_member in H as (Hr & Hs & Hp).
  apply filter_In in Hr as [Hr Ho]. apply Nat.eqb_eq in Ho.
  split; [exact Hr|]. split; [exact Ho|].
  rewrite Hs in Hp. unfold counted in Hp.
  destruct (count_loop_positive _ _ Hp) as (w & Hw & E).
  exists w. split; [exact Hw | apply str_in_iff, E].
Qed.
End SourceFacts.

(** [ask_question] cites only the caller's own resumes.  For every query,
    bound and database it returns a response; with [k >= 0] it has at
    most [k] sources; every source carries the id and file name of a
    resume owned by the user whose lowercase text contains a word of the
    lowercase query, and every snippet of the source is a verbatim piece
    of that resume's content. *)
Theorem ask_question_sources :
  forall (gen : str -> list SimpleRAGService.Relevant -> str)
         (query : str) (k : Z) (user : nat) (db : Db),
  exists resp,
    SimpleRAGService.ask_question gen query k user db = Ok resp /\
    ((0 <= k)%Z ->
     (length (SimpleRAGService.sources resp) <= Z.to_nat k)%nat) /\
    forall s, In s (SimpleRAGService.sources resp) ->
      exists r,
        In r (resumes_table db) /\ owner_id r = user /\
        SimpleRAGService.src_resume_id s = resume_id r /\
        SimpleRAGService.src_filename s = original_filename r /\
        (exists w, In w (PyStr.split (lower query)) /\
                   occurs_in w (lower (content r))) /\
        forall snippet, In snippet (SimpleRAGService.snippets s) ->
                        occurs_in snippet (content r).
Proof.
  intros gen query k user db.
  destruct (ask_question_total gen query k user db) as (resp & Hrun & Hsrc).
  exists resp. split; [exact Hrun|].
  destruct Hsrc as [-> | ->].
  - split; [simpl; lia | intros s []].
  - split.
    + intros Hk. rewrite length_map. unfold SimpleRAGService.top_resumes.
      rewrite slice_to_length by exact Hk. lia.
    + intros s Hs. apply in_map_iff in Hs as (item & <- & Hitem).
      destruct (top_resumes_member _ _ _ _ _ Hitem) as (Hr & Ho & Hw).
      exists (SimpleRAGService.resume item). simpl.
      repeat split; try assumption; try reflexivity.
      intros snippet. apply extract_snippets_occurs.
Qed.

(** ** matching_service.py: the evidence engine *)

Section EvidenceMoreFacts.
Import MatchingService.

Lemma has_similar_loop_short words content :
  Forall (fun w => length w <= 3) words ->
  has_similar_loop words content = false.
Proof.
  induction 1 as [|w words Hw _ IH]; simpl; [reflexivity|].
  replace (3 <? length w) with false
    by (symmetry; apply Nat.ltb_ge; exact Hw).
  exact IH.
Qed.

Lemma education_loop_length jt rc resume terms : forall acc,
  length (education_loop jt rc resume terms acc) <= length acc + length terms.
Proof.
  induction terms as [|t terms IH]; intros acc; simpl; [lia|].
  destruct (str_in t jt && str_in t rc).
  - specialize (IH (acc ++ [mkEvidence (py "Education: " ++ t)
                             (_find_context t (content resume))
                             education_match])).
    rewrite length_app in IH. simpl in IH. lia.
  - specialize (IH acc). lia.
Qed.

Lemma experience_length job resume :
  length (_check_experience_match job resume) <= 1.
Proof.
  unfold _check_experience_match.
  destruct (years_first None (lower (description job))); [|simpl; lia].
  destruct (years_first None (lower (content resume))); [|simpl; lia].
  destruct (_ <=? _); simpl; lia.
Qed.

Lemma collapse_from_length s : forall in_run,
  length (Spec.collapse_from in_run s) <= length s.
Proof.
  induction s as [|c s IH]; intros in_run; simpl; [lia|].
  pose proof (IH true). pose proof (IH false).
  destruct (is_space c); [destruct in_run|]; simpl; lia.
Qed.

Lemma find_none_iff term : forall text,
  PyStr.find term text = None <-> str_in term text = false.
Proof.
  induction text as [|c text IH]; simpl.
  - destruct (startswith term []); simpl; split; congruence.
  - destruct (startswith term (c :: text)); simpl; [split; congruence|].
    rewrite <- IH. destruct (PyStr.find term text); simpl;
      split; congruence.
Qed.
End EvidenceMoreFacts.

(** The evidence list is laid out in three blocks: one [skill_match] item
    for every requirement whose lowercase form occurs in the lowercase
    text, in the order of the requirements; then at most one
    [experience_match] item; then at most six [education_match] items.
    The missing requirements are the requirements that neither occur nor
    have a similar term, in their order and with their multiplicity. *)
Theorem evidence_layout :
  forall (job : Job) (resume : Resume),
    let found := fun r => str_in (lower r) (lower (content resume)) in
    let similar := fun r =>
      MatchingService._has_similar_term (lower r) (lower (content resume)) in
    exists experience education,
      MatchingService._extract_evidence job resume
      = map (MatchingService.skill_item resume)
          (filter found (requirements job))
        ++ experience ++ education /\
      Forall (fun e => MatchingService.ev_type e
                       = MatchingService.experience_match) experience /\
      length experience <= 1 /\
      Forall (fun e => MatchingService.ev_type e
                       = MatchingService.education_match) education /\
      length education <= 6 /\
      MatchingService._find_missing_requirements job resume
      = filter (fun r => negb (found r) && negb (similar r))
          (requirements job).
Proof.
  intros job resume found similar.
  exists (MatchingService._check_experience_match job resume),
         (MatchingService._check_education_match job resume).
  split; [apply extract_evidence_eq|].
  split; [apply experience_items|].
  split; [apply experience_length|].
  split; [apply education_loop_items; constructor|].
  split; [apply (education_loop_length _ _ resume
                   MatchingService.education_terms [])|].
  unfold MatchingService._find_missing_requirements.
  rewrite missing_loop_eq. reflexivity.
Qed.

(** A requirement all of whose words have at most three characters (SQL,
    AWS, Go, C++) has no similar term: unless its lowercase form occurs
    in the lowercase text, it is reported missing. *)
Theorem short_requirement_missing :
  forall (job : Job) (resume : Resume) (r : str),
    In r (requirements job) ->
    Forall (fun w => length w <= 3) (PyStr.split (lower r)) ->
    str_in (lower r) (lower (content resume)) = false ->
    In r (MatchingService._find_missing_requirements job resume).
Proof.
  intros job resume r Hin Hshort Hnot.
  apply missing_iff. split; [exact Hin|]. split; [exact Hnot|].
  apply has_similar_loop_short, Hshort.
Qed.

Lemma short_requirement_missing_witness :
  In (py "SQL")
    (MatchingService._find_missing_requirements Samples.programming_job
       (Samples.resume_with 9 1 "MySQ and NoSQ databases" None)).
Proof.
  apply short_requirement_missing.
  - right. left. reflexivity.
  - vm_compute. repeat constructor.
  - reflexivity.
Defined.

(** The context of a term is empty when the term does not occur in the
    lowercase content, and never longer than the term plus 200
    characters. *)
Theorem find_context_bounds :
  forall (term content : str),
    (str_in term (lower content) = false ->
     MatchingService._find_context term content = []) /\
    length (MatchingService._find_context term content)
    <= length term + 200.
Proof.
  intros term content. unfold MatchingService._find_context. split.
  - intros H. apply find_none_iff in H. rewrite H. reflexivity.
  - destruct (PyStr.find term (lower content)) as [pos|]; [|simpl; lia].
    eapply Nat.le_trans; [apply occurs_in_length, occurs_in_strip|].
    unfold Re.sub. rewrite (proj1 (sub_spaces_collapse _)).
    eapply Nat.le_trans; [apply collapse_from_length|].
    unfold slice. rewrite length_firstn. lia.
Qed.

Lemma find_context_bounds_witness :
  MatchingService._find_context (py "rust") (py "Python developer") = [].
Proof.
  apply (proj1 (find_context_bounds (py "rust") (py "Python developer"))).
  reflexivity.
Defined.

(** ** embedding_service.py: the shape of cleaned text *)

Section CleanShapeFacts.
Import EmbeddingService.

Lemma clean_text_unfold text :
  _clean_text text
  = join (py " ")
      (filter (fun w => 2 <? length w)
         (PyStr.split (lower (filter kept (Spec.collapse_from false text))))).
Proof.
  unfold _clean_text, Re.sub, Re.not_cls.
  rewrite (proj1 (sub_spaces_collapse text)), sub_cls_delete.
  rewrite (filter_ext (fun c => negb (negb (kept c))) kept)
    by (intros c; apply negb_involutive).
  reflexivity.
Qed.

Lemma split_go_words s : forall word w,
  Forall (fun c => is_space c = false) word ->
  In w (PyStr.split_go word s) -> plain_word w.
Proof.
  induction s as [|c s IH]; intros word w Hword Hw; simpl in Hw.
  - destruct word as [|x word]; [destruct Hw|].
    destruct Hw as [<- | []]. split; [discriminate | exact Hword].
  - destruct (is_space c) eqn:E.
    + destruct word as [|x word].
      * apply (IH [] w); [constructor | exact Hw].
      * destruct Hw as [<- | Hw]; [split; [discriminate | exact Hword]|].
        apply (IH [] w); [constructor | exact Hw].
    + apply (IH (word ++ [c]) w); [|exact Hw].
      apply Forall_app. split; [exact Hword | repeat constructor; exact E].
Qed.

Lemma split_go_app w : forall word s,
  Forall (fun c => is_space c = false) w ->
  PyStr.split_go word (w ++ s) = PyStr.split_go (word ++ w) s.
Proof.
  induction w as [|c w IH]; intros word s H; simpl.
  - rewrite app_nil_r. reflexivity.
  - inversion H as [|? ? Hc Hw]; subst. rewrite Hc.
    rewrite IH by exact Hw. rewrite <- app_assoc. reflexivity.
Qed.

Lemma split_join ws :
  Forall plain_word ws -> PyStr.split (join (py " ") ws) = ws.
Proof.
  unfold PyStr.split.
  induction 1 as [|w ws [Hne Hw] Hws IH]; [reflexivity|].
  destruct ws as [|w' ws].
  - simpl. rewrite <- (app_nil_r w) at 1.
    rewrite split_go_app by exact Hw. simpl.
    destruct w; [congruence | reflexivity].
  - change (join (py " ") (w :: w' :: ws))
      with (w ++ py " " ++ join (py " ") (w' :: ws)).
    rewrite split_go_app by exact Hw. simpl.
    destruct w as [|x w]; [congruence|]. simpl. f_equal. exact IH.
Qed.

Lemma collapse_from_word w : forall in_run s,
  plain_word w ->
  Spec.collapse_from in_run (w ++ s) = w ++ Spec.collapse_from false s.
Proof.
  intros in_run s [Hne Hw]. revert in_run.
  induction Hw as [|c w Hc Hw IH]; [congruence|]. intros in_run. simpl.
  rewrite Hc. f_equal. destruct w as [|d w]; [reflexivity|].
  apply IH. discriminate.
Qed.

Lemma collapse_join ws :
  Forall plain_word ws ->
  Spec.collapse_from false (join (py " ") ws) = join (py " ") ws.
Proof.
  induction 1 as [|w ws Hw Hws IH]; [reflexivity|].
  destruct ws as [|w' ws].
  - simpl. rewrite <- (app_nil_r w) at 1.
    rewrite collapse_from_word by exact Hw. simpl. apply app_nil_r.
  - change (join (py " ") (w :: w' :: ws))
      with (w ++ py " " ++ join (py " ") (w' :: ws)).
    rewrite collapse_from_word by exact Hw. f_equal.
    change (py " " ++ join (py " ") (w' :: ws))
      with (" "%char :: join (py " ") (w' :: ws)).
    cbn [Spec.collapse_from]. change (is_space " ") with true. cbn iota.
    f_equal.
    assert (E : exists rest, join (py " ") (w' :: ws) = w' ++ rest).
    { destruct ws; [exists []; simpl; symmetry; apply app_nil_r|].
      eexists. reflexivity. }
    destruct E as [rest E]. inversion Hws as [|? ? Hw' _]; subst.
    rewrite E in IH |- *. rewrite collapse_from_word in IH |- * by exact Hw'.
    exact IH.
Qed.

Lemma join_head w ws :
  plain_word w ->
  exists c rest, join (py " ") (w :: ws) = c :: rest /\ is_space c = false.
Proof.
  intros [Hne Hw]. destruct w as [|c w]; [congruence|].
  inversion Hw; subst. destruct ws; simpl; eauto.
Qed.

Lemma join_last ws :
  Forall plain_word ws -> ws <> [] ->
  exists init c, join (py " ") ws = init ++ [c] /\ is_space c = false.
Proof.
  induction 1 as [|w ws [Hne Hw] Hws IH]; [congruence|]. intros _.
  destruct ws as [|w' ws].
  - destruct (exists_last Hne) as (init & c & ->).
    exists init, c. split; [reflexivity|].
    apply Forall_app in Hw as [_ Hc]. inversion Hc; assumption.
  - destruct IH as (init & c & E & Hc); [discriminate|].
    exists (w ++ py " " ++ init), c. split; [|exact Hc].
    change (join (py " ") (w :: w' :: ws))
      with (w ++ py " " ++ join (py " ") (w' :: ws)).
    rewrite E, <- !app_assoc. reflexivity.
Qed.

Lemma strip_join ws :
  Forall plain_word ws -> strip (join (py " ") ws) = join (py " ") ws.
Proof.
  intros H. destruct ws as [|w ws]; [reflexivity|].
  unfold strip, rstrip.
  inversion H as [|? ? Hw Hws]; subst.
  destruct (join_head ws Hw) as (c & rest & E & Hc).
  assert (L : lstrip (join (py " ") (w :: ws)) = join (py " ") (w :: ws)).
  { rewrite E. simpl. rewrite Hc. reflexivity. }
  rewrite L.
  destruct (join_last H) as (init & d & E' & Hd); [discriminate|].
  rewrite E', rev_app_distr. simpl. rewrite Hd. simpl.
  rewrite rev_involutive. reflexivity.
Qed.

Lemma filter_all_true {X : Type} (p : X -> bool) l :
  Forall (fun x => p x = true) l -> filter p l = l.
Proof.
  induction 1 as [|x l Hx _ IH]; simpl; [reflexivity|].
  rewrite Hx, IH. reflexivity.
Qed.

Lemma lower_no_upper s :
  Forall (fun c => is_upper c = false) s -> lower s = s.
Proof.
  induction 1 as [|c s Hc _ IH]; simpl; [reflexivity|].
  unfold lower_char. rewrite Hc. f_equal. exact IH.
Qed.

(** The characters of the output, by the lemmas on its parts. *)
Lemma clean_text_chars text c :
  In c (_clean_text text) -> kept c = true /\ is_upper c = false.
Proof.
  rewrite clean_text_unfold. intros Hc.
  apply join_chars in Hc as [[<- | []] | (w & Hw & Hc)];
    [split; reflexivity|].
  apply filter_In in Hw as [Hw _].
  destruct (split_go_chars _ _ _ c Hw Hc) as [[] | H].
  apply in_map_iff in H as (c' & <- & Hc').
  apply filter_In in Hc' as [_ Hk]. apply kept_lower_char, Hk.
Qed.

Lemma clean_text_words text :
  exists words,
    _clean_text text = join (py " ") words /\
    Forall plain_word words /\
    Forall (fun w => 2 < length w) words.
Proof.
  rewrite clean_text_unfold. eexists. split; [reflexivity|].
  split; apply Forall_forall; intros w Hw; apply filter_In in Hw as [Hw L].
  - eapply split_go_words; [|exact Hw]. constructor.
  - apply Nat.ltb_lt, L.
Qed.
End CleanShapeFacts.

(** The cleaned text is a list of tokens of at least three characters,
    without white space inside, joined by single blanks: splitting it
    gives the tokens back, and it has no blank at either end. *)
Theorem clean_text_shape :
  forall text : str,
    exists words,
      EmbeddingService._clean_text text = join (py " ") words /\
      PyStr.split (EmbeddingService._clean_text text) = words /\
      strip (EmbeddingService._clean_text text)
      = EmbeddingService._clean_text text /\
      Forall (fun w => 3 <= length w /\
                       Forall (fun c => is_space c = false) w) words.
Proof.
  intros text. destruct (clean_text_words text) as (words & E & Hp & Hl).
  exists words. rewrite E. split; [reflexivity|].
  split; [apply split_join, Hp|]. split.
  - apply strip_join, Hp.
  - apply Forall_forall. intros w Hw. rewrite Forall_forall in Hp, Hl.
    split; [exact (Hl w Hw) | exact (proj2 (Hp w Hw))].
Qed.

(** Cleaning an ASCII text that is already clean changes nothing.  (The
    character classes of the model are those of ASCII, so the statement
    is made for such text.) *)
Theorem clean_text_idempotent :
  forall text : str,
    Forall (fun c => code c < 128) text ->
    EmbeddingService._clean_text (EmbeddingService._clean_text text)
    = EmbeddingService._clean_text text.
Proof.
  intros text _.
  pose proof (clean_text_chars text) as Hc.
  destruct (clean_text_words text) as (words & E & Hp & Hl).
  rewrite clean_text_unfold. rewrite E in Hc |- *.
  rewrite collapse_join by exact Hp.
  rewrite (filter_all_true EmbeddingService.kept)
    by (apply Forall_forall; intros c H; exact (proj1 (Hc c H))).
  rewrite lower_no_upper
    by (apply Forall_forall; intros c H; exact (proj2 (Hc c H))).
  rewrite split_join by exact Hp.
  rewrite filter_all_true; [reflexivity|].
  apply Forall_forall. intros w Hw. rewrite Forall_forall in Hl.
  apply Nat.ltb_lt, Hl, Hw.
Qed.

Lemma clean_text_idempotent_witness :
  EmbeddingService._clean_text
    (EmbeddingService._clean_text (py "  Senior C++ Developer, at ACME!  "))
  = EmbeddingService._clean_text (py "  Senior C++ Developer, at ACME!  ").
Proof.
  apply clean_text_idempotent. repeat constructor.
Defined.

(** ** file_processing_service.py: the extension of a saved upload *)

Section SavedPathFacts.
Import OsPath.

Lemma rfind_from_app c t : forall q i last,
  Forall (fun x => ascii_eqb x c = false) t ->
  rfind_from c (q ++ t) i last = rfind_from c q i last.
Proof.
  intros q i last H. revert i last.
  induction q as [|x q IH]; intros i last; simpl; [|apply IH].
  revert i last. induction H as [|x t Hx _ IH]; intros i last; simpl;
    [reflexivity|].
  rewrite Hx. apply IH.
Qed.

Lemma rfind_from_range c q : forall i last,
  (last < i)%Z ->
  (last <= rfind_from c q i last < i + Z.of_nat (length q))%Z
  \/ (rfind_from c q i last = last /\ q = []).
Proof.
  induction q as [|x q IH]; intros i last H; simpl; [right; auto|].
  left. destruct (ascii_eqb x c).
  - destruct (IH (i + 1)%Z i ltac:(lia)) as [R | [-> _]]; lia.
  - destruct (IH (i + 1)%Z last ltac:(lia)) as [R | [-> _]]; lia.
Qed.

Lemma rfind_range c q : (-1 <= rfind c q < Z.of_nat (length q))%Z
                        \/ (rfind c q = (-1)%Z /\ q = []).
Proof.
  unfold rfind.
  destruct (@rfind_from_range c q 0%Z (-1)%Z ltac:(lia)); [left|right];
    lia || assumption.
Qed.

(** The extension of a path that ends with a piece free of dots and
    slashes is empty or longer than that piece. *)
Lemma splitext_suffix q t :
  Forall (fun x => ascii_eqb x "." = false) t ->
  snd (splitext (q ++ t)) = [] \/
  length t < length (snd (splitext (q ++ t))).
Proof.
  intros Hdot.
  assert (E : rfind "." (q ++ t) = rfind "." q).
  { unfold rfind. apply rfind_from_app. exact Hdot. }
  unfold splitext. rewrite E.
  destruct (rfind "/" (q ++ t) <? rfind "." q)%Z eqn:C; [|left; reflexivity].
  destruct (some_not_dot _); [|left; reflexivity].
  right. simpl. rewrite length_skipn, length_app.
  apply Z.ltb_lt in C.
  destruct (rfind_range "." q) as [R | [R _]];
    destruct (rfind_range "/" (q ++ t)) as [R' | [R' _]]; lia.
Qed.

Lemma hex_no_dot c : FileProcessingService.is_hex c = true ->
                     ascii_eqb c "." = false.
Proof.
  destruct c as [[] [] [] [] [] [] [] []]; vm_compute; intros H;
    try discriminate H; reflexivity.
Qed.

Lemma str_eqb_length a b : str_eqb a b = true -> length a = length b.
Proof. intros H. apply str_eqb_eq in H. congruence. Qed.

Lemma lower_length s : length (lower s) = length s.
Proof. apply length_map. Qed.

(** The path of a saved upload ends with the underscore and the token. *)
Lemma save_file_suffix file token :
  exists q, FileProcessingService.save_file file token
            = q ++ (py "_" ++ token).
Proof.
  unfold FileProcessingService.save_file, join.
  destruct (startswith (py "/") _).
  - eexists. reflexivity.
  - simpl. eexists ("u" :: "p" :: "l" :: "o" :: "a" :: "d" :: "s" :: "/"
                      :: ResumeService.file_filename file)%char.
    reflexivity.
Qed.
End SavedPathFacts.

(** No upload is ever parsed.  [save_file] appends an underscore and
    sixteen hexadecimal digits to the file name, so the extension that
    [process_resume_file] reads off the saved path is empty or ends with
    that suffix; it is none of [.pdf], [.docx], [.txt], [.zip], and the
    call raises "Unsupported file type" whatever the file is.  Hence
    [upload_resume] either returns the record already stored under the
    idempotency key or raises, and stores nothing. *)
Theorem saved_upload_is_never_supported :
  forall (_process_pdf _process_docx _process_txt _process_zip :
            str -> result (str * FileProcessingService.metadata_dict))
         (file : ResumeService.UploadFile) (token : str),
    length token = 16 ->
    Forall (fun c => FileProcessingService.is_hex c = true) token ->
    (exists file_ext,
       FileProcessingService.process_resume_file
         _process_pdf _process_docx _process_txt _process_zip
         (FileProcessingService.save_file file token)
       = Err (ValueError ("Unsupported file type: " ++ file_ext))) /\
    (forall owner key uuid4 db e,
       ResumeService.upload_resume file owner key uuid4 (Err e) db = Err e
       \/ exists existing,
            ResumeService.upload_resume file owner key uuid4 (Err e) db
            = Ok (db, existing)).
Proof.
  intros pdf docx txt zip file token Hlen Hhex. split.
  - unfold FileProcessingService.process_resume_file.
    destruct (save_file_suffix file token) as [q ->].
    assert (Hdot : Forall (fun x => ascii_eqb x "." = false)
                     (py "_" ++ token)).
    { constructor; [reflexivity|].
      apply Forall_forall. intros c Hc. rewrite Forall_forall in Hhex.
      apply hex_no_dot, Hhex, Hc. }
    pose proof (splitext_suffix q Hdot) as S.
    set (ext := lower (snd (OsPath.splitext (q ++ py "_" ++ token)))) in *.
    assert (L : length ext = 0 \/ 17 < length ext).
    { subst ext. rewrite lower_length. destruct S as [-> | S]; [left; reflexivity|].
      right. simpl in S. rewrite Hlen in S. exact S. }
    assert (N : forall s, 0 < length s <= 17 -> str_eqb ext s = false).
    { intros s Hs. destruct (str_eqb ext s) eqn:E; [|reflexivity].
      apply str_eqb_length in E. lia. }
    rewrite !N by (simpl; lia). eexists. reflexivity.
  - intros owner key uuid4 db e. unfold ResumeService.upload_resume.
    destruct (ResumeService.get_by_idempotency_key _ db); [right|left]; eauto.
Qed.

Lemma saved_upload_is_never_supported_witness :
  exists file_ext,
    FileProcessingService.process_resume_file
      (fun _ => Ok ([], FileProcessingService.Combined 0 []))
      (fun _ => Ok ([], FileProcessingService.Combined 0 []))
      (fun _ => Ok ([], FileProcessingService.Combined 0 []))
      (fun _ => Ok ([], FileProcessingService.Combined 0 []))
      (FileProcessingService.save_file
         (ResumeService.mkUploadFile (py "test_resume.txt") 71)
         (py "66168930fa95f668"))
    = Err (ValueError ("Unsupported file type: " ++ file_ext)).
Proof.
  apply (saved_upload_is_never_supported
           (fun _ => Ok ([], FileProcessingService.Combined 0 []))
           (fun _ => Ok ([], FileProcessingService.Combined 0 []))
           (fun _ => Ok ([], FileProcessingService.Combined 0 []))
           (fun _ => Ok ([], FileProcessingService.Combined 0 []))
           (ResumeService.mkUploadFile (py "test_resume.txt") 71)
           (token := py "66168930fa95f668")).
  - reflexivity.
  - vm_compute. repeat constructor.
Defined.

(** ** resume_service.py: idempotency keys and stored records *)

Section UploadMoreFacts.
Import ResumeService.

Lemma find_app_last {X : Type} (f : X -> bool) l x :
  List.find f l = None -> f x = true -> List.find f (l ++ [x]) = Some x.
Proof.
  induction l as [|y l IH]; simpl; intros H Hx.
  - rewrite Hx. reflexivity.
  - destruct (f y); [discriminate | apply IH; assumption].
Qed.

Lemma NoDup_snoc {X : Type} (l : list X) x :
  NoDup l -> ~ In x l -> NoDup (l ++ [x]).
Proof.
  induction 1 as [|y l Hy Hl IH]; simpl; intros Hx.
  - repeat constructor. intros [].
  - constructor.
    + rewrite in_app_iff. simpl. intros [H | [H | []]]; [tauto|].
      apply Hx. left. congruence.
    + apply IH. tauto.
Qed.

Lemma next_id_above db r :
  In r (resumes_table db) -> resume_id r < next_id db.
Proof.
  unfold next_id. induction (resumes_table db) as [|x l IH]; simpl; [tauto|].
  intros [-> | H]; [lia|]. specialize (IH H). lia.
Qed.

Lemma key_not_stored k db :
  get_by_idempotency_key k db = None ->
  ~ In (Some k) (map idempotency_key (resumes_table db)).
Proof.
  unfold get_by_idempotency_key. intros H Hin.
  destruct (List.find (key_is k) (resumes_table db)) eqn:F; [discriminate|].
  apply in_map_iff in Hin as (r & Hk & Hr).
  pose proof (find_none _ _ F r Hr) as N.
  unfold key_is in N. rewrite Hk in N.
  assert (str_eqb k k = true) by (apply str_eqb_eq; reflexivity). congruence.
Qed.

(** What a sequence of uploads keeps true of the table. *)
Lemma after_uploads_keys calls : forall db,
  NoDup (map resume_id (resumes_table db)) ->
  NoDup (map idempotency_key (resumes_table db)) ->
  Forall (fun r => idempotency_key r <> None) (resumes_table db) ->
  NoDup (map resume_id (resumes_table (after_uploads db calls))) /\
  NoDup (map idempotency_key (resumes_table (after_uploads db calls))) /\
  Forall (fun r => idempotency_key r <> None)
    (resumes_table (after_uploads db calls)).
Proof.
  induction calls as [|u calls IH]; intros db Hid Hkey Hsome; simpl; [auto|].
  destruct (upload_resume _ _ _ _ _ db) as [[db' resp]|e] eqn:U; [|auto].
  unfold upload_resume in U.
  set (k := match u_key u with Some (c :: k) => c :: k | _ => u_uuid4 u end)
    in *.
  destruct (get_by_idempotency_key k db) eqn:G.
  - injection U as <- _. auto.
  - destruct (u_processed u) as [p|]; simpl in U; [|discriminate].
    injection U as <- _. apply IH; simpl; rewrite ?map_app; simpl.
    + apply NoDup_snoc; [exact Hid|]. intros Hin.
      apply in_map_iff in Hin as (r & E & Hr).
      apply next_id_above in Hr. lia.
    + apply NoDup_snoc; [exact Hkey|]. apply key_not_stored, G.
    + apply Forall_app. split; [exact Hsome|].
      constructor; [discriminate | constructor].
Qed.
End UploadMoreFacts.

Section ReplayFacts.
Import ResumeService.

Lemma find_app_first {X : Type} (f : X -> bool) l l' x :
  List.find f l = Some x -> List.find f (l ++ l') = Some x.
Proof.
  induction l as [|y l IH]; simpl; [discriminate|].
  destruct (f y); [auto | exact IH].
Qed.

(** A key that is found stays found, with the same record, whatever is
    uploaded afterwards. *)
Lemma key_lookup_kept k resp calls : forall db,
  get_by_idempotency_key k db = Some resp ->
  get_by_idempotency_key k (after_uploads db calls) = Some resp.
Proof.
  induction calls as [|u calls IH]; intros db G; cbn [after_uploads];
    [exact G|].
  destruct (upload_resume _ _ _ _ _ db) as [[db' r]|e] eqn:U;
    [|apply IH, G].
  apply IH.
  apply upload_resume_stores_none in U as [-> | (row & -> & _)]; [exact G|].
  unfold get_by_idempotency_key in *. cbn [resumes_table].
  destruct (List.find (key_is k) (resumes_table db)) as [x|] eqn:F;
    [|discriminate].
  rewrite (find_app_first _ _ _ F). exact G.
Qed.

(** After a call with a non-empty key has returned, the key is found. *)
Lemma uploaded_key_found file owner c k uuid4 processed db db1 resp1 :
  upload_resume file owner (Some (c :: k)) uuid4 processed db
  = Ok (db1, resp1) ->
  get_by_idempotency_key (c :: k) db1 = Some resp1.
Proof.
  unfold upload_resume.
  destruct (get_by_idempotency_key (c :: k) db) as [existing|] eqn:G.
  - intros H. injection H as <- <-. exact G.
  - destruct processed as [p|]; simpl; [|discriminate].
    intros H. injection H as <- <-.
    unfold get_by_idempotency_key in *. simpl.
    destruct (List.find (key_is (c :: k)) (resumes_table db)) eqn:F;
      [discriminate|].
    rewrite (find_app_last _ _ _ F); [reflexivity|].
    unfold key_is. simpl.
    exact (proj2 (@str_eqb_eq (c :: k) (c :: k)) eq_refl).
Qed.
End ReplayFacts.

(** Replaying an idempotency key.  Once a call of [upload_resume] with a
    non-empty key has returned, every later call with that key, after
    any number of other uploads, returns the same response and leaves
    the database as it is, whatever file it carries and whoever makes
    it: the key is looked up without regard to the owner. *)
Theorem upload_resume_replay :
  forall file owner c k uuid4 processed db db1 resp1,
    ResumeService.upload_resume file owner (Some (c :: k)) uuid4 processed db
    = Ok (db1, resp1) ->
    forall (later : list ResumeService.Upload) file' owner' uuid4' processed',
      ResumeService.upload_resume file' owner' (Some (c :: k)) uuid4'
        processed' (ResumeService.after_uploads db1 later)
      = Ok (ResumeService.after_uploads db1 later, resp1).
Proof.
  intros file owner c k uuid4 processed db db1 resp1 H
         later file' owner' uuid4' processed'.
  apply uploaded_key_found in H.
  apply (@key_lookup_kept (c :: k) resp1 later db1) in H.
  unfold ResumeService.upload_resume. rewrite H. reflexivity.
Qed.

Lemma upload_resume_replay_witness :
  let first :=
    ResumeService.mkProcessed (py "uploads/cv") (py "cv") (py "Python")
      (mkMetadata [] [] [] []) in
  let db1 :=
    mkDb [mkResume 1 (py "cv") (py "a.txt") (py "uploads/cv") 120
            (py "Python") None (Some (mkMetadata [] [] [] []))
            (Some (py "key-1")) 1] [] in
  let later :=
    [Samples.txt_upload "c.txt" 3 "Gardener";
     Samples.txt_upload "d.txt" 2 "Java"] in
  ResumeService.upload_resume (ResumeService.mkUploadFile (py "b.txt") 9) 2
    (Some (py "key-1")) (py "u2") (Err (ValueError "unused"))
    (ResumeService.after_uploads db1 later)
  = Ok (ResumeService.after_uploads db1 later,
        ResumeService.mkResumeResponse 1 (py "cv") (py "a.txt") 120
          (py "Python") (Some (mkMetadata [] [] [] [])) 1).
Proof.
  intros first db1 later.
  apply (@upload_resume_replay
           (ResumeService.mkUploadFile (py "a.txt") 120) 1 "k"%char
           (py "ey-1") (py "u1") (Ok first) (mkDb [] [])).
  reflexivity.
Defined.

(** Starting from a table without resumes, uploads keep the ids of the
    stored resumes pairwise distinct and their idempotency keys pairwise
    distinct, and every stored resume has a key. *)
Theorem uploads_keep_ids_and_keys_unique :
  forall (jobs : list Job) (calls : list ResumeService.Upload),
    let db := ResumeService.after_uploads (mkDb [] jobs) calls in
    NoDup (map resume_id (resumes_table db)) /\
    NoDup (map idempotency_key (resumes_table db)) /\
    Forall (fun r => idempotency_key r <> None) (resumes_table db).
Proof.
  intros jobs calls.
  apply after_uploads_keys; simpl; constructor.
Qed.

(** ** resume_service.py: pages and single records *)

Section PageFacts.
Import ResumeService ResumeQueries.

Lemma firstn_add {X : Type} (a b : nat) : forall l : list X,
  firstn a l ++ firstn b (skipn a l) = firstn (a + b) l.
Proof.
  induction a as [|a IH]; intros l; [reflexivity|].
  destruct l as [|x l]; simpl.
  - rewrite firstn_nil. reflexivity.
  - rewrite IH. reflexivity.
Qed.

Lemma skipn_add {X : Type} (a b : nat) : forall l : list X,
  skipn a (skipn b l) = skipn (b + a) l.
Proof.
  induction b as [|b IH]; intros l; [reflexivity|].
  destruct l as [|x l]; simpl; [apply skipn_nil | apply IH].
Qed.
End PageFacts.

(** The pages of [get_resumes].  For limits and offsets that are not
    negative: [total] does not depend on the page; a page has
    min(limit, total - offset) items, each a resume of the owner as it
    is stored, without redaction; [next_offset] is
    [offset + limit] when resumes remain after the page and [None]
    otherwise; and the page at [next_offset] continues the page before
    it, so that two consecutive pages are the page of the summed
    limit. *)
Theorem get_resumes_pages :
  forall (ilike : str -> str -> bool) (limit offset : nat)
         (query : option str) (owner : nat) (db : Db),
    let page := ResumeQueries.get_resumes ilike limit offset query owner db in
    (forall limit' offset',
       ResumeQueries.total
         (ResumeQueries.get_resumes ilike limit' offset' query owner db)
       = ResumeQueries.total page) /\
    length (ResumeQueries.items page)
    = Nat.min limit (ResumeQueries.total page - offset) /\
    Forall (fun item =>
              exists r, In r (resumes_table db) /\ owner_id r = owner /\
                        item = ResumeService.from_orm r)
      (ResumeQueries.items page) /\
    ResumeQueries.next_offset page
    = (if offset + limit <? ResumeQueries.total page
       then Some (offset + limit) else None) /\
    (forall limit',
       ResumeQueries.items page
       ++ ResumeQueries.items
            (ResumeQueries.get_resumes ilike limit' (offset + limit) query
               owner db)
       = ResumeQueries.items
           (ResumeQueries.get_resumes ilike (limit + limit') offset query
              owner db)).
Proof.
  intros ilike limit offset query owner db. unfold ResumeQueries.get_resumes.
  set (rows := match query with
               | Some (c :: q) => filter _ _
               | _ => filter _ (resumes_table db)
               end).
  simpl. split; [reflexivity|]. split; [|split; [|split]].
  - rewrite length_map, length_firstn, length_skipn. reflexivity.
  - apply Forall_forall. intros item Hitem.
    apply in_map_iff in Hitem as (r & <- & Hr). exists r.
    assert (Hrows : In r rows).
    { rewrite <- (firstn_skipn offset rows). apply in_or_app. right.
      rewrite <- (firstn_skipn limit (skipn offset rows)).
      apply in_or_app. left. exact Hr. }
    subst rows.
    destruct query as [[|c q]|]; repeat (apply filter_In in Hrows as [Hrows ?]);
      (split; [exact Hrows|]); (split; [|reflexivity]);
      apply Nat.eqb_eq; assumption.
  - reflexivity.
  - intros limit'. rewrite <- map_app, <- skipn_add, firstn_add. reflexivity.
Qed.

(** [get_resume] returns a record only when the table has a resume with
    that id owned by that owner.  A viewer who is not a recruiter
    receives the content after [redact_pii] and the contact entries after
    redaction; a recruiter, or a call without a viewer, receives what is
    stored. *)
Theorem get_resume_access :
  forall (id owner : nat) (db : Db) (user : option User),
    ((forall r, In r (resumes_table db) ->
                ~ (resume_id r = id /\ owner_id r = owner)) ->
     ResumeQueries.get_resume id owner db user = None) /\
    (forall resp,
       ResumeQueries.get_resume id owner db user = Some resp ->
       exists r,
         In r (resumes_table db) /\ resume_id r = id /\ owner_id r = owner /\
         ResumeService.rr_id resp = id /\
         ResumeService.rr_owner_id resp = owner /\
         match user with
         | Some u =>
             ResumeService.rr_content resp
             = PIIService.redact_pii (content r) u /\
             (is_recruiter u = true ->
              ResumeService.rr_content resp = content r /\
              ResumeService.rr_metadata resp = metadata r) /\
             (is_recruiter u = false ->
              ResumeService.rr_metadata resp
              = option_map
                  (fun m => mkMetadata (skills m) (experience m) (education m)
                              (PIIMetadata.redact_contact_info
                                 (contact_info m)))
                  (metadata r))
         | None => resp = ResumeService.from_orm r
         end).
Proof.
  intros id owner db user. unfold ResumeQueries.get_resume. split.
  - intros H.
    destruct (List.find _ (resumes_table db)) as [r|] eqn:F; [|reflexivity].
    apply find_some in F as [Hr E]. apply andb_prop in E as [E1 E2].
    apply Nat.eqb_eq in E1, E2. destruct (H r Hr). auto.
  - intros resp H.
    destruct (List.find _ (resumes_table db)) as [r|] eqn:F; [|discriminate].
    apply find_some in F as [Hr E]. apply andb_prop in E as [E1 E2].
    apply Nat.eqb_eq in E1, E2. exists r.
    destruct user as [u|]; injection H as <-; simpl;
      do 5 (split; [assumption || reflexivity|]); [|reflexivity].
    split; [reflexivity|].
    unfold PIIService.redact_pii, PIIMetadata.redact_metadata.
    split; intros Hu; rewrite Hu.
    + split; [reflexivity|]. destruct (metadata r); reflexivity.
    + destruct (metadata r); reflexivity.
Qed.

Lemma get_resume_access_witness :
  ResumeQueries.get_resume 1 2 Samples.db_text (Some Samples.alice) = None.
Proof.
  apply (proj1 (get_resume_access 1 2 Samples.db_text (Some Samples.alice))).
  simpl. intros r [<- | [<- | [<- | []]]] [_ H]; discriminate H.
Defined.

(** ** pii_service.py: metadata and the summary *)

Section MetadataFacts.
Import FileProcessingService PIIMetadata.

Local Abbreviation redacted_entry :=
  (fun kv : string * str =>
     (fst kv,
      if String.eqb (fst kv) "email" then py "[EMAIL_REDACTED]"
      else if String.eqb (fst kv) "phone" then py "[PHONE_REDACTED]"
      else if String.eqb (fst kv) "linkedin" then py "[LINKEDIN_REDACTED]"
      else snd kv)).

Lemma redact_contact_info_entries d :
  redact_contact_info d = map redacted_entry d.
Proof.
  unfold redact_contact_info.
  induction d as [|[k v] d IH]; [reflexivity|].
  cbn [set_if_present map fst snd].
  destruct (String.eqb_spec k "email") as [-> | _].
  { cbn [set_if_present String.eqb Ascii.eqb Bool.eqb]. simpl String.eqb.
    cbn iota. rewrite IH. reflexivity. }
  cbn [set_if_present].
  destruct (String.eqb_spec k "phone") as [-> | _].
  { cbn [set_if_present]. simpl String.eqb. cbn iota. rewrite IH.
    reflexivity. }
  cbn [set_if_present].
  destruct (String.eqb_spec k "linkedin") as [-> | _];
    rewrite IH; reflexivity.
Qed.

Lemma redact_contact_info_twice d :
  redact_contact_info (redact_contact_info d) = redact_contact_info d.
Proof.
  rewrite !redact_contact_info_entries, map_map. apply map_ext.
  intros [k v]. cbn [fst snd].
  destruct (String.eqb k "email"); [reflexivity|].
  destruct (String.eqb k "phone"); [reflexivity|].
  destruct (String.eqb k "linkedin"); reflexivity.
Qed.

Lemma extract_contact_info_keys content :
  Forall (fun kv => fst kv = "email"%string \/ fst kv = "phone"%string
                    \/ fst kv = "linkedin"%string)
    (_extract_contact_info content).
Proof.
  unfold _extract_contact_info.
  destruct (ReText.search (ReText.whole false PIIService.email_re) content)
    as [[? ?]|];
    destruct (ReText.search (ReText.whole false PIIService.phone_re) content)
      as [[? ?]|];
    destruct (ReText.search (ReText.whole false PIIService.linkedin_re)
                content) as [[? ?]|];
    cbn [app]; repeat (apply Forall_cons || apply Forall_nil); cbn [fst];
    auto.
Qed.

Lemma findall_go_none icase r s : forall prev,
  ReText.findall_go (ReText.whole icase r) prev s 0 = []
  <-> Re.search_from icase r prev s = false.
Proof.
  induction s as [|c s IH]; intros prev; simpl; unfold ReText.whole.
  - destruct (Re.match_at icase r prev []); split; congruence.
  - destruct (Re.match_at icase r prev (c :: s)).
    + split; discriminate.
    + apply IH.
Qed.

Lemma findall_none icase r s :
  ReText.findall (ReText.whole icase r) s = []
  <-> Re.search icase r s = false.
Proof. apply findall_go_none. Qed.

Lemma summary_loop_app patterns text : forall acc,
  summary_loop patterns text acc = acc ++ summary_loop patterns text [].
Proof.
  induction patterns as [|[name r] patterns IH]; intros acc;
    cbn [summary_loop].
  - rewrite app_nil_r. reflexivity.
  - destruct (ReText.findall _ text) as [|m ms]; [apply IH|].
    rewrite IH, (IH ([] ++ _)), app_assoc. reflexivity.
Qed.

Lemma summary_loop_keys patterns text :
  map fst (summary_loop patterns text [])
  = map fst (filter (fun entry => Re.search true (snd entry) text) patterns).
Proof.
  induction patterns as [|[name r] patterns IH]; cbn [summary_loop filter snd];
    [reflexivity|].
  destruct (ReText.findall _ text) as [|m ms] eqn:F.
  - apply findall_none in F. rewrite F. exact IH.
  - destruct (Re.search true r text) eqn:S.
    + rewrite summary_loop_app, map_app, IH. reflexivity.
    + apply findall_none in S. congruence.
Qed.

Lemma summary_loop_values patterns text :
  Forall (fun entry =>
            snd entry <> [] /\
            Forall (fun v => v = title (py (fst entry)) ++ py " found")
              (snd entry))
    (summary_loop patterns text []).
Proof.
  induction patterns as [|[name r] patterns IH]; cbn [summary_loop];
    [constructor|].
  destruct (ReText.findall _ text) as [|m ms]; [exact IH|].
  rewrite summary_loop_app. apply Forall_app. split; [|exact IH].
  repeat constructor; cbn [fst snd map app]; [discriminate|].
  apply Forall_forall. intros v Hv. apply in_map_iff in Hv as (? & <- & _).
  reflexivity.
Qed.
End MetadataFacts.

(** [redact_metadata] for a viewer who is not a recruiter.  Redacting
    twice is redacting once.  In an extracted dictionary the skills,
    experience and education lists and the keys of [contact_info] stay as
    they are, the values at [email], [phone] and [linkedin] become the
    three tokens and every other contact entry keeps its value.  The
    combined dictionary of a ZIP upload has no [contact_info] key of its
    own and is returned as it is, the contact entries of its files
    included. *)
Theorem redact_metadata_contract :
  forall (metadata : FileProcessingService.metadata_dict) (user : User),
    is_recruiter user = false ->
    PIIMetadata.redact_metadata (PIIMetadata.redact_metadata metadata user)
      user
    = PIIMetadata.redact_metadata metadata user /\
    match metadata with
    | FileProcessingService.Extracted m =>
        exists m',
          PIIMetadata.redact_metadata metadata user
          = FileProcessingService.Extracted m' /\
          skills m' = skills m /\ experience m' = experience m /\
          education m' = education m /\
          map fst (contact_info m') = map fst (contact_info m) /\
          forall k v,
            In (k, v) (contact_info m') ->
            (k = "email"%string /\ v = py "[EMAIL_REDACTED]") \/
            (k = "phone"%string /\ v = py "[PHONE_REDACTED]") \/
            (k = "linkedin"%string /\ v = py "[LINKEDIN_REDACTED]") \/
            (k <> "email"%string /\ k <> "phone"%string /\
             k <> "linkedin"%string /\ In (k, v) (contact_info m))
    | FileProcessingService.Combined _ _ =>
        PIIMetadata.redact_metadata metadata user = metadata
    end.
Proof.
  intros metadata user Hu. unfold PIIMetadata.redact_metadata. rewrite Hu.
  destruct metadata as [m | n files]; [|split; reflexivity].
  cbn [skills experience education contact_info].
  rewrite redact_contact_info_twice. split; [reflexivity|].
  eexists. split; [reflexivity|].
  cbn [skills experience education contact_info].
  rewrite redact_contact_info_entries, map_map. cbn [fst].
  repeat (split; [reflexivity|]).
  intros k v Hin. apply in_map_iff in Hin as ([k' v'] & E & Hin).
  cbn [fst snd] in E. injection E as -> <-.
  destruct (String.eqb_spec k "email"); [auto|].
  destruct (String.eqb_spec k "phone"); [auto|].
  destruct (String.eqb_spec k "linkedin"); [auto 6|]. auto 8.
Qed.

Lemma redact_metadata_contract_witness :
  PIIMetadata.redact_metadata
    (PIIMetadata.redact_metadata
       (FileProcessingService.Extracted
          (mkMetadata [py "python"] [] []
             [("email"%string, py "ann@mail.org");
              ("city"%string, py "Oslo")]))
       Samples.alice)
    Samples.alice
  = FileProcessingService.Extracted
      (mkMetadata [py "python"] [] []
         [("email"%string, py "[EMAIL_REDACTED]");
          ("city"%string, py "Oslo")]).
Proof.
  refine (eq_trans
            (proj1 (@redact_metadata_contract
                      (FileProcessingService.Extracted
                         (mkMetadata [py "python"] [] []
                            [("email"%string, py "ann@mail.org");
                             ("city"%string, py "Oslo")]))
                      Samples.alice _)) _);
    reflexivity.
Defined.

(** Extraction followed by redaction.  Whatever the text of a resume, the
    contact entries that [_extract_metadata] finds in it and
    [redact_metadata] then shows to a viewer who is not a recruiter hold
    redaction tokens only: no address, number or profile found in the
    text is left in them. *)
Theorem extracted_contact_info_is_redacted :
  forall (content : str) (user : User),
    is_recruiter user = false ->
    exists m',
      PIIMetadata.redact_metadata
        (FileProcessingService.Extracted
           (FileProcessingService._extract_metadata content)) user
      = FileProcessingService.Extracted m' /\
      map fst (contact_info m')
      = map fst (FileProcessingService._extract_contact_info content) /\
      Forall (fun kv =>
                In (snd kv) [py "[EMAIL_REDACTED]"; py "[PHONE_REDACTED]";
                             py "[LINKEDIN_REDACTED]"])
        (contact_info m').
Proof.
  intros content user Hu. unfold PIIMetadata.redact_metadata. rewrite Hu.
  eexists. split; [reflexivity|].
  cbn [contact_info FileProcessingService._extract_metadata].
  rewrite redact_contact_info_entries, map_map. cbn [fst].
  split; [reflexivity|].
  apply Forall_forall. intros kv Hin.
  apply in_map_iff in Hin as ([k v] & <- & Hin).
  pose proof (extract_contact_info_keys content) as K.
  rewrite Forall_forall in K. specialize (K _ Hin). cbn [fst snd] in *.
  destruct K as [-> | [-> | ->]]; simpl; auto.
Qed.

Lemma extracted_contact_info_is_redacted_witness :
  exists m',
    PIIMetadata.redact_metadata
      (FileProcessingService.Extracted
         (FileProcessingService._extract_metadata Samples.contact_line))
      Samples.alice
    = FileProcessingService.Extracted m' /\
    map fst (contact_info m')
    = map fst (FileProcessingService._extract_contact_info
                 Samples.contact_line) /\
    Forall (fun kv =>
              In (snd kv) [py "[EMAIL_REDACTED]"; py "[PHONE_REDACTED]";
                           py "[LINKEDIN_REDACTED]"])
      (contact_info m').
Proof.
  apply (@extracted_contact_info_is_redacted Samples.contact_line
           Samples.alice).
  reflexivity.
Defined.

(** The summary of [extract_pii_summary] has one entry for each of the
    eight types whose pattern matches somewhere in the text, in the order
    of the patterns; an entry is a non-empty list whose items all read
    "<Type> found", so no matched text is in it.  When the summary is
    empty, [redact_pii] returns the text unchanged for every viewer. *)
Theorem pii_summary_reports_matching_types :
  forall text : str,
    map fst (PIIMetadata.extract_pii_summary text)
    = map fst (filter (fun entry => Re.search true (snd entry) text)
                 PIIService.pii_patterns) /\
    Forall (fun entry =>
              snd entry <> [] /\
              Forall (fun v =>
                        v = PIIMetadata.title (py (fst entry)) ++ py " found")
                (snd entry))
      (PIIMetadata.extract_pii_summary text) /\
    (PIIMetadata.extract_pii_summary text = [] ->
     forall user, PIIService.redact_pii text user = text).
Proof.
  intros text. unfold PIIMetadata.extract_pii_summary.
  split; [apply summary_loop_keys|]. split; [apply summary_loop_values|].
  intros E user. unfold PIIService.redact_pii.
  destruct (is_recruiter user); [reflexivity|].
  apply redact_loop_no_match.
  pose proof (summary_loop_keys PIIService.pii_patterns text) as K.
  rewrite E in K. cbn [map] in K. symmetry in K. apply map_eq_nil in K.
  apply forallb_forall. intros entry Hentry.
  destruct (Re.search true (snd entry) text) eqn:S; [|reflexivity].
  assert (Hin : In entry
            (filter (fun entry => Re.search true (snd entry) text)
               PIIService.pii_patterns))
    by (apply filter_In; auto).
  rewrite K in Hin. destruct Hin.
Qed.

(** ** file_processing_service.py: what the extractors report *)

Section MatchTextFacts.
Import Re.
Variable icase : bool.

(** A matcher passes a suffix of its input to its continuation. *)
Local Abbreviation passes_suffix m :=
  (forall (A : Type) prev s (k : cont A) x,
     m A prev s k = Some x ->
     exists p' s' before, s = before ++ s' /\ k p' s' = Some x).

Lemma rep_opt_suffix (m : forall A : Type, matcher A) :
  passes_suffix m ->
  forall (A : Type) n extra prev s (k : cont A) x,
    rep_opt (m A) extra n prev s k = Some x ->
    exists p' s' before, s = before ++ s' /\ k p' s' = Some x.
Proof.
  intros Hm A n.
  induction n as [|n IH]; intros extra prev s k x H; cbn [rep_opt] in H.
  - exists prev, s, []. auto.
  - destruct extra as [[|e]|]; [exists prev, s, []; auto | |];
      (destruct (m A prev s _) as [y|] eqn:M;
       [ injection H as ->;
         destruct (Hm _ _ _ _ _ M) as (p1 & s1 & b1 & -> & M1);
         destruct (length s1 <? length (b1 ++ s1)); [|discriminate];
         destruct (IH _ _ _ _ _ M1) as (p2 & s2 & b2 & -> & M2);
         exists p2, s2, (b1 ++ b2); rewrite <- app_assoc; auto
       | exists prev, s, []; auto ]).
Qed.

Lemma rep_req_suffix (m after : forall A : Type, matcher A) :
  passes_suffix m -> passes_suffix after ->
  forall (A : Type) lo prev s (k : cont A) x,
    rep_req (m A) lo (after A) prev s k = Some x ->
    exists p' s' before, s = before ++ s' /\ k p' s' = Some x.
Proof.
  intros Hm Hafter A lo.
  induction lo as [|lo IH]; intros prev s k x H; cbn [rep_req] in H.
  - exact (Hafter _ _ _ _ _ H).
  - destruct (Hm _ _ _ _ _ H) as (p1 & s1 & b1 & -> & H1).
    destruct (IH _ _ _ _ H1) as (p2 & s2 & b2 & -> & H2).
    exists p2, s2, (b1 ++ b2). rewrite <- app_assoc. auto.
Qed.

Lemma rmatch_suffix r : passes_suffix (fun A => @rmatch icase A r).
Proof.
  induction r as [|p|a IHa b IHb|a IHa b IHb|lo hi a IHa|];
    intros A prev s k x H; cbn [rmatch] in H.
  - exists prev, s, []. auto.
  - destruct s as [|c s]; [discriminate|].
    destruct (cls_test icase p c); [|discriminate].
    exists (Some c), s, [c]. auto.
  - destruct (IHa _ _ _ _ _ H) as (p1 & s1 & b1 & -> & H1).
    destruct (IHb _ _ _ _ _ H1) as (p2 & s2 & b2 & -> & H2).
    exists p2, s2, (b1 ++ b2). rewrite <- app_assoc. auto.
  - destruct (rmatch icase a prev s k) as [y|] eqn:E.
    + injection H as ->. exact (IHa _ _ _ _ _ E).
    + exact (IHb _ _ _ _ _ H).
  - refine (@rep_req_suffix (fun A => @rmatch icase A a)
              (fun A p' s' k' =>
                 rep_opt (@rmatch icase A a)
                   (option_map (fun h => h - lo) hi) (length s') p' s' k')
              IHa _ A lo prev s k x H).
    intros A' prev' s' k' x' H'.
    exact (@rep_opt_suffix (fun A => @rmatch icase A a) IHa A' _ _ _ _ _ _
             H').
  - destruct (boundary prev s); [|discriminate].
    exists prev, s, []. auto.
Qed.

Lemma match_at_suffix r prev s rest :
  match_at icase r prev s = Some rest -> exists before, s = before ++ rest.
Proof.
  unfold match_at. intros H.
  destruct (@rmatch_suffix r _ _ _ _ _ H) as (p' & s' & before & -> & H1).
  injection H1 as ->. eauto.
Qed.

Lemma firstn_matched (before rest : str) :
  firstn (length (before ++ rest) - length rest) (before ++ rest) = before.
Proof.
  rewrite length_app, Nat.add_sub, firstn_app, Nat.sub_diag, firstn_all.
  simpl. apply app_nil_r.
Qed.

(** The report of [whole] is the matched text, followed in the input by
    the rest. *)
Lemma whole_splits r prev s v rest :
  ReText.whole icase r prev s = Some (v, rest) -> s = v ++ rest.
Proof.
  unfold ReText.whole. intros H.
  destruct (match_at icase r prev s) as [rest'|] eqn:M; [|discriminate].
  injection H as <- <-.
  apply match_at_suffix in M as [before ->].
  rewrite firstn_matched. reflexivity.
Qed.

Lemma group1_prefix group tail prev s v rest :
  ReText.group1 icase group tail prev s = Some (v, rest) ->
  exists after, s = v ++ after.
Proof.
  unfold ReText.group1. intros H.
  destruct (@rmatch_suffix group _ _ _ _ _ H) as (p1 & s1 & b1 & -> & H1).
  destruct (@rmatch_suffix tail _ _ _ _ _ H1) as (p2 & s2 & b2 & -> & H2).
  injection H2 as <- <-. rewrite firstn_matched. eauto.
Qed.
End MatchTextFacts.

Section ReportFacts.
Variable m : ReText.reporter.
Hypothesis m_prefix :
  forall prev s v rest, m prev s = Some (v, rest) -> exists after, s = v ++ after.

Lemma occurs_in_tail v c s : occurs_in v s -> occurs_in v (c :: s).
Proof. intros (b & a & ->). exists (c :: b), a. reflexivity. Qed.

Lemma search_go_occurs s : forall prev v rest,
  ReText.search_go m prev s = Some (v, rest) -> occurs_in v s.
Proof.
  induction s as [|c s IH]; intros prev v rest H; cbn [ReText.search_go] in H.
  - destruct (m prev []) as [[v' r']|] eqn:M; [|discriminate].
    injection H as -> ->. apply m_prefix in M as [a ->]. exists [], a.
    reflexivity.
  - destruct (m prev (c :: s)) as [[v' r']|] eqn:M.
    + injection H as -> ->. apply m_prefix in M as [a ->]. exists [], a.
      reflexivity.
    + apply occurs_in_tail. eapply IH, H.
Qed.

Lemma findall_go_occurs s : forall prev skip v,
  In v (ReText.findall_go m prev s skip) -> occurs_in v s.
Proof.
  induction s as [|c s IH]; intros prev skip v H;
    destruct skip as [|j]; cbn [ReText.findall_go] in H.
  - destruct (m prev []) as [[v' r']|] eqn:M; [|destruct H].
    destruct H as [<- | []]. apply m_prefix in M as [a ->]. exists [], a.
    reflexivity.
  - destruct H.
  - destruct (m prev (c :: s)) as [[v' r']|] eqn:M.
    + destruct H as [<- | H].
      * apply m_prefix in M as [a ->]. exists [], a. reflexivity.
      * apply occurs_in_tail.
        destruct (length (c :: s) - length r'); eapply IH, H.
    + apply occurs_in_tail. eapply IH, H.
  - apply occurs_in_tail. eapply IH, H.
Qed.
End ReportFacts.

Section ExtractorFacts.
Import FileProcessingService.

Lemma whole_prefix icase r :
  forall prev s v rest,
    ReText.whole icase r prev s = Some (v, rest) -> exists after, s = v ++ after.
Proof. intros prev s v rest H. apply whole_splits in H. eauto. Qed.

Lemma search_go_rest icase r s : forall prev v rest,
  ReText.search_go (ReText.whole icase r) prev s = Some (v, rest) ->
  exists before, s = before ++ v ++ rest.
Proof.
  induction s as [|c s IH]; intros prev v rest H; cbn [ReText.search_go] in H.
  - destruct (ReText.whole icase r prev []) as [[v' r']|] eqn:M;
      [|discriminate].
    injection H as -> ->. apply whole_splits in M. exists []. exact M.
  - destruct (ReText.whole icase r prev (c :: s)) as [[v' r']|] eqn:M.
    + injection H as -> ->. apply whole_splits in M. exists []. exact M.
    + apply IH in H as [b ->]. exists (c :: b). reflexivity.
Qed.

Lemma skills_loop_filter keywords text : forall found,
  skills_loop keywords text found
  = found ++ filter (fun skill => str_in skill text) keywords.
Proof.
  induction keywords as [|k keywords IH]; intros found; simpl.
  - rewrite app_nil_r. reflexivity.
  - destruct (str_in k text); rewrite IH, <- ?app_assoc; reflexivity.
Qed.

Lemma Forall_firstn {X : Type} (P : X -> Prop) n l :
  Forall P l -> Forall P (firstn n l).
Proof.
  intros H. apply Forall_forall. intros x Hx.
  rewrite Forall_forall in H. apply H.
  rewrite <- (firstn_skipn n l). apply in_or_app. auto.
Qed.

Lemma section_values_occur icase heading (m : ReText.reporter) width n content :
  (forall prev s v rest,
     m prev s = Some (v, rest) -> exists after, s = v ++ after) ->
  Forall (fun v => occurs_in v content)
    match ReText.search (ReText.whole icase heading) content with
    | Some (_, after) => firstn n (ReText.findall m (firstn width after))
    | None => []
    end.
Proof.
  intros Hm.
  destruct (ReText.search _ content) as [[v after]|] eqn:S; [|constructor].
  apply search_go_rest in S as [before ->].
  apply Forall_firstn, Forall_forall. intros w Hw.
  apply (@findall_go_occurs m Hm) in Hw.
  apply (occurs_in_trans Hw).
  apply (@occurs_in_trans _ after); [apply occurs_in_firstn|].
  exists (before ++ v), []. rewrite app_nil_r, <- app_assoc. reflexivity.
Qed.
End ExtractorFacts.

(** The skills reported for a resume are the keywords that occur in its
    lowercase text, in the order of the keyword list.  The test is
    containment, not a comparison of words: a keyword that is part of a
    reported keyword is reported as well (java with javascript), and so
    is one that occurs inside any other word of the text. *)
Theorem extract_skills_keywords :
  forall content : str,
    FileProcessingService._extract_skills content
    = filter (fun skill => str_in skill (lower content))
        FileProcessingService.skills_keywords /\
    (forall a b,
       In a FileProcessingService.skills_keywords ->
       In b (FileProcessingService._extract_skills content) ->
       occurs_in a b ->
       In a (FileProcessingService._extract_skills content)) /\
    (In (py "javascript") (FileProcessingService._extract_skills content) ->
     In (py "java") (FileProcessingService._extract_skills content)).
Proof.
  intros content. unfold FileProcessingService._extract_skills.
  rewrite skills_loop_filter. cbn [app].
  assert (Hclosed : forall a b,
            In a FileProcessingService.skills_keywords ->
            In b (filter (fun skill => str_in skill (lower content))
                    FileProcessingService.skills_keywords) ->
            occurs_in a b ->
            In a (filter (fun skill => str_in skill (lower content))
                    FileProcessingService.skills_keywords)).
  { intros a b Ha Hb Hab. apply filter_In in Hb as [_ Hb].
    apply filter_In. split; [exact Ha|].
    apply str_in_iff. apply str_in_iff in Hb.
    exact (occurs_in_trans Hab Hb). }
  split; [reflexivity|]. split; [exact Hclosed|].
  intros H. apply (Hclosed (py "java") (py "javascript")); [|exact H|].
  - unfold FileProcessingService.skills_keywords. simpl. auto.
  - exists [], (py "script"). reflexivity.
Qed.

(** The metadata of a resume is made of its text.  Every company under
    [experience], every degree under [education] and every value under
    [contact_info] is a piece of the content, every skill is a keyword
    that is a piece of the lowercase content, and at most five companies
    and three degrees are kept. *)
Theorem extract_metadata_values_occur :
  forall content : str,
    let m := FileProcessingService._extract_metadata content in
    Forall (fun skill =>
              In skill FileProcessingService.skills_keywords /\
              occurs_in skill (lower content)) (skills m) /\
    length (experience m) <= 5 /\
    Forall (fun company => occurs_in company content) (experience m) /\
    length (education m) <= 3 /\
    Forall (fun degree => occurs_in degree content) (education m) /\
    Forall (fun entry => occurs_in (snd entry) content) (contact_info m).
Proof.
  intros content.
  cbn [FileProcessingService._extract_metadata skills experience education
       contact_info].
  split; [|split; [|split; [|split; [|split]]]].
  - unfold FileProcessingService._extract_skills.
    rewrite skills_loop_filter. cbn [app].
    apply Forall_forall. intros skill H. apply filter_In in H as [H1 H2].
    split; [exact H1 | apply str_in_iff, H2].
  - unfold FileProcessingService._extract_experience.
    destruct (ReText.search _ content) as [[v after]|]; [|simpl; lia].
    rewrite length_firstn. lia.
  - apply section_values_occur, whole_prefix.
  - unfold FileProcessingService._extract_education.
    destruct (ReText.search _ content) as [[v after]|]; [|simpl; lia].
    rewrite length_firstn. lia.
  - apply section_values_occur. intros prev s v rest H.
    apply group1_prefix in H. exact H.
  - unfold FileProcessingService._extract_contact_info.
    assert (Hs : forall r v rest,
              ReText.search (ReText.whole false r) content = Some (v, rest) ->
              occurs_in v content).
    { intros r v rest H. apply search_go_rest in H as [b ->]. exists b, rest.
      reflexivity. }
    destruct (ReText.search (ReText.whole false PIIService.email_re) content)
      as [[v1 r1]|] eqn:E1;
      destruct (ReText.search (ReText.whole false PIIService.phone_re)
                  content) as [[v2 r2]|] eqn:E2;
      destruct (ReText.search (ReText.whole false PIIService.linkedin_re)
                  content) as [[v3 r3]|] eqn:E3;
      cbn [app]; repeat (apply Forall_cons || apply Forall_nil); cbn [snd];
      eauto.
Qed.

(** ** rag_service.py and simple_rag_service.py: the answer *)

Section AnswerFacts.
Import AnswerGenerator.
Variable item : Type.
Variable content_of : item -> str.
Variable extract_snippets : str -> str -> list str.
Variable list_of_set : list str -> list str.

Lemma extend_loop_eq extract items : forall found,
  extend_loop content_of extract items found
  = found ++ concat (map (fun i => extract (content_of i)) items).
Proof.
  induction items as [|i items IH]; intros found; cbn [extend_loop map concat].
  - rewrite app_nil_r. reflexivity.
  - destruct (extract (content_of i)) as [|x info].
    + apply IH.
    + rewrite IH, <- app_assoc. reflexivity.
Qed.

Lemma join_first sep p rest : exists after, join sep (p :: rest) = p ++ after.
Proof. destruct rest; simpl; [exists []; rewrite app_nil_r|]; eauto. Qed.

Lemma generate_answer_contact query i rest address after :
  reaches_contact_answer query = true ->
  ReText.search (ReText.whole false PIIService.email_re) (content_of i)
  = Some (address, after) ->
  occurs_in (py "Email: " ++ address)
    (_generate_answer content_of extract_snippets list_of_set query
       (i :: rest)).
Proof.
  unfold reaches_contact_answer. cbv zeta. intros Hq Hs.
  apply andb_prop in Hq as [Hq H4]. apply andb_prop in Hq as [Hq H3].
  apply andb_prop in Hq as [H1 H2].
  apply negb_true_iff in H1, H2, H3.
  unfold _generate_answer. cbv zeta. rewrite H1, H2, H3, H4.
  unfold _generate_contact_answer. cbv zeta.
  rewrite extend_loop_eq. cbn [map concat app].
  assert (E : exists more,
            _extract_contact_from_text (content_of i)
            = (py "Email: " ++ address) :: more).
  { unfold _extract_contact_from_text. cbv zeta. rewrite Hs.
    destruct (ReText.search (ReText.whole false PIIService.phone_re)
                (content_of i)) as [[phone r]|]; cbn [app]; eauto. }
  destruct E as [more ->].
  remember (py "Email: " ++ address) as line eqn:Hline.
  change ((line :: more) ++ ?l) with (line :: more ++ l).
  cbn [firstn].
  match goal with
  | |- context [join ?sep (line :: ?l)] =>
      destruct (join_first sep line l) as [a ->]
  end.
  eexists _, _. rewrite <- app_assoc. reflexivity.
Qed.
End AnswerFacts.

Section RAGFacts.
Import EmbeddingService RAGService.

Lemma documents_loop_eq rs : forall acc,
  documents_loop rs acc
  = acc ++ map (fun r => mkDocument (resume_id r) (content r)
                           (original_filename r) (embeddings r))
             (filter (fun r => truthy (embeddings r)) rs).
Proof.
  induction rs as [|r rs IH]; intros acc; cbn [documents_loop filter map].
  - rewrite app_nil_r. reflexivity.
  - destruct (truthy (embeddings r)); cbn [map].
    + rewrite IH, <- app_assoc. reflexivity.
    + apply IH.
Qed.

Lemma filter_map_documents rs :
  filter (fun d => truthy (doc_embeddings d))
    (map (fun r => mkDocument (resume_id r) (content r)
                     (original_filename r) (embeddings r))
       (filter (fun r => truthy (embeddings r)) rs))
  = map (fun r => mkDocument (resume_id r) (content r)
                    (original_filename r) (embeddings r))
      (filter (fun r => truthy (embeddings r)) rs).
Proof.
  induction rs as [|r rs IH]; simpl; [reflexivity|].
  destruct (truthy (embeddings r)) eqn:T; simpl; [|exact IH].
  rewrite T, IH. reflexivity.
Qed.

Lemma rag_sources_loop_eq query sims : forall acc,
  sources_loop query sims acc
  = acc ++ map (fun s =>
                  mkSource (doc_id (document s)) (doc_filename (document s))
                    (similarity s)
                    (SnippetExtractor._extract_relevant_snippets query
                       (doc_content (document s)))) sims.
Proof.
  induction sims as [|s sims IH]; intros acc; cbn [sources_loop map].
  - rewrite app_nil_r. reflexivity.
  - rewrite IH, <- app_assoc. reflexivity.
Qed.

Lemma similarities_loop_without docs qe : forall acc,
  Forall (fun d => truthy (doc_embeddings d) = false) docs ->
  similarities_loop qe docs acc = Ok acc.
Proof.
  induction docs as [|d docs IH]; intros acc H; cbn [similarities_loop];
    [reflexivity|].
  inversion H as [|? ? Hd Hdocs]; subst.
  destruct (doc_embeddings d) as [[|x e]|]; try discriminate; apply IH, Hdocs.
Qed.

Lemma filter_nil_when {X : Type} (f : X -> bool) l :
  (forall x, In x l -> f x = false) -> filter f l = [].
Proof.
  induction l as [|x l IH]; intros H; simpl; [reflexivity|].
  rewrite (H x) by (left; reflexivity). apply IH. intros y Hy. apply H.
  right. exact Hy.
Qed.

Lemma sort_of_nil {X K : Type} (key : X -> K) leb reverse :
  PyList.sort key leb reverse [] = [].
Proof. destruct reverse; reflexivity. Qed.

Lemma extract_relevant_snippets_eq query text :
  SnippetExtractor._extract_relevant_snippets query text
  = SnippetExtractor._extract_snippets query text.
Proof. reflexivity. Qed.
End RAGFacts.

(** A question whose words occur in none of the caller's resumes, a blank
    question included, is answered without sources and without a
    division by the number of its words: [ask_question] returns the
    sentence for a user without resumes, or the sentence for a search
    without result. *)
Theorem ask_question_without_match :
  forall (list_of_set : list str -> list str) (query : str) (k : Z)
         (user : nat) (db : Db),
    (forall r w,
       In r (resumes_table db) -> owner_id r = user ->
       In w (PyStr.split (lower query)) ->
       ~ occurs_in w (lower (content r))) ->
    SimpleAnswers.ask_question list_of_set query k user db
    = Ok (SimpleRAGService.mkAskResponse
            (match filter (fun r => owner_id r =? user) (resumes_table db)
             with
             | [] => py "No resumes found. Please upload some resumes first."
             | _ =>
                 py ("I couldn't find relevant information in the "
                     ++ "uploaded resumes.")
             end) []).
Proof.
  intros list_of_set query k user db H.
  unfold SimpleAnswers.ask_question.
  destruct (filter (fun r => owner_id r =? user) (resumes_table db))
    as [|r rs] eqn:E.
  - unfold SimpleRAGService.ask_question. rewrite E. reflexivity.
  - rewrite ask_question_run by (rewrite E; discriminate).
    assert (T : SimpleRAGService.top_resumes query k user db = []).
    { destruct (SimpleRAGService.top_resumes query k user db) as [|x l] eqn:T;
        [reflexivity|].
      destruct (@top_resumes_member query k user db x) as (Hr & Ho & w & Hw & O).
      - rewrite T. left. reflexivity.
      - destruct (H _ _ Hr Ho Hw O). }
    rewrite T. reflexivity.
Qed.

Lemma ask_question_without_match_witness :
  SimpleAnswers.ask_question (fun skills => skills) (py "   ") 5 1
    Samples.db_text
  = Ok (SimpleRAGService.mkAskResponse
          (match filter (fun r => owner_id r =? 1)
                   (resumes_table Samples.db_text)
           with
           | [] => py "No resumes found. Please upload some resumes first."
           | _ =>
               py ("I couldn't find relevant information in the "
                   ++ "uploaded resumes.")
           end) []).
Proof.
  apply (@ask_question_without_match (fun skills => skills) (py "   ") 5 1
           Samples.db_text).
  intros r w _ _ Hw. destruct Hw.
Defined.

(** The answer to a question about contact details is not redacted.
    [ask_question] is not told who asks; when the question reaches the
    contact branch and the first ranked resume holds an e-mail address,
    the answer of either service contains "Email: " followed by that
    address as it stands in the resume. *)
Theorem contact_answer_shows_address :
  forall (list_of_set : list str -> list str) (query : str)
         (address after : str),
    reaches_contact_answer query = true ->
    (forall (k : Z) (user : nat) (db : Db) resp top rest,
       SimpleAnswers.ask_question list_of_set query k user db = Ok resp ->
       SimpleRAGService.top_resumes query k user db = top :: rest ->
       ReText.search (ReText.whole false PIIService.email_re)
         (content (SimpleRAGService.resume top))
       = Some (address, after) ->
       occurs_in (py "Email: " ++ address) (SimpleRAGService.answer resp)) /\
    (forall (similar_docs : list EmbeddingService.Similar) top rest,
       similar_docs = top :: rest ->
       ReText.search (ReText.whole false PIIService.email_re)
         (EmbeddingService.doc_content (EmbeddingService.document top))
       = Some (address, after) ->
       occurs_in (py "Email: " ++ address)
         (RAGService._generate_answer list_of_set query similar_docs)).
Proof.
  intros list_of_set query address after Hq. split.
  - intros k user db resp top rest Hrun Htop Hs.
    unfold SimpleAnswers.ask_question in Hrun.
    destruct (filter (fun r => owner_id r =? user) (resumes_table db))
      as [|r rs] eqn:E.
    + unfold SimpleRAGService.top_resumes, SimpleRAGService.relevant_resumes
        in Htop.
      rewrite E in Htop. cbn [SimpleRAGService.relevant_loop] in Htop.
      rewrite sort_of_nil, slice_to_nil in Htop. discriminate.
    + rewrite ask_question_run in Hrun by (rewrite E; discriminate).
      injection Hrun as <-. cbn [SimpleRAGService.answer]. rewrite Htop.
      unfold SimpleAnswers._generate_simple_answer.
      apply (@generate_answer_contact _
               (fun i => content (SimpleRAGService.resume i)) _ _ _ _ _ _ _
               Hq Hs).
  - intros similar_docs top rest -> Hs. unfold RAGService._generate_answer.
    apply (@generate_answer_contact _
             (fun d => EmbeddingService.doc_content
                         (EmbeddingService.document d)) _ _ _ _ _ _ _ Hq Hs).
Qed.

Lemma contact_answer_shows_address_witness :
  occurs_in (py "Email: ann@mail.org")
    (RAGService._generate_answer (fun skills => skills) (py "Email of Ann?")
       [EmbeddingService.mkSimilar
          (EmbeddingService.mkDocument 1 (py "Ann Lee, ann@mail.org")
             (py "ann.txt") None) 1%R]).
Proof.
  refine (proj2 (@contact_answer_shows_address (fun skills => skills)
                   (py "Email of Ann?") (py "ann@mail.org") [] _)
            _ _ [] eq_refl _);
    vm_compute; reflexivity.
Defined.

(** The question about Python over the two sample vectors. *)
Lemma sample_rag_response :
  RAGService.ask_question Samples.unit_encoder (fun skills => skills)
    (py "python") 5 1 Samples.db_vectors
  = Ok RAGSamples.response.
Proof.
  unfold RAGService.ask_question, EmbeddingService.find_similar_documents.
  simpl.
  unfold EmbeddingService.generate_embeddings, Samples.unit_encoder.
  rewrite calculate_similarity_opposed. simpl.
  rewrite calculate_similarity_aligned. simpl.
  rewrite sort_pair_swapped by (simpl; lra).
  rewrite slice_to_all by (simpl; lia). reflexivity.
Qed.

(** The sources of [RAGService.ask_question].  For [k >= 0] there are
    min(k, number of the caller's resumes stored with a non-empty
    vector) of them.  Every source is such a resume; its score is the
    value of the scorer for the query vector and that vector; its
    snippets are pieces of the resume's content. *)
Theorem rag_ask_question_sources :
  forall (encode : str -> list R) (list_of_set : list str -> list str)
         (query : str) (k : Z) (user : nat) (db : Db) resp,
    RAGService.ask_question encode list_of_set query k user db = Ok resp ->
    ((0 <= k)%Z ->
     length (RAGService.sources resp)
     = Nat.min (Z.to_nat k)
         (length (filter (fun r => (owner_id r =? user)
                                   && truthy (embeddings r))
                    (resumes_table db)))) /\
    forall s, In s (RAGService.sources resp) ->
      exists r e,
        In r (resumes_table db) /\ owner_id r = user /\
        embeddings r = Some e /\ e <> [] /\
        RAGService.src_resume_id s = resume_id r /\
        RAGService.src_filename s = original_filename r /\
        EmbeddingService.calculate_similarity
          (EmbeddingService.generate_embeddings encode query) e
        = Ok (RAGService.similarity_score s) /\
        forall snippet, In snippet (RAGService.snippets s) ->
                        occurs_in snippet (content r).
Proof.
  intros encode list_of_set query k user db resp.
  assert (Hcount : filter (fun r => (owner_id r =? user)
                                    && truthy (embeddings r))
                     (resumes_table db)
                   = filter (fun r => truthy (embeddings r))
                       (filter (fun r => owner_id r =? user)
                          (resumes_table db))).
  { induction (resumes_table db) as [|x l IH]; simpl; [reflexivity|].
    destruct (owner_id x =? user); simpl; [|exact IH].
    destruct (truthy (embeddings x)); rewrite IH; reflexivity. }
  rewrite Hcount. clear Hcount. unfold RAGService.ask_question.
  destruct (filter (fun r => owner_id r =? user) (resumes_table db))
    as [|r0 rs] eqn:E.
  { intros H. injection H as <-. cbn [RAGService.sources].
    split; [intros _; simpl; lia | intros s []]. }
  rewrite <- E. clear r0 rs E. rewrite documents_loop_eq. cbn [app].
  unfold EmbeddingService.find_similar_documents.
  set (qe := EmbeddingService.generate_embeddings encode query).
  destruct (EmbeddingService.similarities_loop qe _ []) as [sims|err] eqn:L;
    [|discriminate].
  cbn [bind]. intros H. injection H as <-. cbn [RAGService.sources].
  rewrite rag_sources_loop_eq. cbn [app].
  apply similarities_loop_spec in L as (sims0 & Esims & F).
  cbn [app] in Esims. subst sims0.
  split.
  - intros Hk. rewrite length_map, slice_to_length by exact Hk.
    rewrite sort_length, (Forall2_length F).
    rewrite (filter_map_documents _). rewrite length_map. reflexivity.
  - intros s Hs. apply in_map_iff in Hs as (s' & <- & Hs').
    apply slice_to_in, sort_in in Hs'.
    destruct (Forall2_in_l F s' Hs') as (d & Hd & Hdoc & e & He & Hc).
    apply filter_In in Hd as [Hd Ht].
    apply in_map_iff in Hd as (r & <- & Hr).
    apply filter_In in Hr as [Hr _]. apply filter_In in Hr as [Hr Ho].
    apply Nat.eqb_eq in Ho. cbn [EmbeddingService.doc_embeddings] in He, Ht.
    exists r, e. cbn [RAGService.src_resume_id RAGService.src_filename
                      RAGService.similarity_score RAGService.snippets].
    rewrite Hdoc. cbn [EmbeddingService.doc_id EmbeddingService.doc_filename
                       EmbeddingService.doc_content].
    split; [exact Hr|]. split; [exact Ho|]. split; [exact He|].
    split; [intros ->; rewrite He in Ht; discriminate|].
    do 2 (split; [reflexivity|]). split; [exact Hc|].
    intros snippet. rewrite extract_relevant_snippets_eq.
    apply extract_snippets_occurs.
Qed.

Lemma rag_ask_question_sources_witness :
  ((0 <= 5)%Z ->
   length (RAGService.sources RAGSamples.response)
   = Nat.min (Z.to_nat 5)
       (length (filter (fun r => (owner_id r =? 1) && truthy (embeddings r))
                  (resumes_table Samples.db_vectors)))) /\
  forall s, In s (RAGService.sources RAGSamples.response) ->
    exists r e,
      In r (resumes_table Samples.db_vectors) /\ owner_id r = 1 /\
      embeddings r = Some e /\ e <> [] /\
      RAGService.src_resume_id s = resume_id r /\
      RAGService.src_filename s = original_filename r /\
      EmbeddingService.calculate_similarity
        (EmbeddingService.generate_embeddings Samples.unit_encoder
           (py "python")) e
      = Ok (RAGService.similarity_score s) /\
      forall snippet, In snippet (RAGService.snippets s) ->
                      occurs_in snippet (content r).
Proof.
  apply (@rag_ask_question_sources Samples.unit_encoder (fun skills => skills)
           (py "python") 5 1 Samples.db_vectors RAGSamples.response).
  exact sample_rag_response.
Defined.

(** Questions after uploads.  When none of the caller's resumes is stored
    with a non-empty vector, [RAGService.ask_question] has no source and
    answers with the sentence for a user without resumes or the sentence
    for a search without result; and [upload_resume] stores no vectors,
    so this is the answer in every database that uploads have built. *)
Theorem rag_ask_question_without_embeddings :
  (forall encode list_of_set query k user db,
     (forall r, In r (resumes_table db) -> owner_id r = user ->
                truthy (embeddings r) = false) ->
     RAGService.ask_question encode list_of_set query k user db
     = Ok (RAGService.mkAskResponse
             (match filter (fun r => owner_id r =? user) (resumes_table db)
              with
              | [] => py "No resumes found. Please upload some resumes first."
              | _ =>
                  py ("I couldn't find relevant information in the "
                      ++ "uploaded resumes.")
              end) [])) /\
  (forall encode list_of_set query k user jobs calls,
     exists sentence,
       RAGService.ask_question encode list_of_set query k user
         (ResumeService.after_uploads (mkDb [] jobs) calls)
       = Ok (RAGService.mkAskResponse sentence [])).
Proof.
  assert (G : forall encode list_of_set query k user db,
     (forall r, In r (resumes_table db) -> owner_id r = user ->
                truthy (embeddings r) = false) ->
     RAGService.ask_question encode list_of_set query k user db
     = Ok (RAGService.mkAskResponse
             (match filter (fun r => owner_id r =? user) (resumes_table db)
              with
              | [] => py "No resumes found. Please upload some resumes first."
              | _ =>
                  py ("I couldn't find relevant information in the "
                      ++ "uploaded resumes.")
              end) [])).
  { intros encode list_of_set query k user db H.
    unfold RAGService.ask_question.
    destruct (filter (fun r => owner_id r =? user) (resumes_table db))
      as [|r0 rs] eqn:E; [reflexivity|].
    rewrite <- E. rewrite documents_loop_eq, filter_nil_when.
    - cbn [app map]. unfold EmbeddingService.find_similar_documents.
      cbn [EmbeddingService.similarities_loop bind].
      rewrite sort_of_nil, slice_to_nil. reflexivity.
    - intros r Hr. apply filter_In in Hr as [Hr Ho].
      apply Nat.eqb_eq in Ho. auto. }
  split; [exact G|].
  intros encode list_of_set query k user jobs calls. eexists.
  apply G. intros r Hr _.
  destruct (after_uploads_none calls (mkDb [] jobs)) as [N _];
    [constructor|].
  rewrite Forall_forall in N. rewrite (N r Hr). reflexivity.
Qed.

(** ** auth_service.py: accounts *)

Section AccountFacts.
Import AuthService.

Lemma user_next_id_above users u : In u users -> row_id u < next_id users.
Proof.
  unfold next_id. induction users as [|x l IH]; simpl; [tauto|].
  intros [-> | H]; [lia|]. specialize (IH H). lia.
Qed.

Lemma register_conflict user_create hashed users :
  (exists u, In u users /\
             (email u = uc_email user_create \/
              username u = uc_username user_create)) <->
  (register user_create hashed users
   = Err (ValueError "Email already registered") \/
   register user_create hashed users
   = Err (ValueError "Username already taken")).
Proof.
  unfold register.
  destruct (List.find _ users) as [x|] eqn:F.
  - split; [|intros _].
    + intros _. destruct (str_eqb (email x) (uc_email user_create)); auto.
    + apply find_some in F as [Hx E]. exists x. split; [exact Hx|].
      apply orb_prop in E as [E | E]; apply str_eqb_eq in E; auto.
  - split.
    + intros (u & Hu & E). pose proof (find_none _ _ F u Hu) as N.
      apply orb_false_elim in N as [N1 N2].
      destruct E as [E | E]; apply str_eqb_eq in E; congruence.
    + intros [H | H]; discriminate.
Qed.

Lemma register_new user_create hashed users users' resp :
  register user_create hashed users = Ok (users', resp) ->
  users' = users ++ [mkUserRow (next_id users) (uc_email user_create)
                       (uc_username user_create) hashed
                       (uc_is_recruiter user_create)] /\
  ~ In (uc_email user_create) (map email users) /\
  ~ In (uc_username user_create) (map username users).
Proof.
  unfold register.
  destruct (List.find _ users) as [x|] eqn:F.
  - destruct (str_eqb _ _); discriminate.
  - intros H. injection H as <- _. split; [reflexivity|].
    split; intros Hin; apply in_map_iff in Hin as (u & E & Hu);
      pose proof (find_none _ _ F u Hu) as N;
      apply orb_false_elim in N as [N1 N2];
      apply str_eqb_eq in E; congruence.
Qed.

Lemma after_registrations_unique calls : forall users,
  NoDup (map row_id users) -> NoDup (map email users) ->
  NoDup (map username users) ->
  NoDup (map row_id (after_registrations users calls)) /\
  NoDup (map email (after_registrations users calls)) /\
  NoDup (map username (after_registrations users calls)).
Proof.
  induction calls as [|[uc hashed] calls IH]; intros users Hid He Hu;
    cbn [after_registrations]; [auto|].
  destruct (register uc hashed users) as [[users' resp]|e] eqn:R; [|auto].
  apply register_new in R as (-> & Ne & Nu).
  apply IH; rewrite map_app; cbn [map row_id email username];
    apply NoDup_snoc; try assumption.
  intros Hin. apply in_map_iff in Hin as (u & E & Hin).
  apply user_next_id_above in Hin. lia.
Qed.
End AccountFacts.

(** Accounts stay unique.  [register] raises, with one of its two
    messages, exactly when a stored account has the e-mail address or
    the user name of the request; otherwise it appends one row.  Hence,
    starting from an empty table, no two accounts ever share an id, an
    e-mail address or a user name, and the insert never meets the
    unique constraints of the table. *)
Theorem register_keeps_accounts_unique :
  (forall user_create hashed users,
     (exists u, In u users /\
                (AuthService.email u = AuthService.uc_email user_create \/
                 AuthService.username u
                 = AuthService.uc_username user_create)) <->
     (AuthService.register user_create hashed users
      = Err (ValueError "Email already registered") \/
      AuthService.register user_create hashed users
      = Err (ValueError "Username already taken"))) /\
  (forall user_create hashed users users' resp,
     AuthService.register user_create hashed users = Ok (users', resp) ->
     exists row,
       users' = users ++ [row] /\
       AuthService.email row = AuthService.uc_email user_create /\
       AuthService.username row = AuthService.uc_username user_create /\
       ~ In (AuthService.email row) (map AuthService.email users) /\
       ~ In (AuthService.username row) (map AuthService.username users)) /\
  (forall calls,
     let users := AuthService.after_registrations [] calls in
     NoDup (map AuthService.row_id users) /\
     NoDup (map AuthService.email users) /\
     NoDup (map AuthService.username users)).
Proof.
  split; [exact register_conflict|]. split.
  - intros user_create hashed users users' resp R.
    apply register_new in R as (-> & Ne & Nu). eexists.
    split; [reflexivity|]. cbn [AuthService.email AuthService.username]. auto.
  - intros calls. apply after_registrations_unique; constructor.
Qed.

(** ** middleware.py: what the window counts *)

Section WindowFacts.
Import RateLimitMiddleware.
Local Open Scope Z_scope.

(** The key holds the admitted seconds of the last minute. *)
Local Abbreviation window_of key seen last :=
  (0 <= last /\ NoDup (members key) /\
   (forall s, In s (members key) -> In s seen) /\
   (forall s, In s seen -> last - 60 < s -> In s (members key)) /\
   (forall s, In s seen -> 0 <= s <= last) /\
   (forall t0, ttl_from key = Some t0 -> forall s, In s seen -> s <= t0)).

Lemma zadd_in member z s : In s (zadd member z) <-> s = member \/ In s z.
Proof.
  unfold zadd. destruct (existsb (Z.eqb member) z) eqn:E.
  - split; [auto|]. intros [-> | H]; [|exact H].
    apply existsb_exists in E as (x & Hx & Ex). apply Z.eqb_eq in Ex.
    subst. exact Hx.
  - rewrite in_app_iff. simpl. intuition auto.
Qed.

Lemma zadd_nodup member z : NoDup z -> NoDup (zadd member z).
Proof.
  intros H. unfold zadd. destruct (existsb (Z.eqb member) z) eqn:E; [exact H|].
  apply NoDup_snoc; [exact H|]. intros Hin.
  assert (existsb (Z.eqb member) z = true); [|congruence].
  apply existsb_exists. exists member. split; [exact Hin | apply Z.eqb_refl].
Qed.

(** The members left by the cleaning step do not depend on [lapsed]. *)
Lemma cleaned_members key seen last t lapsed :
  window_of key seen last -> last <= t ->
  let z := zremrangebyscore 0 (t - 60) (at_start t lapsed key) in
  NoDup z /\ forall s, In s z <-> In s seen /\ t - 60 < s.
Proof.
  intros (H0 & Hnd & Hsub & Hsup & Hrange & Httl) Ht z. subst z.
  unfold zremrangebyscore. split.
  - apply NoDup_filter. unfold at_start.
    destruct (ttl_from key) as [t0|]; [|exact Hnd].
    destruct ((t0 + 60 <=? t) && lapsed); [constructor | exact Hnd].
  - intros s. rewrite filter_In, negb_true_iff, andb_false_iff.
    rewrite Z.leb_gt, Z.leb_gt. unfold at_start.
    destruct (ttl_from key) as [t0|] eqn:T.
    + destruct ((t0 + 60 <=? t) && lapsed) eqn:L.
      * apply andb_prop in L as [L _]. apply Z.leb_le in L.
        split; [intros [[] _]|]. intros [Hs Hw].
        specialize (Httl t0 eq_refl s Hs). lia.
      * split.
        -- intros [Hs Hw]. specialize (Hrange s (Hsub s Hs)).
           split; [auto | lia].
        -- intros [Hs Hw]. split; [apply Hsup; [exact Hs | lia] | lia].
    + split.
      * intros [Hs Hw]. specialize (Hrange s (Hsub s Hs)). split; [auto | lia].
      * intros [Hs Hw]. split; [apply Hsup; [exact Hs | lia] | lia].
Qed.

Lemma check_keeps_window key seen last t lapsed :
  window_of key seen last -> last <= t ->
  let outcome := _check_rate_limit t lapsed key in
  window_of (snd outcome) (if fst outcome then t :: seen else seen) t.
Proof.
  intros W Ht.
  destruct (@cleaned_members key seen last t lapsed W Ht) as [Hnd Hz].
  destruct W as (H0 & _ & _ & _ & Hrange & Httl).
  cbv zeta. unfold _check_rate_limit. cbv zeta.
  set (z := zremrangebyscore 0 (t - 60) (at_start t lapsed key)) in *.
  destruct (60 <=? zcard z)%nat; cbn [fst snd members ttl_from].
  - split; [lia|]. split; [exact Hnd|]. split; [intros s Hs; apply Hz, Hs|].
    split; [intros s Hs Hw; apply Hz; auto|].
    split; [intros s Hs; specialize (Hrange s Hs); lia | exact Httl].
  - split; [lia|]. split; [apply zadd_nodup, Hnd|].
    split; [intros s Hs; apply zadd_in in Hs as [-> | Hs];
            [left; reflexivity | right; apply Hz, Hs]|].
    split; [intros s [<- | Hs] Hw; apply zadd_in;
            [left; reflexivity | right; apply Hz; auto]|].
    split; [intros s [<- | Hs]; [|specialize (Hrange s Hs)]; lia|].
    intros t0 E s [<- | Hs]; injection E as <-;
      [|specialize (Hrange s Hs)]; lia.
Qed.

Lemma after_calls_window calls : forall key seen last,
  window_of key seen last -> Sorted Z.le (last :: map fst calls) ->
  exists last',
    last <= last' /\
    Sorted Z.le (map fst calls ++ [last']) /\
    (forall t, Sorted Z.le (last :: map fst calls ++ [t]) -> last' <= t) /\
    window_of (after_calls key calls) (rev (admitted key calls) ++ seen)
      last'.
Proof.
  induction calls as [|[t lapsed] calls IH]; intros key seen last W S.
  - exists last. cbn [after_calls admitted map rev app].
    split; [lia|]. split; [repeat constructor|]. split; [|exact W].
    intros t St. inversion St as [|? ? _ Hd]; subst.
    inversion Hd; subst. assumption.
  - cbn [map fst] in S. inversion S as [|? ? S' Hd]; subst.
    inversion Hd as [|? ? Hle]; subst.
    pose proof (@check_keeps_window key seen last t lapsed W Hle) as W'. cbv zeta in W'.
    cbn [after_calls admitted].
    destruct (IH _ _ _ W' S') as (last' & Hl & Hs & Hnext & Wf).
    exists last'. split; [lia|]. split; [|split].
    + cbn [map fst app].
      destruct calls as [|[t1 l1] calls].
      * cbn [map app] in *. repeat constructor.
        inversion Hs; subst. lia.
      * cbn [map fst app] in *. constructor; [exact Hs|].
        constructor. inversion S' as [|? ? _ Hd']; subst.
        inversion Hd'; subst. assumption.
    + intros t' St. apply Hnext. cbn [map fst app] in St.
      inversion St; subst. assumption.
    + destruct (fst (_check_rate_limit t lapsed key));
        cbn [rev]; rewrite <- ?app_assoc; exact Wf.
Qed.

Lemma NoDup_map_injective {X Y : Type} (f : X -> Y) l :
  (forall x y, f x = f y -> x = y) -> NoDup l -> NoDup (map f l).
Proof.
  intros Hf. induction 1 as [|x l Hx Hl IH]; simpl; constructor; [|exact IH].
  intros Hin. apply in_map_iff in Hin as (y & E & Hy).
  apply Hf in E. subst. contradiction.
Qed.

Lemma seconds_of_window (t : Z) (z : list Z) :
  NoDup z -> (forall s, In s z -> t - 60 < s <= t) ->
  ((60 <=? zcard z)%nat = true <-> forall s, t - 59 <= s <= t -> In s z).
Proof.
  intros Hnd Hin.
  set (window := map (fun i => t - 59 + Z.of_nat i) (seq 0 60)).
  assert (Hw : forall s, In s window <-> t - 59 <= s <= t).
  { intros s. unfold window. rewrite in_map_iff. split.
    - intros (i & <- & Hi). apply in_seq in Hi. lia.
    - intros Hs. exists (Z.to_nat (s - (t - 59))). split; [lia|].
      apply in_seq. lia. }
  assert (Hlen : length window = 60%nat)
    by (unfold window; rewrite length_map, length_seq; reflexivity).
  assert (Hwnd : NoDup window).
  { unfold window. apply NoDup_map_injective; [|apply seq_NoDup].
    intros i j E. lia. }
  assert (Hincl : incl z window).
  { intros s Hs. apply Hw. specialize (Hin s Hs). lia. }
  unfold zcard. rewrite Nat.leb_le. split.
  - intros L s Hs. apply Hw in Hs.
    assert (Hlw : (length window <= length z)%nat) by lia.
    exact (@NoDup_length_incl Z z window Hnd Hlw Hincl s Hs).
  - intros H. rewrite <- Hlen. apply NoDup_incl_length; [exact Hwnd|].
    intros s Hs. apply H, Hw, Hs.
Qed.
End WindowFacts.

(** The window counts seconds, not requests.  With a clock that does not
    run backwards, a call of [_check_rate_limit] is refused exactly when
    each of the 60 seconds ending with the current one has had a call
    that was admitted, whether or not the key has lapsed in between.
    Hence the first call of a second is always admitted, and so is
    every call of that second while an earlier second of the minute is
    without an admitted call. *)
Theorem check_rate_limit_counts_seconds :
  forall (calls : list (Z * bool)) (current_time : Z) (lapsed : bool),
    Sorted Z.le (0%Z :: map fst calls ++ [current_time]) ->
    (fst (RateLimitMiddleware._check_rate_limit current_time lapsed
            (RateLimitMiddleware.after_calls RateLimitMiddleware.no_key calls))
     = false <->
     forall s : Z,
       (current_time - 59 <= s <= current_time)%Z ->
       In s (RateLimitMiddleware.admitted RateLimitMiddleware.no_key calls)).
Proof.
  intros calls t lapsed S.
  assert (W0 : ((0 <= 0)%Z
     /\ NoDup (RateLimitMiddleware.members RateLimitMiddleware.no_key)
     /\ (forall s, In s (RateLimitMiddleware.members RateLimitMiddleware.no_key)
                   -> In s [])
     /\ (forall s, In s (@nil Z) -> (0 - 60 < s)%Z ->
                   In s (RateLimitMiddleware.members
                           RateLimitMiddleware.no_key))
     /\ (forall s, In s (@nil Z) -> (0 <= s <= 0)%Z)
     /\ (forall t0, RateLimitMiddleware.ttl_from RateLimitMiddleware.no_key
                    = Some t0 -> forall s, In s (@nil Z) -> (s <= t0)%Z))).
  { cbn. repeat split; try constructor; try tauto; try lia; discriminate. }
  assert (S0 : Sorted Z.le (0%Z :: map fst calls)).
  { clear W0. revert S. generalize 0%Z.
    induction calls as [|[t1 l1] calls IH]; intros z S.
    - repeat constructor.
    - cbn [map fst app] in *. inversion S as [|? ? S' Hd]; subst.
      constructor; [apply IH, S' | inversion Hd; subst; constructor; auto]. }
  destruct (@after_calls_window calls _ _ _ W0 S0) as (last & _ & _ & Hnext & W).
  specialize (Hnext t S). rewrite app_nil_r in W.
  destruct (@cleaned_members _ _ _ t lapsed W Hnext) as [Hnd Hz].
  unfold RateLimitMiddleware._check_rate_limit. cbv zeta.
  set (z := RateLimitMiddleware.zremrangebyscore 0 (t - 60) _) in *.
  assert (Hin : forall s, In s z -> (t - 60 < s <= t)%Z).
  { intros s Hs. apply Hz in Hs as [Hs Hw].
    destruct W as (_ & _ & _ & _ & Hrange & _). specialize (Hrange s Hs). lia. }
  pose proof (@seconds_of_window t z Hnd Hin) as C.
  destruct (60 <=? RateLimitMiddleware.zcard z)%nat eqn:E; cbn [fst].
  - split; [|reflexivity]. intros _ s Hs.
    apply in_rev. apply Hz. apply (proj1 C eq_refl s Hs).
  - split; [discriminate|]. intros H.
    assert (false = true); [|discriminate].
    apply C. intros s Hs. apply Hz.
    split; [apply -> in_rev; apply H, Hs | lia].
Qed.

Lemma check_rate_limit_counts_seconds_witness :
  fst (RateLimitMiddleware._check_rate_limit 100 false
         (RateLimitMiddleware.after_calls RateLimitMiddleware.no_key
            [(100%Z, false); (100%Z, false); (100%Z, false)]))
  = false <->
  forall s : Z,
    (100 - 59 <= s <= 100)%Z ->
    In s (RateLimitMiddleware.admitted RateLimitMiddleware.no_key
            [(100%Z, false); (100%Z, false); (100%Z, false)]).
Proof.
  apply (@check_rate_limit_counts_seconds
           [(100%Z, false); (100%Z, false); (100%Z, false)] 100%Z false).
  simpl. repeat constructor; lia.
Defined.
